(** * Motion-coherence test: dots, patches, staircase

    A shallow embedding of the simulation core of the perceptual-motion
    test: the [Dot] class (kinematics, wall and dot collisions), the
    abstract motion world (per-frame update, respawn placement), the
    tutorial-trial world (dot creation, trial reset, spawn lattice) and the
    adaptive staircase of the two world variants.

    Conventions of the embedding.
    - A TypeScript [number] is a real number ([R]); arithmetic is exact.
      [Math.sqrt], [Math.sin] and [Math.floor] are [sqrt], [sin] and
      [Zfloor].  Division by zero, which yields [Infinity] or [NaN] in the
      source, is excluded by hypotheses wherever a statement depends on it.
      A comparison of two values that are equal up to the rounding of the
      source's doubles can fall either way in the source; statements about
      such a comparison leave that margin open.
    - Objects shared by reference (the dots of one patch) live in a store,
      a [list Dot]; a reference is an index into it, and [dot == this] is
      equality of indices.
    - The random library is a stream of draws read through a cursor.
    - Rendering (containers, visibility, textures) is not modelled; of the
      text button, the calls it makes on its graphics are recorded in
      order, uninterpreted. *)

From Stdlib Require Import Reals Lra Lia ZArith String Bool.
From stdpp Require Import list.

Open Scope R_scope.

(** Comparisons of numbers are decidable, so the source's tests can be
    written as [bool_decide]. *)
#[global] Instance Rlt_decision : RelDecision Rlt := Rlt_dec.
#[global] Instance Rle_decision : RelDecision Rle := Rle_dec.
#[global] Instance Rgt_decision : RelDecision Rgt := Rgt_dec.
#[global] Instance Rge_decision : RelDecision Rge := Rge_dec.
#[global] Instance Req_decision : EqDecision R := Req_dec_T.

(** ** Enumerations (utils/Enums) *)

(** Modelled from the spec: the members of [Direction] used by the source
    ([LEFT], [RIGHT], [RANDOM]); the declaration itself is not in the
    source tree. *)
Inductive Direction : Type :=
| LEFT
| RIGHT
| RANDOM.

Definition Direction_eqb (a b : Direction) : bool :=
  match a, b with
  | LEFT, LEFT | RIGHT, RIGHT | RANDOM, RANDOM => true
  | _, _ => false
  end.

(** Modelled from the spec: the members of [WorldState] used by the
    source. *)
Inductive WorldState : Type :=
| RUNNING
| PAUSED
| TRIAL_CORRECT
| TRIAL_INCORRECT
| PATCH_SELECTED
| FINISHED.

(** ** Randomness and vectors *)

(** The random library: [rando k] is the value of the [k]-th draw when it
    is read as [rando()], a float of [[0,1)]; [rando1 k] when it is read as
    [rando(1)], an integer of [{0,1}] used as a truth value;
    [randoSequence k l] when it is read as a shuffle of [l]. *)
Record RandomSource : Type := mkRandomSource {
  rando : nat -> R;
  rando1 : nat -> bool;
  randoSequence : nat -> list (R * R) -> list (R * R)
}.

Definition Vec : Type := (R * R)%type.

(** Modelled from the spec: [rotateVector] (utils/RotateVector) is "a
    standard 2D rotation of the velocity vector", its angle in degrees. *)
Definition rotateVector (v : Vec) (degrees : R) : Vec :=
  let theta := degrees * PI / 180 in
  (cos theta * fst v - sin theta * snd v,
   sin theta * fst v + cos theta * snd v).

(** Modelled from the spec: [euclideanDistance] (utils/EuclideanDistance)
    is the "true Euclidean distance" of two points. *)
Definition euclideanDistance (x1 y1 x2 y2 : R) : R :=
  sqrt ((x1 - x2) ^ 2 + (y1 - y2) ^ 2).

(** ** The Dot class *)

Record Dot : Type := mkDot {
  x : R;
  y : R;
  radius : R;
  direction : Direction;
  directionTimer : R;
  aliveTimer : R;
  maxAliveTimer : R;
  horMaxTime : R;
  ranMaxTime : R;
  speed : R;
  velocity : Vec;
  isRandom : bool
}.

Definition with_position (d : Dot) (px py : R) : Dot :=
  mkDot px py (radius d) (direction d) (directionTimer d) (aliveTimer d)
        (maxAliveTimer d) (horMaxTime d) (ranMaxTime d) (speed d)
        (velocity d) (isRandom d).

Definition with_velocity (d : Dot) (v : Vec) : Dot :=
  mkDot (x d) (y d) (radius d) (direction d) (directionTimer d)
        (aliveTimer d) (maxAliveTimer d) (horMaxTime d) (ranMaxTime d)
        (speed d) v (isRandom d).

Definition with_directionTimer (d : Dot) (t : R) : Dot :=
  mkDot (x d) (y d) (radius d) (direction d) t (aliveTimer d)
        (maxAliveTimer d) (horMaxTime d) (ranMaxTime d) (speed d)
        (velocity d) (isRandom d).

Definition with_aliveTimer (d : Dot) (t : R) : Dot :=
  mkDot (x d) (y d) (radius d) (direction d) (directionTimer d) t
        (maxAliveTimer d) (horMaxTime d) (ranMaxTime d) (speed d)
        (velocity d) (isRandom d).

Definition with_maxAliveTimer (d : Dot) (t : R) : Dot :=
  mkDot (x d) (y d) (radius d) (direction d) (directionTimer d)
        (aliveTimer d) t (horMaxTime d) (ranMaxTime d) (speed d)
        (velocity d) (isRandom d).

Definition with_direction (d : Dot) (dir : Direction) : Dot :=
  mkDot (x d) (y d) (radius d) dir (directionTimer d) (aliveTimer d)
        (maxAliveTimer d) (horMaxTime d) (ranMaxTime d) (speed d)
        (velocity d) (isRandom d).

Definition with_isRandom (d : Dot) (b : bool) : Dot :=
  mkDot (x d) (y d) (radius d) (direction d) (directionTimer d)
        (aliveTimer d) (maxAliveTimer d) (horMaxTime d) (ranMaxTime d)
        (speed d) (velocity d) b.

Section DotMethods.
Variable rs : RandomSource.

  (** The velocity, direction timer and mode a dot gets from its
      direction: the tail of the constructor.  It draws twice when the
      direction is [RANDOM]. *)
Definition initVelocity (d : Dot) (k : nat) : Dot * nat :=
    let v : Vec :=
      if Direction_eqb (direction d) LEFT then (- speed d, 0)
      else (speed d, 0) in
    if Direction_eqb (direction d) RANDOM then
      let v' := rotateVector v (rando rs k * 360) in
      let t := rando rs (S k) * ranMaxTime d in
      (with_isRandom (with_directionTimer (with_velocity d v') t) true,
       S (S k))
    else
      (with_isRandom (with_directionTimer (with_velocity d v) 0) false, k).

  (** [new Dot(x, y, radius, direction, aliveTime, texture)]. *)
Definition newDot (px py r : R) (dir : Direction) (aliveTime : R)
      (k : nat) : Dot * nat :=
    initVelocity (mkDot px py r dir 0 aliveTime aliveTime 30 30 (2 / 10)
                        (0, 0) false) k.

Definition updatePosition (d : Dot) (delta : R) : Dot :=
    with_position d (x d + delta * fst (velocity d))
                    (y d + delta * snd (velocity d)).

  (** [Dot.update(delta)]. *)
Definition update (d : Dot) (delta : R) (k : nat) : Dot * nat :=
    let d1 := with_directionTimer d (directionTimer d + delta) in
    let d2 := with_aliveTimer d1 (aliveTimer d1 - delta) in
    let d3 :=
      if negb (isRandom d2) && bool_decide (directionTimer d2 >= horMaxTime d2)
      then with_directionTimer
             (with_velocity d2 (rotateVector (velocity d2) 180)) 0
      else d2 in
    let '(d4, k') :=
      if isRandom d3 && bool_decide (directionTimer d3 >= ranMaxTime d3)
      then
        let randomAngle := rando rs k * 360 in
        (with_directionTimer
           (with_velocity d3 (rotateVector (velocity d3) randomAngle)) 0,
         S k)
      else (d3, k) in
    (updatePosition d4 delta, k').
End DotMethods.

(** The worlds call five methods that the [Dot] source at hand lacks. *)

(** Modelled from the spec: [Dot.setPosition(x, y)], missing from the
    source, relocates the agent ("relocate the agent to a new position"). *)
Definition setPosition (d : Dot) (px py : R) : Dot := with_position d px py.

(** Modelled from the spec: [Dot.setDirection(direction)], missing from
    the source, records the motion mode that is "reassigned at each new
    trial". *)
Definition setDirection (d : Dot) (dir : Direction) : Dot :=
  with_direction d dir.

(** Modelled from the spec: [Dot.setTimers(aliveTime)], missing from the
    source, restarts the lifetime with a new maximum, as the constructor
    sets both from [aliveTime]. *)
Definition setTimers (d : Dot) (aliveTime : R) : Dot :=
  with_maxAliveTimer (with_aliveTimer d aliveTime) aliveTime.

(** Modelled from the spec: [Dot.resetAliveTimer()], missing from the
    source, is the only call of the respawn that touches the timers; the
    respawn is to "reset both timers to the agent's configured maximum
    lifetime". *)
Definition resetAliveTimer (d : Dot) : Dot :=
  with_directionTimer (with_aliveTimer d (maxAliveTimer d)) (maxAliveTimer d).

(** Modelled from the spec: [Dot.resetVelocity()], missing from the
    source, recomputes velocity, heading timer and mode from the
    direction, as the constructor does. *)
Definition resetVelocity (rs : RandomSource) (d : Dot) (k : nat) : Dot * nat :=
  initVelocity rs d k.

(** *** Wall collision *)

(** The intermediate values of [collideWithWall] and [collideWithDot]. *)
Definition normalTo (d : Dot) (px py : R) : Vec := (x d - px, y d - py).

Definition vecLength (n : Vec) : R := sqrt (fst n ^ 2 + snd n ^ 2).

Definition minimumTranslation (d : Dot) (n : Vec) : Vec :=
  let dist := vecLength n in
  let distScalar := (2 * radius d - dist) / dist in
  (fst n * distScalar, snd n * distScalar).

(** [Dot.collideWithWall(wallX, wallY)]. *)
Definition collideWithWall (d : Dot) (wallX wallY : R) : Dot :=
  let n := normalTo d wallX wallY in
  let mtd := minimumTranslation d n in
  let d1 := with_position d (x d + fst mtd * 1 / 2) (y d + snd mtd * 1 / 2) in
  if bool_decide (fst mtd <> 0)
  then with_velocity d1 (- fst (velocity d1), snd (velocity d1))
  else with_velocity d1 (fst (velocity d1), - snd (velocity d1)).

(** *** Dot collision *)

Definition unitNormal (n : Vec) : Vec :=
  let dist := vecLength n in (fst n * 1 / dist, snd n * 1 / dist).

Definition unitTangent (un : Vec) : Vec := (- snd un, fst un).

(** The scalar projection of a velocity onto a unit vector. *)
Definition project (u v : Vec) : R := fst u * fst v + snd u * snd v.

(** A velocity from its normal and tangential scalars. *)
Definition recompose (un ut : Vec) (vn vt : R) : Vec :=
  (fst un * vn + fst ut * vt, snd un * vn + snd ut * vt).

(** The velocities [collideWithDot] computes for the calling dot and for
    the other one: the normal scalars are exchanged. *)
Definition velocityOfThis (d1 d2 : Dot) : Vec :=
  let un := unitNormal (normalTo d1 (x d2) (y d2)) in
  let ut := unitTangent un in
  let v1t := project ut (velocity d1) in
  let v2n := project un (velocity d2) in
  let v1nPrime := v2n in
  recompose un ut v1nPrime v1t.

Definition velocityOfOther (d1 d2 : Dot) : Vec :=
  let un := unitNormal (normalTo d1 (x d2) (y d2)) in
  let ut := unitTangent un in
  let v1n := project un (velocity d1) in
  let v2t := project ut (velocity d2) in
  let v2nPrime := v1n in
  recompose un ut v2nPrime v2t.

(** [this.collideWithDot(dot)], both dots being references into the store
    [dots].  A reference outside the store does not occur: the references
    come from the store itself.  Two distinct dots with one center are at
    distance 0, by which the source divides: the statements about a
    resolved collision assume a positive distance. *)
Definition collideWithDot (this dot : nat) (dots : list Dot) : list Dot :=
  if bool_decide (dot = this) then dots
  else
    match dots !! this, dots !! dot with
    | Some d1, Some d2 =>
        let n := normalTo d1 (x d2) (y d2) in
        let dist := vecLength n in
        if bool_decide (dist > 2 * radius d1) then dots
        else
          let mtd := minimumTranslation d1 n in
          let v1 := velocityOfThis d1 d2 in
          let v2 := velocityOfOther d1 d2 in
          if isRandom d1 && negb (isRandom d2) then
            <[this := with_velocity
                        (with_position d1 (x d1 + fst mtd) (y d1 + snd mtd))
                        v1]> dots
          else if negb (isRandom d1) && isRandom d2 then
            <[dot := with_velocity
                       (with_position d2 (x d2 - fst mtd) (y d2 - snd mtd))
                       v2]> dots
          else
            <[dot := with_velocity
                       (with_position d2 (x d2 - fst mtd * 1 / 2)
                                         (y d2 - snd mtd * 1 / 2)) v2]>
              (<[this := with_velocity
                           (with_position d1 (x d1 + fst mtd * 1 / 2)
                                             (y d1 + snd mtd * 1 / 2)) v1]>
                 dots)
    | _, _ => dots
    end.


(** ** Exceptions *)

(** What a call can raise: an [Error] the source throws itself, or the
    [TypeError] of a property read on [undefined] (an array read past its
    end followed by a field access or a method call). *)
Inductive Exception : Type :=
| Error (message : string)
| TypeError.

Inductive Result (A : Type) : Type :=
| Ok (a : A)
| Throw (e : Exception).
Arguments Ok {A} a.
Arguments Throw {A} e.

Definition bind {A B : Type} (m : Result A) (f : A -> Result B) : Result B :=
  match m with
  | Ok a => f a
  | Throw e => Throw e
  end.

Notation "'do' a <- m ; k" := (bind m (fun a => k))
  (at level 10, a name, m at level 100, k at level 200).

(** An array read [arr[i]] whose result is dereferenced at once. *)
Definition readIndex {A : Type} (arr : list A) (i : nat) : Result A :=
  match arr !! i with
  | Some a => Ok a
  | None => Throw TypeError
  end.

(** ** The spatial index (utils/QuadTree) *)

(** The quadtree is used through three operations.  It stores references
    to dots; where a dot goes is decided by its position when inserted,
    and a query by the position of the querying dot. *)
Class SpatialIndex (QT : Type) : Type := {
  qt_clear : QT -> QT;
  qt_insert : QT -> nat -> Dot -> QT;
  qt_retrieve : QT -> list nat -> Dot -> list nat
}.

(** ** The abstract motion world *)

Record World (QT : Type) : Type := mkWorld {
  currentState : WorldState;
  dotsLeft : list Dot;
  dotsRight : list Dot;
  leftMinX : R;
  leftMaxX : R;
  patchMinY : R;
  patchMaxY : R;
  rightMinX : R;
  rightMaxX : R;
  coherentPatchSide : string;
  coherencePercent : R;
  dotsToKill : R;
  numberOfDots : nat;
  dotSpacing : R;
  dotRadius : R;
  dotMaxAliveTime : R;
  maxRunTime : R;
  runTime : R;
  quadTree : QT;
  leftGridPoints : list Vec;
  rightGridPoints : list Vec;
  (** the cursor into the random source *)
  draws : nat
}.
Arguments mkWorld {QT}.
Arguments currentState {QT} w.
Arguments dotsLeft {QT} w.
Arguments dotsRight {QT} w.
Arguments leftMinX {QT} w.
Arguments leftMaxX {QT} w.
Arguments patchMinY {QT} w.
Arguments patchMaxY {QT} w.
Arguments rightMinX {QT} w.
Arguments rightMaxX {QT} w.
Arguments coherentPatchSide {QT} w.
Arguments coherencePercent {QT} w.
Arguments dotsToKill {QT} w.
Arguments numberOfDots {QT} w.
Arguments dotSpacing {QT} w.
Arguments dotRadius {QT} w.
Arguments dotMaxAliveTime {QT} w.
Arguments maxRunTime {QT} w.
Arguments runTime {QT} w.
Arguments quadTree {QT} w.
Arguments leftGridPoints {QT} w.
Arguments rightGridPoints {QT} w.
Arguments draws {QT} w.

Section WorldSetters.
Context {QT : Type}.
Implicit Type w : World QT.

Definition set_currentState w (s : WorldState) : World QT :=
    mkWorld s (dotsLeft w) (dotsRight w) (leftMinX w) (leftMaxX w)
      (patchMinY w) (patchMaxY w) (rightMinX w) (rightMaxX w)
      (coherentPatchSide w) (coherencePercent w) (dotsToKill w)
      (numberOfDots w) (dotSpacing w) (dotRadius w) (dotMaxAliveTime w)
      (maxRunTime w) (runTime w) (quadTree w) (leftGridPoints w)
      (rightGridPoints w) (draws w).

Definition set_dotsLeft w (ds : list Dot) : World QT :=
    mkWorld (currentState w) ds (dotsRight w) (leftMinX w) (leftMaxX w)
      (patchMinY w) (patchMaxY w) (rightMinX w) (rightMaxX w)
      (coherentPatchSide w) (coherencePercent w) (dotsToKill w)
      (numberOfDots w) (dotSpacing w) (dotRadius w) (dotMaxAliveTime w)
      (maxRunTime w) (runTime w) (quadTree w) (leftGridPoints w)
      (rightGridPoints w) (draws w).

Definition set_dotsRight w (ds : list Dot) : World QT :=
    mkWorld (currentState w) (dotsLeft w) ds (leftMinX w) (leftMaxX w)
      (patchMinY w) (patchMaxY w) (rightMinX w) (rightMaxX w)
      (coherentPatchSide w) (coherencePercent w) (dotsToKill w)
      (numberOfDots w) (dotSpacing w) (dotRadius w) (dotMaxAliveTime w)
      (maxRunTime w) (runTime w) (quadTree w) (leftGridPoints w)
      (rightGridPoints w) (draws w).

Definition set_coherentPatchSide w (s : string) : World QT :=
    mkWorld (currentState w) (dotsLeft w) (dotsRight w) (leftMinX w)
      (leftMaxX w) (patchMinY w) (patchMaxY w) (rightMinX w) (rightMaxX w)
      s (coherencePercent w) (dotsToKill w)
      (numberOfDots w) (dotSpacing w) (dotRadius w) (dotMaxAliveTime w)
      (maxRunTime w) (runTime w) (quadTree w) (leftGridPoints w)
      (rightGridPoints w) (draws w).

Definition set_coherencePercent w (c : R) : World QT :=
    mkWorld (currentState w) (dotsLeft w) (dotsRight w) (leftMinX w)
      (leftMaxX w) (patchMinY w) (patchMaxY w) (rightMinX w) (rightMaxX w)
      (coherentPatchSide w) c (dotsToKill w)
      (numberOfDots w) (dotSpacing w) (dotRadius w) (dotMaxAliveTime w)
      (maxRunTime w) (runTime w) (quadTree w) (leftGridPoints w)
      (rightGridPoints w) (draws w).

Definition set_runTime w (t : R) : World QT :=
    mkWorld (currentState w) (dotsLeft w) (dotsRight w) (leftMinX w)
      (leftMaxX w) (patchMinY w) (patchMaxY w) (rightMinX w) (rightMaxX w)
      (coherentPatchSide w) (coherencePercent w) (dotsToKill w)
      (numberOfDots w) (dotSpacing w) (dotRadius w) (dotMaxAliveTime w)
      (maxRunTime w) t (quadTree w) (leftGridPoints w)
      (rightGridPoints w) (draws w).

Definition set_quadTree w (q : QT) : World QT :=
    mkWorld (currentState w) (dotsLeft w) (dotsRight w) (leftMinX w)
      (leftMaxX w) (patchMinY w) (patchMaxY w) (rightMinX w) (rightMaxX w)
      (coherentPatchSide w) (coherencePercent w) (dotsToKill w)
      (numberOfDots w) (dotSpacing w) (dotRadius w) (dotMaxAliveTime w)
      (maxRunTime w) (runTime w) q (leftGridPoints w)
      (rightGridPoints w) (draws w).

Definition set_gridPoints w (l r : list Vec) : World QT :=
    mkWorld (currentState w) (dotsLeft w) (dotsRight w) (leftMinX w)
      (leftMaxX w) (patchMinY w) (patchMaxY w) (rightMinX w) (rightMaxX w)
      (coherentPatchSide w) (coherencePercent w) (dotsToKill w)
      (numberOfDots w) (dotSpacing w) (dotRadius w) (dotMaxAliveTime w)
      (maxRunTime w) (runTime w) (quadTree w) l r (draws w).

Definition set_draws w (k : nat) : World QT :=
    mkWorld (currentState w) (dotsLeft w) (dotsRight w) (leftMinX w)
      (leftMaxX w) (patchMinY w) (patchMaxY w) (rightMinX w) (rightMaxX w)
      (coherentPatchSide w) (coherencePercent w) (dotsToKill w)
      (numberOfDots w) (dotSpacing w) (dotRadius w) (dotMaxAliveTime w)
      (maxRunTime w) (runTime w) (quadTree w) (leftGridPoints w)
      (rightGridPoints w) k.
End WorldSetters.

(** Modelled from the spec: a [Patch] (objects/Patch, not in the source
    tree) is an "axis-aligned rectangle (x, y, width, height)"; the worlds
    read these four fields. *)
Record Patch : Type := mkPatch {
  patchX : R;
  patchY : R;
  patchWidth : R;
  patchHeight : R
}.

Definition set_bounds {QT : Type} (w : World QT)
    (lMinX lMaxX pMinY pMaxY rMinX rMaxX : R) : World QT :=
  mkWorld (currentState w) (dotsLeft w) (dotsRight w) lMinX lMaxX pMinY pMaxY
    rMinX rMaxX (coherentPatchSide w) (coherencePercent w) (dotsToKill w)
    (numberOfDots w) (dotSpacing w) (dotRadius w) (dotMaxAliveTime w)
    (maxRunTime w) (runTime w) (quadTree w) (leftGridPoints w)
    (rightGridPoints w) (draws w).

Section AbstractMotionWorld.
Context {QT : Type} `{!SpatialIndex QT}.
Variable rs : RandomSource.
Implicit Type w : World QT.

(** [getRandomPosition(xMin, yMin, xMax, yMax)]: two draws. *)
Definition getRandomPosition (xMin yMin xMax yMax : R) (k : nat) : Vec * nat :=
  let px := rando rs k * (xMax - xMin) + xMin in
  let py := rando rs (S k) * (yMax - yMin) + yMin in
  ((px, py), S (S k)).

(** [checkWallCollisionLeftPatch(dot)] and its twin for the right patch,
    the same in both revisions of the abstract world. *)
Definition checkWallCollisionLeftPatch w (dot : Dot) : Dot :=
  if bool_decide (x dot - radius dot <= leftMinX w) then
    collideWithWall dot (leftMinX w) (y dot)
  else if bool_decide (x dot + radius dot >= leftMaxX w) then
    collideWithWall dot (leftMaxX w) (y dot)
  else if bool_decide (y dot - radius dot <= patchMinY w) then
    collideWithWall dot (x dot) (patchMinY w)
  else if bool_decide (y dot + radius dot >= patchMaxY w) then
    collideWithWall dot (x dot) (patchMaxY w)
  else dot.

Definition checkWallCollisionRightPatch w (dot : Dot) : Dot :=
  if bool_decide (x dot - radius dot <= rightMinX w) then
    collideWithWall dot (rightMinX w) (y dot)
  else if bool_decide (x dot + radius dot >= rightMaxX w) then
    collideWithWall dot (rightMaxX w) (y dot)
  else if bool_decide (y dot - radius dot <= patchMinY w) then
    collideWithWall dot (x dot) (patchMinY w)
  else if bool_decide (y dot + radius dot >= patchMaxY w) then
    collideWithWall dot (x dot) (patchMaxY w)
  else dot.

(** [possibleCollisions.forEach(otherDot => dot.collideWithDot(otherDot))]. *)
Definition collideWithCandidates (i : nat) (candidates : list nat)
    (dots : list Dot) : list Dot :=
  fold_left (fun ds otherDot => collideWithDot i otherDot ds) candidates dots.

(** [freeSpot(x, y, dots)]. *)
Fixpoint freeSpot w (px py : R) (dots : list Dot) : bool :=
  match dots with
  | [] => true
  | d :: rest =>
      if bool_decide (euclideanDistance px py (x d) (y d)
                      <= dotSpacing w + 2 * dotRadius w)
      then false
      else freeSpot w px py rest
  end.

(** [getFreeSpotInPatch(minX, minY, maxX, maxY, dots)].  The source loops
    [do ... while (!freeSpot(x, y, dots))] with no counter; [fuel] bounds
    the attempts of the model only, and [None] stands for a loop that is
    still running when the fuel is spent.  The function has no other
    outcome: it throws nothing. *)
Fixpoint getFreeSpotInPatch (fuel : nat) w (minX minY maxX maxY : R)
    (dots : list Dot) (k : nat) : option (Vec * nat) :=
  match fuel with
  | O => None
  | S fuel' =>
      let px := rando rs k * (maxX - minX) + minX in
      let py := rando rs (S k) * (maxY - minY) + minY in
      if negb (freeSpot w px py dots)
      then getFreeSpotInPatch fuel' w minX minY maxX maxY dots (S (S k))
      else Some ((px, py), S (S k))
  end.
End AbstractMotionWorld.

(** *** The per-frame update, first revision (lattice spawn worlds) *)

Module AbstractMotionWorld.
Section Frame.
Context {QT : Type} `{!SpatialIndex QT}.
Variable rs : RandomSource.
Implicit Type w : World QT.

(** [dots.forEach(dot => this.quadTree.insert(dot))]. *)
Definition insertDots (q : QT) (dots : list Dot) : QT :=
  fold_left (fun q' (entry : nat * Dot) => qt_insert q' entry.1 entry.2)
            (imap pair dots) q.

(** One turn of the collision loop: wall check of a random dot, then the
    candidates of the index. *)
Definition collisionStep (checkWall : Dot -> Dot) (q : QT)
    (dots : list Dot) (i : nat) : list Dot :=
  match dots !! i with
  | None => dots
  | Some dot =>
      let dot' := if isRandom dot then checkWall dot else dot in
      collideWithCandidates i (qt_retrieve q [] dot') (<[i := dot']> dots)
  end.

(** One turn of the update loop: kinematics, then respawn at a random
    position when the lifetime is over. *)
Definition updateStep (delta xMin yMin xMax yMax : R)
    (st : list Dot * nat) (i : nat) : list Dot * nat :=
  match st.1 !! i with
  | None => st
  | Some dot =>
      let '(dot1, k1) := update rs dot delta st.2 in
      if bool_decide (aliveTimer dot1 <= 0) then
        let dot2 := resetAliveTimer dot1 in
        let '(dotPosition, k2) :=
          getRandomPosition rs xMin yMin xMax yMax k1 in
        (<[i := setPosition dot2 dotPosition.1 dotPosition.2]> st.1, k2)
      else (<[i := dot1]> st.1, k1)
  end.

(** One patch of a frame. *)
Definition updatePatch (checkWall : Dot -> Dot)
    (delta xMin yMin xMax yMax : R) (q : QT) (dots : list Dot) (k : nat)
    : QT * list Dot * nat :=
  let q1 := insertDots (qt_clear q) dots in
  let dots1 :=
    fold_left (collisionStep checkWall q1) (seq 0 (length dots)) dots in
  let st :=
    fold_left (updateStep delta xMin yMin xMax yMax)
              (seq 0 (length dots1)) (dots1, k) in
  (q1, st.1, st.2).

(** [updateDots(delta)]. *)
Definition updateDots w (delta : R) : World QT :=
  let w1 := set_runTime w (runTime w + delta) in
  if bool_decide (runTime w1 >= maxRunTime w1) then set_currentState w1 PAUSED
  else
    let '(q1, dl, k1) :=
      updatePatch (checkWallCollisionLeftPatch w1) delta
        (leftMinX w1 + dotRadius w1) (patchMinY w1 + dotRadius w1)
        (leftMaxX w1 - dotRadius w1) (patchMaxY w1 - dotRadius w1)
        (quadTree w1) (dotsLeft w1) (draws w1) in
    let '(q2, dr, k2) :=
      updatePatch (checkWallCollisionRightPatch w1) delta
        (rightMinX w1 + dotRadius w1) (patchMinY w1 + dotRadius w1)
        (rightMaxX w1 - dotRadius w1) (patchMaxY w1 - dotRadius w1)
        q1 (dotsRight w1) k1 in
    set_draws (set_quadTree (set_dotsRight (set_dotsLeft w1 dl) dr) q2) k2.

(** [paused()]; the visibility of the containers is not modelled. *)
Definition paused w : World QT :=
  if bool_decide (runTime w >= maxRunTime w) then set_runTime w 0 else w.

(** [calculateMaxMin()], from the two patches and the constant
    [PATCH_OUTLINE_THICKNESS] (utils/Constants). *)
Definition calculateMaxMin (patchLeft patchRight : Patch)
    (PATCH_OUTLINE_THICKNESS : R) w : World QT :=
  let leftMinX := patchX patchLeft + PATCH_OUTLINE_THICKNESS in
  let leftMaxX :=
    (patchX patchLeft + patchWidth patchLeft)
    - 3 * PATCH_OUTLINE_THICKNESS in
  let patchMinY := patchY patchLeft + PATCH_OUTLINE_THICKNESS in
  let patchMaxY :=
    (patchY patchLeft + patchHeight patchLeft) - PATCH_OUTLINE_THICKNESS in
  let rightMinX := patchX patchRight + PATCH_OUTLINE_THICKNESS in
  let rightMaxX :=
    (patchX patchRight + patchWidth patchRight)
    - 3 * PATCH_OUTLINE_THICKNESS in
  set_bounds w leftMinX leftMaxX patchMinY patchMaxY rightMinX rightMaxX.
End Frame.
End AbstractMotionWorld.

(** *** The per-frame update, second revision (rejection-sampling respawn) *)

Module AbstractMotionWorld2.
Section Frame.
Context {QT : Type} `{!SpatialIndex QT}.
Variable rs : RandomSource.
Implicit Type w : World QT.

(** One turn of the first loop: insert the dot, then wall-check it if it
    is random. *)
Definition insertStep (checkWall : Dot -> Dot) (st : QT * list Dot)
    (i : nat) : QT * list Dot :=
  match st.2 !! i with
  | None => st
  | Some dot =>
      let q := qt_insert st.1 i dot in
      if isRandom dot then (q, <[i := checkWall dot]> st.2) else (q, st.2)
  end.

(** One turn of the second loop: the candidates of the index. *)
Definition collisionStep (q : QT) (dots : list Dot) (i : nat) : list Dot :=
  match dots !! i with
  | None => dots
  | Some dot => collideWithCandidates i (qt_retrieve q [] dot) dots
  end.

(** One turn of the update loop; [None] when the search of a free spot
    has not ended within the fuel. *)
Definition updateStep (fuel : nat) w (delta minX minY maxX maxY : R)
    (st : option (list Dot * nat)) (i : nat) : option (list Dot * nat) :=
  match st with
  | None => None
  | Some (dots, k) =>
      match dots !! i with
      | None => Some (dots, k)
      | Some dot =>
          let '(dot1, k1) := update rs dot delta k in
          if bool_decide (aliveTimer dot1 <= 0) then
            let dot2 := resetAliveTimer dot1 in
            let dots2 := <[i := dot2]> dots in
            match getFreeSpotInPatch rs fuel w minX minY maxX maxY dots2 k1 with
            | None => None
            | Some (dotPosition, k2) =>
                Some (<[i := setPosition dot2 dotPosition.1 dotPosition.2]>
                        dots2, k2)
            end
          else Some (<[i := dot1]> dots, k1)
      end
  end.

(** One patch of a frame. *)
Definition updatePatch (fuel : nat) w (checkWall : Dot -> Dot)
    (delta minX minY maxX maxY : R) (q : QT) (dots : list Dot) (k : nat)
    : option (QT * list Dot * nat) :=
  let '(q1, dots1) :=
    fold_left (insertStep checkWall) (seq 0 (length dots)) (qt_clear q, dots) in
  let dots2 := fold_left (collisionStep q1) (seq 0 (length dots1)) dots1 in
  match fold_left (updateStep fuel w delta minX minY maxX maxY)
                  (seq 0 (length dots2)) (Some (dots2, k)) with
  | None => None
  | Some (dots3, k3) => Some (q1, dots3, k3)
  end.

(** [updateDots(delta)]. *)
Definition updateDots (fuel : nat) w (delta : R) : option (World QT) :=
  let w1 := set_runTime w (runTime w + delta) in
  if bool_decide (runTime w1 >= maxRunTime w1)
  then Some (set_currentState w1 PAUSED)
  else
    match updatePatch fuel w1 (checkWallCollisionLeftPatch w1) delta
            (leftMinX w1 + dotRadius w1) (patchMinY w1 + dotRadius w1)
            (leftMaxX w1 - dotRadius w1) (patchMaxY w1 - dotRadius w1)
            (quadTree w1) (dotsLeft w1) (draws w1) with
    | None => None
    | Some (q1, dl, k1) =>
        match updatePatch fuel w1 (checkWallCollisionRightPatch w1) delta
                (rightMinX w1 + dotRadius w1) (patchMinY w1 + dotRadius w1)
                (rightMaxX w1 - dotRadius w1) (patchMaxY w1 - dotRadius w1)
                q1 (dotsRight w1) k1 with
        | None => None
        | Some (q2, dr, k2) =>
            Some (set_draws
                    (set_quadTree (set_dotsRight (set_dotsLeft w1 dl) dr) q2)
                    k2)
        end
    end.

(** [paused()]: at the end of the run time the dots are destroyed and the
    arrays emptied. *)
Definition paused w : World QT :=
  if bool_decide (runTime w >= maxRunTime w)
  then set_dotsRight (set_dotsLeft (set_runTime w 0) []) []
  else w.

(** [reset()]; [createDots] is abstract in this class. *)
Definition reset {E : Type} (createDots : World QT -> E) w : E :=
  createDots (set_dotsRight (set_dotsLeft (set_runTime w 0) []) []).

(** [calculateMaxMin()]: here the right bound of the left patch starts
    from [leftMinX]. *)
Definition calculateMaxMin (patchLeft patchRight : Patch)
    (PATCH_OUTLINE_THICKNESS : R) w : World QT :=
  let leftMinX := patchX patchLeft + PATCH_OUTLINE_THICKNESS in
  let leftMaxX :=
    (leftMinX + patchWidth patchLeft) - 3 * PATCH_OUTLINE_THICKNESS in
  let patchMinY := patchY patchLeft + PATCH_OUTLINE_THICKNESS in
  let patchMaxY :=
    (patchY patchLeft + patchHeight patchLeft) - PATCH_OUTLINE_THICKNESS in
  let rightMinX := patchX patchRight + PATCH_OUTLINE_THICKNESS in
  let rightMaxX :=
    (patchX patchRight + patchWidth patchRight)
    - 3 * PATCH_OUTLINE_THICKNESS in
  set_bounds w leftMinX leftMaxX patchMinY patchMaxY rightMinX rightMaxX.
End Frame.
End AbstractMotionWorld2.

(** ** The tutorial-trial world *)

(** [Math.floor] and the remainder [a % b] of two numbers (the quotient
    truncated toward zero, so the sign of the result is that of [a]). *)
Definition Math_floor (r : R) : R := IZR (Zfloor r).

Definition Ztrunc (r : R) : Z :=
  if bool_decide (0 <= r) then Zfloor r else Zceil r.

Definition remainder (a b : R) : R := a - b * IZR (Ztrunc (a / b)).

Definition newline : string := String (Ascii.ascii_of_nat 10) EmptyString.

Definition cannotSpawnMessage : string :=
  ("Cannot spawn dots with the current settings." ++ newline ++
   "Either there are too many dots, too much dot spacing or too small patches."
   ++ newline ++
   "Try adjusting the total number of dots or the dot spacing.")%string.

(** The loop variables of [createDots] and [createNewTrial]. *)
Record SpawnState : Type := mkSpawnState {
  maxAliveTimeMultiplier : nat;
  numberOfCoherentDots : nat;
  spawnLeft : list Dot;
  spawnRight : list Dot;
  spawnDraws : nat
}.

Module MotionTutorialTrialWorld.
Section Methods.
Context {QT : Type}.
Variable rs : RandomSource.
(** [DirectionName i] is [Direction[i]], the name of the member of the
    enumeration whose value is [i]; the declaration is not in the source
    tree. *)
Variable DirectionName : nat -> string.
(** The constant [DOT_SPAWN_SEPARATION_DISTANCE_MULTIPLIER]
    (utils/Constants). *)
Variable DOT_SPAWN_SEPARATION_DISTANCE_MULTIPLIER : R.
Implicit Type w : World QT.

(** [createGridPoints(xMin, xMax, yMin, yMax, spacing)]; it reads one
    field of the world, [numberOfDots]. *)
Definition createGridPoints (numberOfDots : nat)
    (xMin xMax yMin yMax spacing : R) : Result (list Vec) :=
  let width := Math_floor (xMax - xMin) in
  let height := Math_floor (yMax - yMin) in
  let xOffset := remainder width spacing in
  let yOffset := remainder height spacing in
  let xLines := Zfloor ((width - xOffset) / spacing) in
  let yLines := Zfloor ((height - yOffset) / spacing) in
  if bool_decide (IZR xLines * IZR yLines < INR numberOfDots) then
    Throw (Error cannotSpawnMessage)
  else
    let startX := xMin + xOffset / 2 in
    let startY := yMin + yOffset / 2 in
    Ok (flat_map
          (fun i =>
             flat_map
               (fun j =>
                  let px := startX + sin (INR j) + INR i * spacing in
                  let py := startY + sin (INR i) + INR j * spacing in
                  if bool_decide (px <= xMax - xOffset / 2)
                     && bool_decide (px >= xMin + xOffset / 2)
                     && bool_decide (py <= yMax - yOffset / 2)
                     && bool_decide (py >= yMin + yOffset / 2)
                  then [(px, py)]
                  else [])
               (seq 0 (Z.to_nat yLines)))
          (seq 0 (Z.to_nat xLines))).

(** The test that makes a dot of patch [side] coherent. *)
Definition isCoherentSlot w (patchSide : string)
    (currentCoherencePercent : R) : bool :=
  String.eqb (coherentPatchSide w) patchSide
  && bool_decide (currentCoherencePercent < coherencePercent w).

(** One turn of the loop of [createDots]; [w] already has the new
    [coherentPatchSide].  [currentCoherencePercent] is the exact quotient
    here and a rounded one in the source, which can fall on the other side
    of [coherencePercent] when the two are equal up to rounding. *)
Definition createDotsStep w (coherentDirection : Direction)
    (shuffledLeftGridPoints shuffledRightGridPoints : list Vec)
    (st : SpawnState) (i : nat) : Result SpawnState :=
  let m :=
    if bool_decide (INR i = dotsToKill w * INR (maxAliveTimeMultiplier st))
    then S (maxAliveTimeMultiplier st)
    else maxAliveTimeMultiplier st in
  let currentCoherencePercent :=
    INR (numberOfCoherentDots st) / INR (numberOfDots w) * 100 in
  do dotPosition <- readIndex shuffledLeftGridPoints i;
  let '(dl, n1, k1) :=
    if isCoherentSlot w "LEFT" currentCoherencePercent then
      let '(dot, k) :=
        newDot rs dotPosition.1 dotPosition.2 (dotRadius w) coherentDirection
               (dotMaxAliveTime w * INR m) (spawnDraws st) in
      (spawnLeft st ++ [dot], S (numberOfCoherentDots st), k)
    else
      let '(dot, k) :=
        newDot rs dotPosition.1 dotPosition.2 (dotRadius w) RANDOM
               (dotMaxAliveTime w * INR m) (spawnDraws st) in
      (spawnLeft st ++ [dot], numberOfCoherentDots st, k) in
  do dotPosition <- readIndex shuffledRightGridPoints i;
  let '(dr, n2, k2) :=
    if isCoherentSlot w "RIGHT" currentCoherencePercent then
      let '(dot, k) :=
        newDot rs dotPosition.1 dotPosition.2 (dotRadius w) coherentDirection
               (dotMaxAliveTime w * INR m) k1 in
      (spawnRight st ++ [dot], S n1, k)
    else
      let '(dot, k) :=
        newDot rs dotPosition.1 dotPosition.2 (dotRadius w) RANDOM
               (dotMaxAliveTime w * INR m) k1 in
      (spawnRight st ++ [dot], n1, k) in
  Ok (mkSpawnState m n2 dl dr k2).

(** A [for (let i = 0; i < n; i++)] loop whose body may throw. *)
Definition forRange {S : Type} (n : nat) (body : S -> nat -> Result S)
    (init : S) : Result S :=
  fold_left (fun acc i => do st <- acc; body st i) (seq 0 n) (Ok init).

(** The head shared by [createDots] and [createNewTrial]: two shuffles,
    the coherent side, the coherent direction. *)
Definition rollTrial w : World QT * Direction * list Vec * list Vec * nat :=
  let k := draws w in
  let shuffledLeftGridPoints := randoSequence rs k (leftGridPoints w) in
  let shuffledRightGridPoints := randoSequence rs (k + 1) (rightGridPoints w) in
  let side :=
    if rando1 rs (k + 2) then DirectionName 0 else DirectionName 1 in
  let coherentDirection := if rando1 rs (k + 3) then RIGHT else LEFT in
  (set_coherentPatchSide w side, coherentDirection,
   shuffledLeftGridPoints, shuffledRightGridPoints, (k + 4)%nat).

(** [createDots()]. *)
Definition createDots w : Result (World QT) :=
  let '(w1, coherentDirection, shuffledLeft, shuffledRight, k) :=
    rollTrial w in
  do st <- forRange (numberOfDots w1)
             (createDotsStep w1 coherentDirection shuffledLeft shuffledRight)
             (mkSpawnState 1 0 (dotsLeft w1) (dotsRight w1) k);
  Ok (set_draws (set_dotsRight (set_dotsLeft w1 (spawnLeft st))
                               (spawnRight st))
                (spawnDraws st)).

(** The four calls that reassign a dot in [createNewTrial]. *)
Definition reassignDot (dot : Dot) (dotPosition : Vec) (dir : Direction)
    (aliveTime : R) (k : nat) : Dot * nat :=
  let d1 := setPosition dot dotPosition.1 dotPosition.2 in
  let d2 := setDirection d1 dir in
  let d3 := setTimers d2 aliveTime in
  resetVelocity rs d3 k.

(** One turn of the loop of [createNewTrial]; [currentCoherencePercent]
    as in [createDotsStep]. *)
Definition createNewTrialStep w (coherentDirection : Direction)
    (shuffledLeftGridPoints shuffledRightGridPoints : list Vec)
    (st : SpawnState) (i : nat) : Result SpawnState :=
  let m :=
    if bool_decide (INR i = dotsToKill w * INR (maxAliveTimeMultiplier st))
    then S (maxAliveTimeMultiplier st)
    else maxAliveTimeMultiplier st in
  let currentCoherencePercent :=
    INR (numberOfCoherentDots st) / INR (numberOfDots w) * 100 in
  do dotPosition <- readIndex shuffledLeftGridPoints i;
  do dot <- readIndex (spawnLeft st) i;
  let '(dl, n1, k1) :=
    if isCoherentSlot w "LEFT" currentCoherencePercent then
      let '(dot', k) :=
        reassignDot dot dotPosition coherentDirection
                    (dotMaxAliveTime w * INR m) (spawnDraws st) in
      (<[i := dot']> (spawnLeft st), S (numberOfCoherentDots st), k)
    else
      let '(dot', k) :=
        reassignDot dot dotPosition RANDOM
                    (dotMaxAliveTime w * INR m) (spawnDraws st) in
      (<[i := dot']> (spawnLeft st), numberOfCoherentDots st, k) in
  do dotPosition <- readIndex shuffledRightGridPoints i;
  do dot <- readIndex (spawnRight st) i;
  let '(dr, n2, k2) :=
    if isCoherentSlot w "RIGHT" currentCoherencePercent then
      let '(dot', k) :=
        reassignDot dot dotPosition coherentDirection
                    (dotMaxAliveTime w * INR m) k1 in
      (<[i := dot']> (spawnRight st), S n1, k)
    else
      let '(dot', k) :=
        reassignDot dot dotPosition RANDOM
                    (dotMaxAliveTime w * INR m) k1 in
      (<[i := dot']> (spawnRight st), n1, k) in
  Ok (mkSpawnState m n2 dl dr k2).

(** [createNewTrial()]. *)
Definition createNewTrial w : Result (World QT) :=
  let '(w1, coherentDirection, shuffledLeft, shuffledRight, k) :=
    rollTrial w in
  do st <- forRange (numberOfDots w1)
             (createNewTrialStep w1 coherentDirection
                                 shuffledLeft shuffledRight)
             (mkSpawnState 1 0 (dotsLeft w1) (dotsRight w1) k);
  Ok (set_draws (set_dotsRight (set_dotsLeft w1 (spawnLeft st))
                               (spawnRight st))
                (spawnDraws st)).

(** [reset()]. *)
Definition reset w : Result (World QT) :=
  createNewTrial (set_runTime w 0).

(** The constructor from the creation of the spawn lattices on; [w] is
    the world as the earlier steps of the constructor leave it (bounds
    computed, no dots). *)
Definition construct w : Result (World QT) :=
  let dotSpawnSeparationDistance := 2 * dotRadius w + dotSpacing w in
  do leftGridPoints <-
    createGridPoints (numberOfDots w)
      (leftMinX w + dotRadius w) (leftMaxX w - dotRadius w)
      (patchMinY w + dotRadius w) (patchMaxY w - dotRadius w)
      (DOT_SPAWN_SEPARATION_DISTANCE_MULTIPLIER * dotSpawnSeparationDistance);
  do rightGridPoints <-
    createGridPoints (numberOfDots w)
      (rightMinX w + dotRadius w) (rightMaxX w - dotRadius w)
      (patchMinY w + dotRadius w) (patchMaxY w - dotRadius w)
      (DOT_SPAWN_SEPARATION_DISTANCE_MULTIPLIER * dotSpawnSeparationDistance);
  createDots (set_gridPoints w leftGridPoints rightGridPoints).

(** [updateCoherency(factor, isCorrectAnswer)] on the field it reads and
    writes; the local [temp] is kept as in the source. *)
Definition updateCoherencyLevel (coherencePercent factor : R)
    (isCorrectAnswer : bool) : R :=
  let temp := coherencePercent * factor in
  if isCorrectAnswer then
    if bool_decide (factor > 1) then
      let temp := temp - coherencePercent in
      coherencePercent - temp
    else temp
  else
    let coherencePercent :=
      if bool_decide (factor > 1) then temp
      else
        let temp := temp - coherencePercent in
        coherencePercent - temp in
    if bool_decide (coherencePercent > 100) then 100 else coherencePercent.

Definition updateCoherency w (factor : R) (isCorrectAnswer : bool)
    : World QT :=
  set_coherencePercent w
    (updateCoherencyLevel (coherencePercent w) factor isCorrectAnswer).

(** [createPatches()]: the gap and the two patches, from the pixel sizes
    that [Psychophysics] returns and the screen center of [Settings]
    (neither is in the source tree). *)
Definition createPatches (patchGapInPixels patchWidthInPixels
    patchHeightInPixels screenXCenter screenYCenter : R)
    : R * Patch * Patch :=
  let patchGap := patchGapInPixels / (14 / 10) in
  let patchWidth := patchWidthInPixels / (14 / 10) in
  let patchHeight := patchHeightInPixels / (14 / 10) in
  let patchLeftX := screenXCenter - patchWidth - (patchGap / 2) in
  let patchRightX := screenXCenter + (patchGap / 2) in
  let patchY := screenYCenter - (patchHeight / 2) in
  (patchGap,
   mkPatch patchLeftX patchY patchWidth patchHeight,
   mkPatch patchRightX patchY patchWidth patchHeight).

(** The rectangle the constructor hands to [createQuadTree]. *)
Definition quadTreeBounds (patchLeft : Patch) (patchGap : R) : Patch :=
  mkPatch (patchX patchLeft) (patchY patchLeft)
          (patchWidth patchLeft * 2 + patchGap) (patchHeight patchLeft).

(** The world with the fields the class adds, and the two fields of the
    screen it reads. *)
Record TrialWorld : Type := mkTrialWorld {
  world : World QT;
  feedbackTimer : R;
  maxFeedbackTime : R;
  (** [tutorialTrialScreen.stepCounter] and [tutorialTrialScreen.maxSteps] *)
  stepCounter : nat;
  maxSteps : nat
}.

(** [feedback(delta)]. *)
Definition feedback (tw : TrialWorld) (delta : R) : Result TrialWorld :=
  let timer := feedbackTimer tw + delta in
  if bool_decide (timer >= maxFeedbackTime tw) then
    if bool_decide (stepCounter tw = maxSteps tw) then
      Ok (mkTrialWorld (set_currentState (world tw) FINISHED) 0
            (maxFeedbackTime tw) (stepCounter tw) (maxSteps tw))
    else
      do w' <- reset (world tw);
      Ok (mkTrialWorld (set_currentState w' RUNNING) 0
            (maxFeedbackTime tw) (stepCounter tw) (maxSteps tw))
  else
    Ok (mkTrialWorld (world tw) timer (maxFeedbackTime tw) (stepCounter tw)
          (maxSteps tw)).

(** [update(delta)]; in the [FINISHED] state only visibility and
    interactivity change, which are not modelled. *)
Definition update `{!SpatialIndex QT} (tw : TrialWorld) (delta : R)
    : Result TrialWorld :=
  match currentState (world tw) with
  | RUNNING =>
      Ok (mkTrialWorld (AbstractMotionWorld.updateDots rs (world tw) delta)
            (feedbackTimer tw) (maxFeedbackTime tw) (stepCounter tw)
            (maxSteps tw))
  | PAUSED =>
      Ok (mkTrialWorld (AbstractMotionWorld.paused (world tw))
            (feedbackTimer tw) (maxFeedbackTime tw) (stepCounter tw)
            (maxSteps tw))
  | TRIAL_CORRECT | TRIAL_INCORRECT => feedback tw delta
  | PATCH_SELECTED | FINISHED => Ok tw
  end.
End Methods.
End MotionTutorialTrialWorld.

(** ** The form world *)

Module FormWorld.
(** [updateCoherency(factor, isCorrectAnswer)] on the field it reads and
    writes, [coherencePercent]. *)
Definition updateCoherencyLevel (coherencePercent factor : R)
    (isCorrectAnswer : bool) : R :=
  let temp := coherencePercent * factor in
  if isCorrectAnswer then
    if bool_decide (factor > 1) then
      let temp := temp - coherencePercent in
      coherencePercent - temp
    else temp
  else
    if bool_decide (temp > 100) then 100 else temp.
End FormWorld.

(** ** Sequences of staircase updates *)

(** The two field variants. *)
Inductive Variant : Type :=
| MotionTutorialTrial
| Form.

Definition updateCoherencyOf (v : Variant) : R -> R -> bool -> R :=
  match v with
  | MotionTutorialTrial => MotionTutorialTrialWorld.updateCoherencyLevel
  | Form => FormWorld.updateCoherencyLevel
  end.

(** One [updateCoherency(factor, isCorrectAnswer)] call. *)
Record Call : Type := mkCall {
  factor : R;
  isCorrectAnswer : bool
}.

(** The coherence levels after each call of a sequence, in order. *)
Fixpoint levels (v : Variant) (c : R) (calls : list Call) : list R :=
  match calls with
  | [] => []
  | k :: rest =>
      let c' := updateCoherencyOf v c (factor k) (isCorrectAnswer k) in
      c' :: levels v c' rest
  end.

(** ** Vocabulary of the statements *)

(** The dot [d'] is the dot [d] pushed along the normal from the wall
    point [(wallX, wallY)] to its center by [radius - dist / 2], half of
    the overlap [2 * radius - dist] that [collideWithWall] computes, with
    the velocity component perpendicular to the wall inverted ([vertical]
    tells a left or right wall from a top or bottom one). *)
Definition pushedOffWall (d d' : Dot) (wallX wallY : R) (vertical : bool)
    : Prop :=
  let n := normalTo d wallX wallY in
  let dist := vecLength n in
  x d' = x d + (radius d - dist / 2) * (fst n / dist) /\
  y d' = y d + (radius d - dist / 2) * (snd n / dist) /\
  velocity d' =
    (if vertical then (- fst (velocity d), snd (velocity d))
     else (fst (velocity d), - snd (velocity d))) /\
  with_velocity (with_position d' (x d) (y d)) (velocity d) = d.

(** The wall point is off the center and not at twice the radius from
    it. *)
Definition wallInReach (d : Dot) (wallX wallY : R) : Prop :=
  let dist := vecLength (normalTo d wallX wallY) in
  dist <> 0 /\ dist <> 2 * radius d.

(** The wall a dot violates, as the wall checks find it: the first of
    left, right, top, bottom whose test holds, with the wall point handed
    to [collideWithWall] and whether the wall is vertical. *)
Definition violatedWall (minX maxX minY maxY : R) (d : Dot)
    : option (R * R * bool) :=
  if bool_decide (x d - radius d <= minX) then Some (minX, y d, true)
  else if bool_decide (x d + radius d >= maxX) then Some (maxX, y d, true)
  else if bool_decide (y d - radius d <= minY) then Some (x d, minY, false)
  else if bool_decide (y d + radius d >= maxY) then Some (x d, maxY, false)
  else None.

(** ** A reference spatial index and sample inputs *)

(** The index that keeps every reference in one cell: each query returns
    all inserted references, a superset of the true neighbours. *)
#[global] Instance ListIndex : SpatialIndex (list nat) := {|
  qt_clear _ := [];
  qt_insert q i _ := q ++ [i];
  qt_retrieve q out _ := out ++ q
|}.

(** A random source of constant draws that shuffles nothing. *)
Definition constantSource (r : R) (b : bool) : RandomSource :=
  mkRandomSource (fun _ => r) (fun _ => b) (fun _ l => l).

(** A world of two 100 x 100 patches, radius 5, spacing 2. *)
Definition sampleWorld (dl dr : list Dot) (n : nat) : World (list nat) :=
  mkWorld RUNNING dl dr 0 100 0 100 120 220 "LEFT" 50 1 n 2 5 1000 500 0
          [] [(10, 10); (30, 30)] [(130, 10); (150, 30)] 0.

Definition sampleDot (px py : R) (v : Vec) (random : bool) : Dot :=
  mkDot px py 5 (if random then RANDOM else RIGHT) 0 1000 1000 30 30 (2 / 10)
        v random.

(** The two dots of the scenario: radius 5, centers 8 apart on a
    horizontal line, velocities [(1,0)] and [(-1,0)]. *)
Definition scenarioDots (random1 random2 : bool) : list Dot :=
  [sampleDot 0 0 (1, 0) random1; sampleDot 8 0 (-1, 0) random2].

(** The point [getFreeSpotInPatch] tries when the cursor of the random
    source is at [c], and the point of its [n]-th retry when the search
    starts with the cursor at [k]. *)
Definition samplePoint (rs : RandomSource) (minX minY maxX maxY : R)
    (c : nat) : Vec :=
  (rando rs c * (maxX - minX) + minX, rando rs (S c) * (maxY - minY) + minY).

Definition attempt (rs : RandomSource) (minX minY maxX maxY : R)
    (k n : nat) : Vec :=
  samplePoint rs minX minY maxX maxY (k + 2 * n).

(** A point is clear of the dots when it is farther than
    [dotSpacing + 2 * dotRadius] from each of them. *)
Definition clearOf {QT : Type} (w : World QT) (p : Vec) (dots : list Dot)
    : Prop :=
  Forall (fun d => euclideanDistance p.1 p.2 (x d) (y d)
                   > dotSpacing w + 2 * dotRadius w) dots.

(** A dot in Random mode. *)
Definition inRandomMode (d : Dot) : Prop :=
  isRandom d = true /\ direction d = RANDOM.

(** Every dot of the patch that [coherentPatchSide] does not name is in
    Random mode. *)
Definition nonCoherentSideRandom {QT : Type} (w : World QT) : Prop :=
  (coherentPatchSide w <> "LEFT"%string -> Forall inRandomMode (dotsLeft w)) /\
  (coherentPatchSide w <> "RIGHT"%string -> Forall inRandomMode (dotsRight w)).

(** The reverse mapping of an enumeration that starts with [LEFT],
    [RIGHT]. *)
Definition sampleDirectionName (i : nat) : string :=
  match i with
  | O => "LEFT"
  | _ => "RIGHT"
  end.

(** The loop invariants of [createDots] and [createNewTrial] after [i]
    turns: the dots created, or the first [i] dots reassigned, are in
    Random mode on the side that is not the coherent one. *)
Definition createdSoFar {QT : Type} (w : World QT) (i : nat)
    (st : SpawnState) : Prop :=
  length (spawnLeft st) = i /\ length (spawnRight st) = i /\
  (coherentPatchSide w <> "LEFT"%string ->
   Forall inRandomMode (spawnLeft st)) /\
  (coherentPatchSide w <> "RIGHT"%string ->
   Forall inRandomMode (spawnRight st)).

Definition reassignedSoFar {QT : Type} (w : World QT) (n i : nat)
    (st : SpawnState) : Prop :=
  length (spawnLeft st) = n /\ length (spawnRight st) = n /\
  (coherentPatchSide w <> "LEFT"%string ->
   Forall inRandomMode (take i (spawnLeft st))) /\
  (coherentPatchSide w <> "RIGHT"%string ->
   Forall inRandomMode (take i (spawnRight st))).

(** ** Further vocabulary *)

(** What no method of the simulation changes in a dot once it is
    created: radius, direction, mode, maximum lifetime, heading periods,
    speed. *)
Definition dotIdentity (d : Dot)
    : R * Direction * bool * R * R * R * R :=
  (radius d, direction d, isRandom d, maxAliveTimer d, horMaxTime d,
   ranMaxTime d, speed d).

(** The two timers of a dot. *)
Definition dotTimers (d : Dot) : R * R := (directionTimer d, aliveTimer d).

(** The square of the speed of a dot. *)
Definition speedSquared (v : Vec) : R := fst v ^ 2 + snd v ^ 2.


(** A dot placed at [p] with direction [dir] and lifetime [t], as the
    constructor and the reassignment of a trial leave it. *)
Definition dotPlaced (d : Dot) (p : Vec) (dir : Direction) (t : R) : Prop :=
  x d = p.1 /\ y d = p.2 /\ direction d = dir /\
  isRandom d = Direction_eqb dir RANDOM /\
  aliveTimer d = t /\ maxAliveTimer d = t.

(** What a frame never changes in a world: bounds, trial settings,
    lattices. *)
Definition worldSetup {QT : Type} (w : World QT)
    : R * R * R * R * R * R * string * R * R * nat * R * R * R * R
      * list Vec * list Vec :=
  (leftMinX w, leftMaxX w, patchMinY w, patchMaxY w, rightMinX w,
   rightMaxX w, coherentPatchSide w, coherencePercent w, dotsToKill w,
   numberOfDots w, dotSpacing w, dotRadius w, dotMaxAliveTime w,
   maxRunTime w, leftGridPoints w, rightGridPoints w).



(** The lifetime multiplier of the spawn loops before turn [i], and the
    one turn [i] uses: it grows by one each time the counter equals
    [dotsToKill] times the multiplier. *)
Fixpoint multiplierBefore (dotsToKill : R) (i : nat) : nat :=
  match i with
  | O => 1
  | S i' =>
      let m := multiplierBefore dotsToKill i' in
      if bool_decide (INR i' = dotsToKill * INR m) then S m else m
  end.

Definition multiplierAt (dotsToKill : R) (i : nat) : nat :=
  multiplierBefore dotsToKill (S i).

(** The direction the spawn loops give to dot [i] of patch [side]: the
    coherent direction on the coherent side while the index is below the
    coherence percentage of the population, [RANDOM] otherwise. *)
Definition slotDirection {QT : Type} (w : World QT) (side : string)
    (coherentDirection : Direction) (i : nat) : Direction :=
  if String.eqb (coherentPatchSide w) side
     && bool_decide (INR i / INR (numberOfDots w) * 100 < coherencePercent w)
  then coherentDirection
  else RANDOM.

(** The state of a spawn loop after [i] turns over the shuffled lattices
    [sl] and [sr]: counters, and the first [i] dots of each patch. *)
Definition spawnedSoFar {QT : Type} (w : World QT)
    (coherentDirection : Direction) (sl sr : list Vec) (i : nat)
    (st : SpawnState) : Prop :=
  maxAliveTimeMultiplier st = multiplierBefore (dotsToKill w) i /\
  (numberOfCoherentDots st <= i)%nat /\
  ((coherentPatchSide w = "LEFT"%string \/ coherentPatchSide w = "RIGHT"%string) ->
   (numberOfCoherentDots st < i)%nat ->
   coherencePercent w
   <= INR (numberOfCoherentDots st) / INR (numberOfDots w) * 100) /\
  forall m : nat, (m < i)%nat ->
    exists (dl dr : Dot) (pl pr : Vec),
      spawnLeft st !! m = Some dl /\ spawnRight st !! m = Some dr /\
      sl !! m = Some pl /\ sr !! m = Some pr /\
      dotPlaced dl pl (slotDirection w "LEFT" coherentDirection m)
                (dotMaxAliveTime w * INR (multiplierAt (dotsToKill w) m)) /\
      dotPlaced dr pr (slotDirection w "RIGHT" coherentDirection m)
                (dotMaxAliveTime w * INR (multiplierAt (dotsToKill w) m)).

(** The first [n] dots of an array have lifetimes staggered in blocks of
    [kk] dots: dot [i] starts with, and is respawned with, the lifetime
    [dotMaxAliveTime * (1 + i / kk)]. *)
Definition lifetimesStaggered (dotMaxAliveTime : R) (kk : nat)
    (dots : list Dot) (n : nat) : Prop :=
  forall i : nat, (i < n)%nat ->
    exists d : Dot,
      dots !! i = Some d /\
      aliveTimer d = dotMaxAliveTime * INR (1 + i / kk) /\
      maxAliveTimer d = aliveTimer d.


(** ** The text button (objects/buttons/TextButton) *)

Module TextButton.

(** The calls the class makes on its [PIXI.Graphics], recorded in order. *)
Inductive GraphicsCall : Type :=
| clear
| lineStyle (width color : R)
| beginFill (color : R)
| drawRoundedRect (x y width height radius : R)
| endFill.

Inductive Filter : Type :=
| DropShadowFilter.

(** The [PIXI.Text] of the button: its string, its fill, its position, and
    the [alpha] the class assigns, if it has assigned one. *)
Record Text : Type := mkText {
  content : string;
  fill : R;
  textX : R;
  textY : R;
  alpha : option R
}.

(** The fields of a button that the class reads or writes. *)
Record Fields : Type := mkFields {
  button : list GraphicsCall;
  filters : list Filter;
  text : option Text;
  buttonWidth : R;
  buttonHeight : R;
  isMouseDown : bool;
  color : R;
  buttonTextColor : R;
  hoverColor : option R;
  disabled : bool;
  interactive : bool;
  buttonMode : bool;
  position : Vec
}.

Definition set_button (s : Fields) (calls : list GraphicsCall) : Fields :=
  mkFields calls (filters s) (text s) (buttonWidth s) (buttonHeight s)
           (isMouseDown s) (color s) (buttonTextColor s) (hoverColor s)
           (disabled s) (interactive s) (buttonMode s) (position s).

Definition set_filters (s : Fields) (fs : list Filter) : Fields :=
  mkFields (button s) fs (text s) (buttonWidth s) (buttonHeight s)
           (isMouseDown s) (color s) (buttonTextColor s) (hoverColor s)
           (disabled s) (interactive s) (buttonMode s) (position s).

Definition set_text (s : Fields) (t : option Text) : Fields :=
  mkFields (button s) (filters s) t (buttonWidth s) (buttonHeight s)
           (isMouseDown s) (color s) (buttonTextColor s) (hoverColor s)
           (disabled s) (interactive s) (buttonMode s) (position s).

Definition set_isMouseDown (s : Fields) (b : bool) : Fields :=
  mkFields (button s) (filters s) (text s) (buttonWidth s) (buttonHeight s)
           b (color s) (buttonTextColor s) (hoverColor s)
           (disabled s) (interactive s) (buttonMode s) (position s).

Definition set_clickable (s : Fields) (b : bool) : Fields :=
  mkFields (button s) (filters s) (text s) (buttonWidth s) (buttonHeight s)
           (isMouseDown s) (color s) (buttonTextColor s) (hoverColor s)
           (disabled s) b b (position s).

(** The events the class listens to, and the one field of an event that a
    listener reads: whether [e.target == null]. *)
Inductive EventName : Type :=
| mousedown
| mouseup
| mouseout
| mouseover
| mouseupoutside
| touchstart
| touchmove
| touchend.

#[global] Instance EventName_eq_dec : EqDecision EventName.
Proof. solve_decision. Defined.

Record Event : Type := mkEvent {
  targetIsNull : bool
}.

Definition Listener : Type := Event -> Fields -> Result Fields.

(** A button: its fields, and the listeners registered with [on], in the
    order of registration. *)
Record Object : Type := mkObject {
  fields : Fields;
  listeners : list (EventName * Listener)
}.

(** [emit(name, e)] of the event emitter: the listeners of [name] run in
    the order of registration; an exception of one ends the emit. *)
Definition emit (o : Object) (name : EventName) (e : Event) : Result Object :=
  do s <- fold_left
            (fun acc (l : EventName * Listener) =>
               do s <- acc;
               if bool_decide (l.1 = name) then l.2 e s else Ok s)
            (listeners o) (Ok (fields o));
  Ok (mkObject s (listeners o)).

(** Truthiness of an optional number and of an optional string. *)
Definition truthyNumber (n : option R) : bool :=
  match n with
  | Some c => bool_decide (c <> 0)
  | None => false
  end.

Definition truthyString (s : option string) : bool :=
  match s with
  | Some str => negb (String.eqb str "")
  | None => false
  end.

Section Methods.
(** The constants [TEXT_BUTTON_ROUNDING_RADIUS], [BUTTON_DISABLED_COLOR]
    and [BUTTON_DISABLED_STROKE_COLOR] (utils/Constants). *)
Variable TEXT_BUTTON_ROUNDING_RADIUS : R.
Variable BUTTON_DISABLED_COLOR : R.
Variable BUTTON_DISABLED_STROKE_COLOR : R.

(** [this.text.y += dy]; the read of [this.text.y] throws when the button
    has no text. *)
Definition shiftText (dy : R) (s : Fields) : Result Fields :=
  match text s with
  | Some t =>
      Ok (set_text s (Some (mkText (content t) (fill t) (textX t)
                                   (textY t + dy) (alpha t))))
  | None => Throw TypeError
  end.

Definition onClickTextOffset : R := 3.

(** The listeners registered when [buttonText] is truthy. *)
Definition press : Listener := fun _ s =>
  if negb (isMouseDown s) then
    do s1 <- shiftText onClickTextOffset s;
    Ok (set_isMouseDown s1 true)
  else Ok s.

Definition release : Listener := fun _ s =>
  if isMouseDown s then
    do s1 <- shiftText (- onClickTextOffset) s;
    Ok (set_isMouseDown s1 false)
  else Ok s.

Definition textListeners : list (EventName * Listener) :=
  [ (mousedown, press);
    (mouseup, release);
    (mouseout, fun _ s =>
       if isMouseDown s then shiftText (- onClickTextOffset) s else Ok s);
    (mouseover, fun _ s =>
       if isMouseDown s then shiftText onClickTextOffset s else Ok s);
    (mouseupoutside, fun _ s => Ok (set_isMouseDown s false));
    (touchstart, press);
    (touchmove, fun e s => if targetIsNull e then release e s else Ok s);
    (touchend, release) ].

(** The optional outline: [if (strokeColor) lineStyle(strokeWidth,
    strokeColor)]. *)
Definition outline (strokeColor : option R) (strokeWidth : R)
    : list GraphicsCall :=
  match strokeColor with
  | Some c => if bool_decide (c <> 0) then [lineStyle strokeWidth c] else []
  | None => []
  end.

(** The redraw of the hover listeners; the one of [touchend] does not
    call [endFill]. *)
Definition redraw (strokeColor : option R) (strokeWidth fillColor
    width height : R) (closed : bool) (s : Fields) : Fields :=
  set_button s
    (button s ++ [clear] ++ outline strokeColor strokeWidth
     ++ [beginFill fillColor;
         drawRoundedRect 0 0 width height TEXT_BUTTON_ROUNDING_RADIUS]
     ++ (if closed then [endFill] else [])).

(** The listeners registered when [hoverColor] is truthy. *)
Definition hoverListeners (strokeColor : option R) (strokeWidth color
    hoverColor width height : R) : list (EventName * Listener) :=
  [ (mouseover, fun _ s =>
       Ok (redraw strokeColor strokeWidth hoverColor width height true s));
    (mouseout, fun _ s =>
       Ok (redraw strokeColor strokeWidth color width height true s));
    (touchstart, fun _ s =>
       Ok (redraw strokeColor strokeWidth hoverColor width height true s));
    (touchmove, fun e s =>
       if targetIsNull e
       then Ok (redraw strokeColor strokeWidth color width height true s)
       else Ok s);
    (touchend, fun _ s =>
       Ok (redraw strokeColor strokeWidth color width height false s)) ].

(** The constructor; the defaults of [buttonTextColor], [disabled] and
    [strokeWidth] are applied by the caller. *)
Definition construct (x y width height color : R) (strokeColor : option R)
    (buttonText : option string) (buttonTextColor : R)
    (hoverColor : option R) (disabled : bool) (strokeWidth : R) : Object :=
  let calls :=
    outline strokeColor strokeWidth
    ++ [beginFill color;
        drawRoundedRect 0 0 width height TEXT_BUTTON_ROUNDING_RADIUS;
        endFill] in
  let textOfButton :=
    match buttonText with
    | Some str =>
        if truthyString buttonText
        then Some (mkText str buttonTextColor (width / 2) (height / 2) None)
        else None
    | None => None
    end in
  let hover :=
    match hoverColor with
    | Some c =>
        if truthyNumber hoverColor
        then hoverListeners strokeColor strokeWidth color c width height
        else []
    | None => []
    end in
  mkObject
    (mkFields calls [DropShadowFilter] textOfButton width height false color
              buttonTextColor
              (if truthyNumber hoverColor then hoverColor else None)
              disabled (negb disabled) (negb disabled)
              (x - width / 2, y - height / 2))
    ((if truthyString buttonText then textListeners else []) ++ hover).

(** [disable(withStroke, strokeWidth)]; the default of [strokeWidth] is
    applied by the caller. *)
Definition disable (withStroke : bool) (strokeWidth : R) (o : Object)
    : Result Object :=
  let s := fields o in
  match text s with
  | None => Throw TypeError
  | Some t =>
      let s1 :=
        set_text s (Some (mkText (content t) (fill t) (textX t) (textY t)
                                 (Some (1 / 2)))) in
      let s2 := set_clickable s1 false in
      let s3 :=
        set_button s2
          (button s2 ++ [clear]
           ++ (if withStroke
               then [lineStyle strokeWidth BUTTON_DISABLED_STROKE_COLOR]
               else [])
           ++ [beginFill BUTTON_DISABLED_COLOR;
               drawRoundedRect 0 0 (buttonWidth s2) (buttonHeight s2)
                               TEXT_BUTTON_ROUNDING_RADIUS;
               endFill]) in
      Ok (mkObject (set_filters s3 []) (listeners o))
  end.

End Methods.

(** A sequence of emits, stopped by the first exception. *)
Definition emitAll (o : Object) (events : list (EventName * Event))
    : Result Object :=
  fold_left (fun acc ev => do o' <- acc; emit o' ev.1 ev.2) events (Ok o).

(** The pointer gestures that start and end with the button released: a
    click, a press dragged out and released outside, a press dragged out
    and back, a tap, a touch that slides off the button, a touch that moves
    on it. *)
Definition completeGestures : list (list (EventName * Event)) :=
  let e := mkEvent false in
  let off := mkEvent true in
  [ [(mousedown, e); (mouseup, e)];
    [(mousedown, e); (mouseout, e); (mouseupoutside, e)];
    [(mousedown, e); (mouseout, e); (mouseover, e); (mouseup, e)];
    [(touchstart, e); (touchend, e)];
    [(touchstart, e); (touchmove, off)];
    [(touchstart, e); (touchmove, off); (touchend, e)];
    [(touchstart, e); (touchmove, e); (touchend, e)] ].

(** What the listeners leave alone. *)
Definition settings (s : Fields)
    : list Filter * R * R * R * R * option R * bool * bool * bool * Vec :=
  (filters s, buttonWidth s, buttonHeight s, color s, buttonTextColor s,
   hoverColor s, disabled s, interactive s, buttonMode s, position s).

End TextButton.

(** What holds of the fields [s] of a button built with [buttonText] and
    [hoverColor] whose fields were [s0] after construction: the settings
    are those of [s0]; the text is there exactly when [buttonText] is
    truthy, and without it the button is never pressed; without a truthy
    [hoverColor] the graphics calls are those of [s0]. *)
Definition asBuilt (buttonText : option string) (hoverColor : option R)
    (s0 s : TextButton.Fields) : Prop :=
  TextButton.settings s = TextButton.settings s0 /\
  (if TextButton.truthyString buttonText
   then is_Some (TextButton.text s)
   else TextButton.text s = None /\ TextButton.isMouseDown s = false) /\
  (TextButton.truthyNumber hoverColor = false ->
   TextButton.button s = TextButton.button s0).

(** What the listeners of a button with text do to the pair of its pressed
    flag and the height of its text, event by event. *)
Definition pointerStep (name : TextButton.EventName) (e : TextButton.Event)
    (p : bool * R) : bool * R :=
  match name with
  | TextButton.mousedown | TextButton.touchstart =>
      if p.1 then p else (true, p.2 + TextButton.onClickTextOffset)
  | TextButton.mouseup | TextButton.touchend =>
      if p.1 then (false, p.2 - TextButton.onClickTextOffset) else p
  | TextButton.mouseout =>
      if p.1 then (true, p.2 - TextButton.onClickTextOffset) else p
  | TextButton.mouseover =>
      if p.1 then (true, p.2 + TextButton.onClickTextOffset) else p
  | TextButton.mouseupoutside => (false, p.2)
  | TextButton.touchmove =>
      if TextButton.targetIsNull e
      then if p.1 then (false, p.2 - TextButton.onClickTextOffset) else p
      else p
  end.
(** * Properties *)

(** ** Staircase *)

Lemma updateCoherency_correct_le (v : Variant) (c f : R) :
  f <= 1 -> updateCoherencyOf v c f true = c * f.
Proof.
  intros Hf. destruct v; cbn;
    unfold MotionTutorialTrialWorld.updateCoherencyLevel,
           FormWorld.updateCoherencyLevel;
    cbn; case_bool_decide; lra.
Qed.

Lemma updateCoherency_correct_gt (v : Variant) (c f : R) :
  f > 1 -> updateCoherencyOf v c f true = c - (c * f - c).
Proof.
  intros Hf. destruct v; cbn;
    unfold MotionTutorialTrialWorld.updateCoherencyLevel,
           FormWorld.updateCoherencyLevel;
    cbn; case_bool_decide; lra.
Qed.

(** A call keeps the level inside [[0,100]] when its factor is positive
    and, on a correct answer, at most 2. *)
Lemma updateCoherency_step_bounds (v : Variant) (c f : R) (b : bool) :
  0 <= c <= 100 -> 0 < f -> (b = true -> f <= 2) ->
  0 <= updateCoherencyOf v c f b <= 100.
Proof.
  intros Hc Hf Hb.
  destruct v, b; cbn;
    unfold MotionTutorialTrialWorld.updateCoherencyLevel,
           FormWorld.updateCoherencyLevel; cbn;
    try (specialize (Hb eq_refl));
    repeat case_bool_decide; nra.
Qed.

(** C1 (as stated, refuted): from level 100, two correct answers with
    factor 4 lead to -200 and then to 400, above 100, in both variants. *)
Lemma C1_counterexample :
  0 <= 100 <= 100 /\
  Forall (fun k => factor k > 0) [mkCall 4 true; mkCall 4 true] /\
  levels MotionTutorialTrial 100 [mkCall 4 true; mkCall 4 true] = [-200; 400] /\
  levels Form 100 [mkCall 4 true; mkCall 4 true] = [-200; 400] /\
  400 > 100.
Proof.
  split; [lra|]. split; [repeat constructor; cbn; lra|].
  assert (H1 : forall v, updateCoherencyOf v 100 4 true = -200)
    by (intros v; rewrite updateCoherency_correct_gt; lra).
  assert (H2 : forall v, updateCoherencyOf v (-200) 4 true = 400)
    by (intros v; rewrite updateCoherency_correct_gt; lra).
  repeat split; try lra; cbn [levels factor isCorrectAnswer];
    rewrite H1, H2; reflexivity.
Qed.

(** C1 (amended): for every starting coherencePercent in [0,100] and every
    finite sequence of updateCoherency calls whose factors are positive
    and, on correct answers, at most 2, the coherencePercent after each
    call lies in [0,100], hence never exceeds 100, in both field
    variants. *)
Theorem C1_levels_never_exceed_100 (v : Variant) (c : R) (calls : list Call) :
  0 <= c <= 100 ->
  Forall (fun k => 0 < factor k /\ (isCorrectAnswer k = true -> factor k <= 2))
         calls ->
  Forall (fun l => 0 <= l <= 100) (levels v c calls).
Proof.
  intros Hc Hcalls. revert c Hc.
  induction Hcalls as [|k rest [Hpos Hcorrect] _ IH]; intros c Hc; cbn.
  - constructor.
  - pose proof (updateCoherency_step_bounds v c (factor k) (isCorrectAnswer k)
                  Hc Hpos Hcorrect) as Hstep.
    constructor; [exact Hstep | apply IH, Hstep].
Qed.

Lemma C1_levels_never_exceed_100_witness :
  Forall (fun l => 0 <= l <= 100)
         (levels MotionTutorialTrial 50
                 [mkCall (1/2) true; mkCall 3 false; mkCall 2 true]).
Proof.
  apply C1_levels_never_exceed_100; [lra|].
  repeat constructor; cbn; try lra; intros; try lra; discriminate.
Defined.

(** C2: for every coherencePercent c and factor f, updateCoherency(f, true)
    sets the level to c * f when f <= 1 and to c - (c*f - c) when f > 1, in
    both field variants; from 50, updateCoherency(0.5, true) yields 25. *)
Theorem C2_updateCoherency_correct_answer (v : Variant) (c f : R) :
  (f <= 1 -> updateCoherencyOf v c f true = c * f) /\
  (f > 1 -> updateCoherencyOf v c f true = c - (c * f - c)) /\
  updateCoherencyOf v 50 (1 / 2) true = 25.
Proof.
  split; [apply updateCoherency_correct_le|].
  split; [apply updateCoherency_correct_gt|].
  rewrite updateCoherency_correct_le; lra.
Qed.

Lemma C2_updateCoherency_correct_answer_witness :
  updateCoherencyOf MotionTutorialTrial 50 (1 / 2) true = 50 * (1 / 2) /\
  updateCoherencyOf Form 50 3 true = 50 - (50 * 3 - 50).
Proof.
  split.
  - apply (proj1 (C2_updateCoherency_correct_answer MotionTutorialTrial
                    50 (1 / 2))). lra.
  - apply (proj1 (proj2 (C2_updateCoherency_correct_answer Form 50 3))). lra.
Defined.

(** C3 (as stated, refuted): in the tutorial-trial world an incorrect
    answer with factor 1/2 takes the level from 50 to 75, not to
    50 * 1/2 = 25. *)
Lemma C3_counterexample :
  MotionTutorialTrialWorld.updateCoherencyLevel 50 (1 / 2) false = 75 /\
  75 <> Rmin (50 * (1 / 2)) 100.
Proof.
  split.
  - unfold MotionTutorialTrialWorld.updateCoherencyLevel.
    repeat case_bool_decide; lra.
  - unfold Rmin. destruct (Rle_dec _ _); lra.
Qed.

(** C3 (amended): for every coherencePercent c and factor f,
    updateCoherency(f, false) sets the level to c * f clamped to a maximum
    of 100 in FormWorld for every f and in MotionTutorialTrialWorld when
    f > 1; when f <= 1, MotionTutorialTrialWorld sets it to
    c - (c*f - c) clamped to a maximum of 100. *)
Theorem C3_updateCoherency_incorrect_answer (c f : R) :
  FormWorld.updateCoherencyLevel c f false = Rmin (c * f) 100 /\
  (f > 1 ->
   MotionTutorialTrialWorld.updateCoherencyLevel c f false
   = Rmin (c * f) 100) /\
  (f <= 1 ->
   MotionTutorialTrialWorld.updateCoherencyLevel c f false
   = Rmin (c - (c * f - c)) 100).
Proof.
  unfold FormWorld.updateCoherencyLevel,
         MotionTutorialTrialWorld.updateCoherencyLevel, Rmin.
  repeat split; intros; repeat case_bool_decide;
    destruct (Rle_dec _ _); lra.
Qed.

Lemma C3_updateCoherency_incorrect_answer_witness :
  MotionTutorialTrialWorld.updateCoherencyLevel 25 2 false = Rmin (25 * 2) 100 /\
  MotionTutorialTrialWorld.updateCoherencyLevel 50 (1 / 2) false
  = Rmin (50 - (50 * (1 / 2) - 50)) 100.
Proof.
  split.
  - apply (proj1 (proj2 (C3_updateCoherency_incorrect_answer 25 2))). lra.
  - apply (proj2 (proj2 (C3_updateCoherency_incorrect_answer 50 (1 / 2)))). lra.
Defined.

(** ** Wall collision *)

Lemma vecLength_horizontal (a b : R) : vecLength (a, b - b) = Rabs a.
Proof.
  unfold vecLength; cbn [fst snd].
  replace (a ^ 2 + (b - b) ^ 2) with (Rsqr a) by (unfold Rsqr; ring).
  apply sqrt_Rsqr_abs.
Qed.

Lemma vecLength_vertical (a b : R) : vecLength (a - a, b) = Rabs b.
Proof.
  unfold vecLength; cbn [fst snd].
  replace ((a - a) ^ 2 + b ^ 2) with (Rsqr b) by (unfold Rsqr; ring).
  apply sqrt_Rsqr_abs.
Qed.

(** A wall point level with the center: a left or right wall. *)
Lemma collideWithWall_vertical (d : Dot) (wallX : R) :
  wallInReach d wallX (y d) ->
  pushedOffWall d (collideWithWall d wallX (y d)) wallX (y d) true.
Proof.
  unfold wallInReach, pushedOffWall, collideWithWall, minimumTranslation,
    normalTo.
  rewrite vecLength_horizontal. cbn [fst snd].
  set (a := x d - wallX). intros [Hd0 Hd2].
  assert (Hne : a * ((2 * radius d - Rabs a) / Rabs a) <> 0).
  { intros Hz. apply Rmult_integral in Hz as [Hz|Hz].
    - apply Hd0. rewrite Hz. apply Rabs_R0.
    - unfold Rdiv in Hz. apply Rmult_integral in Hz as [Hz|Hz]; [lra|].
      apply (Rinv_neq_0_compat _ Hd0), Hz. }
  rewrite bool_decide_true by exact Hne.
  destruct d as [px py r dir dt at' mat hm rm sp [vx vy] rnd]; cbn in *.
  repeat split; (field; exact Hd0) || reflexivity.
Qed.

(** A wall point above or below the center: a top or bottom wall. *)
Lemma collideWithWall_horizontal (d : Dot) (wallY : R) :
  wallInReach d (x d) wallY ->
  pushedOffWall d (collideWithWall d (x d) wallY) (x d) wallY false.
Proof.
  unfold wallInReach, pushedOffWall, collideWithWall, minimumTranslation,
    normalTo.
  rewrite vecLength_vertical. cbn [fst snd].
  set (b := y d - wallY). intros [Hd0 Hd2].
  assert (Hz : (x d - x d) * ((2 * radius d - Rabs b) / Rabs b) = 0) by ring.
  rewrite bool_decide_false by (intros Hne; apply Hne, Hz).
  destruct d as [px py r dir dt at' mat hm rm sp [vx vy] rnd]; cbn in *.
  repeat split; (field; exact Hd0) || reflexivity.
Qed.

Lemma checkWall_pushedOffWall (minX maxX minY maxY : R) (d : Dot)
    (wallX wallY : R) (vertical : bool) :
  wallInReach d wallX wallY ->
  violatedWall minX maxX minY maxY d = Some (wallX, wallY, vertical) ->
  pushedOffWall d
    (if bool_decide (x d - radius d <= minX) then
       collideWithWall d minX (y d)
     else if bool_decide (x d + radius d >= maxX) then
       collideWithWall d maxX (y d)
     else if bool_decide (y d - radius d <= minY) then
       collideWithWall d (x d) minY
     else if bool_decide (y d + radius d >= maxY) then
       collideWithWall d (x d) maxY
     else d)
    wallX wallY vertical.
Proof.
  unfold violatedWall. intros Hreach Hwall.
  repeat case_bool_decide; inversion Hwall; subst;
    auto using collideWithWall_vertical, collideWithWall_horizontal.
Qed.

(** C4 (as stated, refuted): a dot of radius 5 centered 4 from the left
    wall penetrates it by 1; the resolution moves its center from 4 to 7,
    a push of 3, not of the penetration depth. *)
Lemma C4_counterexample :
  x (sampleDot 4 50 (-1, 2) true) - radius (sampleDot 4 50 (-1, 2) true)
    <= leftMinX (sampleWorld [] [] 0) /\
  x (checkWallCollisionLeftPatch (sampleWorld [] [] 0)
       (sampleDot 4 50 (-1, 2) true)) = 7 /\
  7 <> x (sampleDot 4 50 (-1, 2) true)
       + (radius (sampleDot 4 50 (-1, 2) true)
          - (x (sampleDot 4 50 (-1, 2) true)
             - leftMinX (sampleWorld [] [] 0))).
Proof.
  split; [cbn; lra|]. split; [|cbn; lra].
  unfold checkWallCollisionLeftPatch. cbn [leftMinX sampleWorld].
  rewrite bool_decide_true by (cbn; lra).
  assert (Hlen : vecLength (normalTo (sampleDot 4 50 (-1, 2) true) 0 50) = 4).
  { unfold normalTo; cbn [x y sampleDot].
    rewrite vecLength_horizontal, Rabs_pos_eq; lra. }
  destruct (collideWithWall_vertical (sampleDot 4 50 (-1, 2) true) 0) as [Hx _].
  { unfold wallInReach. cbn [y sampleDot] in *. rewrite Hlen. cbn. lra. }
  cbn [y sampleDot] in *. rewrite Hx, Hlen. cbn. lra.
Qed.

(** C4 (amended): for every dot that one of the wall tests of
    checkWallCollisionLeftPatch or checkWallCollisionRightPatch finds
    across a wall, with the wall point off its center and not at distance
    2*radius from it, collideWithWall pushes the dot along the normal from
    the violated wall point to the dot center by radius - dist/2, which is
    half of the overlap 2*radius - dist and not the penetration depth, and
    inverts exactly the velocity component perpendicular to that wall
    (x-velocity for left/right walls, y-velocity for top/bottom walls); the
    parallel component and every other field are unchanged. *)
Theorem C4_wall_collision_resolution {QT : Type} (w : World QT) (d : Dot)
    (wallX wallY : R) (vertical : bool) :
  wallInReach d wallX wallY ->
  (violatedWall (leftMinX w) (leftMaxX w) (patchMinY w) (patchMaxY w) d
   = Some (wallX, wallY, vertical) ->
   pushedOffWall d (checkWallCollisionLeftPatch w d) wallX wallY vertical) /\
  (violatedWall (rightMinX w) (rightMaxX w) (patchMinY w) (patchMaxY w) d
   = Some (wallX, wallY, vertical) ->
   pushedOffWall d (checkWallCollisionRightPatch w d) wallX wallY vertical).
Proof.
  intros Hreach. split; intros Hwall.
  - exact (checkWall_pushedOffWall _ _ _ _ d wallX wallY vertical Hreach Hwall).
  - exact (checkWall_pushedOffWall _ _ _ _ d wallX wallY vertical Hreach Hwall).
Qed.

Lemma C4_wall_collision_resolution_witness :
  pushedOffWall (sampleDot 4 50 (-1, 2) true)
    (checkWallCollisionLeftPatch (sampleWorld [] [] 0)
       (sampleDot 4 50 (-1, 2) true))
    0 50 true.
Proof.
  apply (C4_wall_collision_resolution (sampleWorld [] [] 0)
           (sampleDot 4 50 (-1, 2) true) 0 50 true).
  - unfold wallInReach, normalTo; cbn [x y radius sampleDot].
    rewrite vecLength_horizontal, Rabs_pos_eq; lra.
  - unfold violatedWall; cbn [leftMinX sampleWorld].
    rewrite bool_decide_true by (cbn; lra). reflexivity.
Defined.

(** ** Dot collision *)

Lemma vecLength_nonneg (n : Vec) : 0 <= vecLength n.
Proof. apply sqrt_pos. Qed.

Lemma vecLength_sqr (n : Vec) :
  vecLength n * vecLength n = fst n ^ 2 + snd n ^ 2.
Proof. unfold vecLength. apply sqrt_sqrt. nra. Qed.

(** The unit normal has length one when the centers differ. *)
Lemma unitNormal_unit (n : Vec) :
  vecLength n <> 0 ->
  fst (unitNormal n) ^ 2 + snd (unitNormal n) ^ 2 = 1.
Proof.
  intros Hd. pose proof (vecLength_sqr n) as Hs.
  unfold unitNormal; cbn [fst snd].
  replace ((fst n * 1 / vecLength n) ^ 2 + (snd n * 1 / vecLength n) ^ 2)
    with ((fst n ^ 2 + snd n ^ 2) / (vecLength n * vecLength n))
    by (field; exact Hd).
  rewrite <- Hs. field. exact Hd.
Qed.

Lemma project_normal_recompose (un : Vec) (vn vt : R) :
  fst un ^ 2 + snd un ^ 2 = 1 ->
  project un (recompose un (unitTangent un) vn vt) = vn.
Proof.
  intros Hu. unfold project, recompose, unitTangent; cbn [fst snd].
  transitivity ((fst un ^ 2 + snd un ^ 2) * vn); [ring | rewrite Hu; ring].
Qed.

Lemma project_tangent_recompose (un : Vec) (vn vt : R) :
  fst un ^ 2 + snd un ^ 2 = 1 ->
  project (unitTangent un) (recompose un (unitTangent un) vn vt) = vt.
Proof.
  intros Hu. unfold project, recompose, unitTangent; cbn [fst snd].
  transitivity ((fst un ^ 2 + snd un ^ 2) * vt); [ring | rewrite Hu; ring].
Qed.

(** The minimum translation has the length of the overlap. *)
Lemma minimumTranslation_length (d : Dot) (n : Vec) :
  0 < vecLength n <= 2 * radius d ->
  vecLength (minimumTranslation d n) = 2 * radius d - vecLength n.
Proof.
  intros [Hpos Hle]. pose proof (vecLength_sqr n) as Hs.
  unfold minimumTranslation. set (dist := vecLength n) in *.
  unfold vecLength at 1; cbn [fst snd].
  replace ((fst n * ((2 * radius d - dist) / dist)) ^ 2
           + (snd n * ((2 * radius d - dist) / dist)) ^ 2)
    with (Rsqr (2 * radius d - dist)).
  - rewrite sqrt_Rsqr; lra.
  - unfold Rsqr.
    replace ((fst n * ((2 * radius d - dist) / dist)) ^ 2
             + (snd n * ((2 * radius d - dist) / dist)) ^ 2)
      with ((fst n ^ 2 + snd n ^ 2)
            * ((2 * radius d - dist) * (2 * radius d - dist))
            / (dist * dist)) by (field; lra).
    rewrite <- Hs. field. lra.
Qed.

(** What [collideWithDot] does to the store when two distinct dots
    collide. *)
Lemma collideWithDot_colliding (dots : list Dot) (i j : nat) (d1 d2 : Dot) :
  i <> j -> dots !! i = Some d1 -> dots !! j = Some d2 ->
  vecLength (normalTo d1 (x d2) (y d2)) <= 2 * radius d1 ->
  collideWithDot i j dots =
    let mtd := minimumTranslation d1 (normalTo d1 (x d2) (y d2)) in
    if isRandom d1 && negb (isRandom d2) then
      <[i := with_velocity
               (with_position d1 (x d1 + fst mtd) (y d1 + snd mtd))
               (velocityOfThis d1 d2)]> dots
    else if negb (isRandom d1) && isRandom d2 then
      <[j := with_velocity
               (with_position d2 (x d2 - fst mtd) (y d2 - snd mtd))
               (velocityOfOther d1 d2)]> dots
    else
      <[j := with_velocity
               (with_position d2 (x d2 - fst mtd * 1 / 2)
                                 (y d2 - snd mtd * 1 / 2))
               (velocityOfOther d1 d2)]>
        (<[i := with_velocity
                  (with_position d1 (x d1 + fst mtd * 1 / 2)
                                    (y d1 + snd mtd * 1 / 2))
                  (velocityOfThis d1 d2)]> dots).
Proof.
  intros Hij Hi Hj Hle. unfold collideWithDot.
  rewrite bool_decide_false by congruence.
  rewrite Hi, Hj.
  rewrite bool_decide_false by lra. reflexivity.
Qed.

Lemma collideWithDot_self (dots : list Dot) (i : nat) :
  collideWithDot i i dots = dots.
Proof. unfold collideWithDot. rewrite bool_decide_true; reflexivity. Qed.

Lemma scenario_distance : vecLength (0 - 8, 0 - 0) = 8.
Proof.
  rewrite vecLength_horizontal, Rabs_left; lra.
Qed.

Lemma scenario_velocities :
  velocityOfThis (sampleDot 0 0 (1, 0) true) (sampleDot 8 0 (-1, 0) false)
  = (-1, 0) /\
  velocityOfOther (sampleDot 0 0 (1, 0) true) (sampleDot 8 0 (-1, 0) false)
  = (1, 0).
Proof.
  unfold velocityOfThis, velocityOfOther, unitNormal, unitTangent, project,
    recompose, normalTo; cbn [x y velocity sampleDot fst snd].
  rewrite scenario_distance. split; f_equal; field.
Qed.

(** The velocities and the unit normal do not depend on the modes. *)
Lemma scenario_velocities_any (r1 r2 : bool) :
  velocityOfThis (sampleDot 0 0 (1, 0) r1) (sampleDot 8 0 (-1, 0) r2)
  = (-1, 0) /\
  velocityOfOther (sampleDot 0 0 (1, 0) r1) (sampleDot 8 0 (-1, 0) r2)
  = (1, 0).
Proof. destruct r1, r2; exact scenario_velocities. Qed.

Lemma scenario_collides (r1 r2 : bool) :
  vecLength (normalTo (sampleDot 0 0 (1, 0) r1)
                      (x (sampleDot 8 0 (-1, 0) r2))
                      (y (sampleDot 8 0 (-1, 0) r2))) <= 2 * 5.
Proof.
  destruct r1, r2;
    (change (vecLength (0 - 8, 0 - 0) <= 2 * 5); rewrite scenario_distance;
     lra).
Qed.

(** C5 (as stated, refuted): a Random dot at (0,0) with velocity (1,0)
    and a Fixed dot at (8,0) with velocity (-1,0), both of radius 5, are
    distinct and 8 <= 10 apart, yet after the resolution the Fixed dot
    still has velocity (-1,0), not (1,0): its component along the normal
    is not the one the Random dot had. *)
Lemma C5_counterexample :
  vecLength (normalTo (sampleDot 0 0 (1, 0) true) 8 0) <= 5 + 5 /\
  velocity <$> collideWithDot 0 1 (scenarioDots true false)
  = [(-1, 0); (-1, 0)] /\
  (-1, 0) <> ((1, 0) : Vec).
Proof.
  split; [pose proof (scenario_collides true false) as H; cbn in *; lra|].
  split; [|intros H; inversion H; lra].
  rewrite (collideWithDot_colliding _ 0 1 (sampleDot 0 0 (1, 0) true)
             (sampleDot 8 0 (-1, 0) false));
    [|lia|reflexivity|reflexivity|exact (scenario_collides true false)].
  destruct scenario_velocities as [Hv _]. rewrite Hv. reflexivity.
Qed.

Lemma same_mode_branch (d1 d2 : Dot) :
  isRandom d1 = isRandom d2 ->
  isRandom d1 && negb (isRandom d2) = false /\
  negb (isRandom d1) && isRandom d2 = false.
Proof. intros ->. destruct (isRandom d2); split; reflexivity. Qed.

(** Two colliding dots of one mode: both are rewritten. *)
Lemma collideWithDot_same_mode (dots : list Dot) (i j : nat) (d1 d2 : Dot) :
  i <> j -> dots !! i = Some d1 -> dots !! j = Some d2 ->
  vecLength (normalTo d1 (x d2) (y d2)) <= 2 * radius d1 ->
  isRandom d1 = isRandom d2 ->
  let mtd := minimumTranslation d1 (normalTo d1 (x d2) (y d2)) in
  collideWithDot i j dots !! i
  = Some (with_velocity
            (with_position d1 (x d1 + fst mtd * 1 / 2) (y d1 + snd mtd * 1 / 2))
            (velocityOfThis d1 d2)) /\
  collideWithDot i j dots !! j
  = Some (with_velocity
            (with_position d2 (x d2 - fst mtd * 1 / 2) (y d2 - snd mtd * 1 / 2))
            (velocityOfOther d1 d2)).
Proof.
  intros Hij Hi Hj Hle Hmode mtd.
  rewrite (collideWithDot_colliding dots i j d1 d2 Hij Hi Hj Hle).
  destruct (same_mode_branch d1 d2 Hmode) as [-> ->]. cbv zeta.
  pose proof (lookup_lt_Some _ _ _ Hi) as Hli.
  pose proof (lookup_lt_Some _ _ _ Hj) as Hlj.
  split.
  - rewrite list_lookup_insert_ne by congruence.
    rewrite list_lookup_insert_eq by exact Hli. reflexivity.
  - rewrite list_lookup_insert_eq by (rewrite length_insert; exact Hlj).
    reflexivity.
Qed.

(** C5 (amended): for every pair of distinct dots of the same motion mode
    whose center distance is positive and at most twice the radius of the
    calling dot (the sum of the radii, all dots sharing one radius),
    collideWithDot exchanges the two velocity components along the
    center-to-center normal (v1n' = v2n, v2n' = v1n) and leaves both
    tangential components unchanged; concretely, two dots of the same mode
    and radius 5 at (0,0) and (8,0) with velocities (1,0) and (-1,0) end
    the resolution with velocities (-1,0) and (1,0). *)
Theorem C5_collideWithDot_exchanges_normal_components :
  (forall (dots : list Dot) (i j : nat) (d1 d2 : Dot),
     i <> j -> dots !! i = Some d1 -> dots !! j = Some d2 ->
     isRandom d1 = isRandom d2 ->
     0 < vecLength (normalTo d1 (x d2) (y d2)) <= 2 * radius d1 ->
     exists d1' d2',
       collideWithDot i j dots !! i = Some d1' /\
       collideWithDot i j dots !! j = Some d2' /\
       let un := unitNormal (normalTo d1 (x d2) (y d2)) in
       let ut := unitTangent un in
       project un (velocity d1') = project un (velocity d2) /\
       project un (velocity d2') = project un (velocity d1) /\
       project ut (velocity d1') = project ut (velocity d1) /\
       project ut (velocity d2') = project ut (velocity d2)) /\
  (forall random : bool,
     velocity <$> collideWithDot 0 1 (scenarioDots random random)
     = [(-1, 0); (1, 0)]).
Proof.
  split.
  - intros dots i j d1 d2 Hij Hi Hj Hmode [Hpos Hle].
    destruct (collideWithDot_same_mode dots i j d1 d2 Hij Hi Hj Hle Hmode)
      as [Hi' Hj'].
    eexists _, _. split; [exact Hi'|]. split; [exact Hj'|].
    assert (Hunit := unitNormal_unit (normalTo d1 (x d2) (y d2))
                       ltac:(lra)).
    cbn [velocity with_velocity]. unfold velocityOfThis, velocityOfOther.
    cbv zeta.
    rewrite !project_normal_recompose, !project_tangent_recompose
      by exact Hunit.
    repeat split.
  - intros random.
    rewrite (collideWithDot_colliding _ 0 1 (sampleDot 0 0 (1, 0) random)
               (sampleDot 8 0 (-1, 0) random));
      [|lia|reflexivity|reflexivity|exact (scenario_collides random random)].
    destruct (same_mode_branch (sampleDot 0 0 (1, 0) random)
                (sampleDot 8 0 (-1, 0) random) eq_refl) as [-> ->].
    destruct (scenario_velocities_any random random) as [-> ->].
    reflexivity.
Qed.

Lemma C5_collideWithDot_exchanges_normal_components_witness :
  exists d1' d2',
    collideWithDot 0 1 (scenarioDots true true) !! 0%nat = Some d1' /\
    collideWithDot 0 1 (scenarioDots true true) !! 1%nat = Some d2' /\
    let un := unitNormal (normalTo (sampleDot 0 0 (1, 0) true) 8 0) in
    let ut := unitTangent un in
    project un (velocity d1') = project un (-1, 0) /\
    project un (velocity d2') = project un (1, 0) /\
    project ut (velocity d1') = project ut (1, 0) /\
    project ut (velocity d2') = project ut (-1, 0).
Proof.
  apply (proj1 C5_collideWithDot_exchanges_normal_components
           (scenarioDots true true) 0%nat 1%nat
           (sampleDot 0 0 (1, 0) true) (sampleDot 8 0 (-1, 0) true)).
  - lia.
  - reflexivity.
  - reflexivity.
  - reflexivity.
  - change (0 < vecLength (0 - 8, 0 - 0) <= 2 * 5).
    rewrite scenario_distance. lra.
Defined.

(** With a unit normal, exchanging the normal scalars and keeping the
    tangential one adds to a velocity the difference of the two normal
    scalars along the normal. *)
Lemma recompose_exchange (un v v' : Vec) :
  fst un ^ 2 + snd un ^ 2 = 1 ->
  recompose un (unitTangent un) (project un v')
            (project (unitTangent un) v)
  = (fst v + (project un v' - project un v) * fst un,
     snd v + (project un v' - project un v) * snd un).
Proof.
  intros Hu. unfold recompose, project, unitTangent; cbn [fst snd]. f_equal.
  - transitivity ((fst un ^ 2 + snd un ^ 2) * fst v
                  + (fst un * fst v' + snd un * snd v'
                     - (fst un * fst v + snd un * snd v)) * fst un);
      [ring | rewrite Hu; ring].
  - transitivity ((fst un ^ 2 + snd un ^ 2) * snd v
                  + (fst un * fst v' + snd un * snd v'
                     - (fst un * fst v + snd un * snd v)) * snd un);
      [ring | rewrite Hu; ring].
Qed.

Lemma velocities_exchanged (d1 d2 : Dot) :
  0 < vecLength (normalTo d1 (x d2) (y d2)) ->
  let un := unitNormal (normalTo d1 (x d2) (y d2)) in
  let v1n := project un (velocity d1) in
  let v2n := project un (velocity d2) in
  velocityOfThis d1 d2
  = (fst (velocity d1) + (v2n - v1n) * fst un,
     snd (velocity d1) + (v2n - v1n) * snd un) /\
  velocityOfOther d1 d2
  = (fst (velocity d2) + (v1n - v2n) * fst un,
     snd (velocity d2) + (v1n - v2n) * snd un).
Proof.
  intros Hpos un v1n v2n.
  assert (Hunit := unitNormal_unit (normalTo d1 (x d2) (y d2)) ltac:(lra)).
  unfold velocityOfThis, velocityOfOther. cbv zeta. fold un.
  split; apply recompose_exchange; exact Hunit.
Qed.

(** C6: in dot-dot collision resolution at a positive center distance,
    when a Random-mode dot collides with a Fixed-mode dot, only the Random
    dot is displaced, by the full minimum translation, and only its
    velocity is updated, the Fixed dot being unchanged, whichever of the
    two is the caller; when both dots have the same mode, each is
    displaced by half of the minimum translation and both velocities are
    updated; an updated velocity is the old one plus, along the unit
    normal, the difference between the other dot's normal component and
    its own; the minimum translation has the length of the penetration;
    no third dot is touched; and a dot never resolves a collision with
    itself. *)
Theorem C6_collideWithDot_displacement_by_mode (dots : list Dot) (i j : nat)
    (d1 d2 : Dot) :
  i <> j -> dots !! i = Some d1 -> dots !! j = Some d2 ->
  0 < vecLength (normalTo d1 (x d2) (y d2)) <= 2 * radius d1 ->
  let n := normalTo d1 (x d2) (y d2) in
  let mtd := minimumTranslation d1 n in
  let un := unitNormal n in
  let v1n := project un (velocity d1) in
  let v2n := project un (velocity d2) in
  let v1' := (fst (velocity d1) + (v2n - v1n) * fst un,
              snd (velocity d1) + (v2n - v1n) * snd un) in
  let v2' := (fst (velocity d2) + (v1n - v2n) * fst un,
              snd (velocity d2) + (v1n - v2n) * snd un) in
  let dots' := collideWithDot i j dots in
  (isRandom d1 = true -> isRandom d2 = false ->
   dots' !! j = Some d2 /\
   dots' !! i
   = Some (with_velocity
             (with_position d1 (x d1 + fst mtd) (y d1 + snd mtd)) v1')) /\
  (isRandom d1 = false -> isRandom d2 = true ->
   dots' !! i = Some d1 /\
   dots' !! j
   = Some (with_velocity
             (with_position d2 (x d2 - fst mtd) (y d2 - snd mtd)) v2')) /\
  (isRandom d1 = isRandom d2 ->
   dots' !! i
   = Some (with_velocity
             (with_position d1 (x d1 + fst mtd * 1 / 2)
                               (y d1 + snd mtd * 1 / 2)) v1') /\
   dots' !! j
   = Some (with_velocity
             (with_position d2 (x d2 - fst mtd * 1 / 2)
                               (y d2 - snd mtd * 1 / 2)) v2')) /\
  vecLength mtd = 2 * radius d1 - vecLength n /\
  (forall k : nat, k <> i -> k <> j -> dots' !! k = dots !! k) /\
  collideWithDot i i dots = dots.
Proof.
  intros Hij Hi Hj [Hpos Hle] n mtd un v1n v2n v1' v2' dots'.
  pose proof (lookup_lt_Some _ _ _ Hi) as Hli.
  pose proof (lookup_lt_Some _ _ _ Hj) as Hlj.
  pose proof (collideWithDot_colliding dots i j d1 d2 Hij Hi Hj Hle) as Heq.
  cbv zeta in Heq. fold n mtd dots' in Heq.
  destruct (velocities_exchanged d1 d2 Hpos) as [Hv1 Hv2].
  cbv zeta in Hv1, Hv2. fold n un v1n v2n v1' v2' in Hv1, Hv2.
  rewrite Hv1, Hv2 in Heq.
  repeat apply conj.
  - intros H1 H2. rewrite Heq, H1, H2. cbn [andb negb]. split.
    + rewrite list_lookup_insert_ne by congruence. exact Hj.
    + rewrite list_lookup_insert_eq by exact Hli. reflexivity.
  - intros H1 H2. rewrite Heq, H1, H2. cbn [andb negb]. split.
    + rewrite list_lookup_insert_ne by congruence. exact Hi.
    + rewrite list_lookup_insert_eq by exact Hlj. reflexivity.
  - intros Hmode.
    destruct (collideWithDot_same_mode dots i j d1 d2 Hij Hi Hj Hle Hmode)
      as [Hi' Hj'].
    cbv zeta in Hi', Hj'. fold n mtd dots' in Hi', Hj'.
    rewrite Hv1 in Hi'. rewrite Hv2 in Hj'. split; assumption.
  - apply minimumTranslation_length. split; assumption.
  - intros k Hki Hkj. rewrite Heq.
    destruct (isRandom d1), (isRandom d2); cbn [andb negb];
      rewrite ?list_lookup_insert_ne by congruence; reflexivity.
  - apply collideWithDot_self.
Qed.

Lemma C6_collideWithDot_displacement_by_mode_witness :
  collideWithDot 0 1 (scenarioDots true false) !! 0%nat
  = Some (sampleDot (-2) 0 (-1, 0) true) /\
  collideWithDot 0 1 (scenarioDots true false) !! 1%nat
  = Some (sampleDot 8 0 (-1, 0) false) /\
  collideWithDot 0 0 (scenarioDots true false) = scenarioDots true false.
Proof.
  assert (Hdist : 0 < vecLength (normalTo (sampleDot 0 0 (1, 0) true)
                                   (x (sampleDot 8 0 (-1, 0) false))
                                   (y (sampleDot 8 0 (-1, 0) false)))
                  <= 2 * radius (sampleDot 0 0 (1, 0) true)).
  { change (0 < vecLength (0 - 8, 0 - 0) <= 2 * 5).
    rewrite scenario_distance. lra. }
  pose proof (C6_collideWithDot_displacement_by_mode
                (scenarioDots true false) 0%nat 1%nat
                (sampleDot 0 0 (1, 0) true) (sampleDot 8 0 (-1, 0) false)
                ltac:(lia) eq_refl eq_refl Hdist)
    as (Hmixed & _ & _ & _ & _ & Hself).
  destruct (Hmixed eq_refl eq_refl) as [Hfixed Hrandom].
  split; [|split; [exact Hfixed | exact Hself]].
  rewrite Hrandom. clear.
  unfold minimumTranslation, unitNormal, project, normalTo, with_velocity,
    with_position, sampleDot;
    cbn [x y radius direction directionTimer aliveTimer maxAliveTimer
         horMaxTime ranMaxTime speed velocity isRandom fst snd].
  rewrite scenario_distance. do 2 f_equal; try field. f_equal; field.
Defined.

(** ** Respawn by rejection sampling *)

Section FreeSpot.
Context {QT : Type}.
Variable rs : RandomSource.
Variable w : World QT.
Variables minX minY maxX maxY : R.
Variable dots : list Dot.

Lemma freeSpot_clearOf (px py : R) (ds : list Dot) :
  freeSpot w px py ds = true <-> clearOf w (px, py) ds.
Proof.
  unfold clearOf. induction ds as [|d ds IH]; cbn.
  - split; [constructor | reflexivity].
  - case_bool_decide as Hd.
    + split; [discriminate|]. intros Hall. inversion Hall; subst. lra.
    + rewrite IH. split.
      * intros Hall. constructor; [lra | exact Hall].
      * intros Hall. inversion Hall; assumption.
Qed.

Lemma getFreeSpotInPatch_step (fuel k : nat) :
  getFreeSpotInPatch rs (S fuel) w minX minY maxX maxY dots k =
    if negb (freeSpot w (samplePoint rs minX minY maxX maxY k).1
                        (samplePoint rs minX minY maxX maxY k).2 dots)
    then getFreeSpotInPatch rs fuel w minX minY maxX maxY dots (S (S k))
    else Some (samplePoint rs minX minY maxX maxY k, S (S k)).
Proof. reflexivity. Qed.

Lemma attempt_shift (k n : nat) :
  attempt rs minX minY maxX maxY (S (S k)) n
  = attempt rs minX minY maxX maxY k (S n).
Proof. unfold attempt. f_equal. lia. Qed.

Lemma attempt_first (k : nat) :
  attempt rs minX minY maxX maxY k 0 = samplePoint rs minX minY maxX maxY k.
Proof. unfold attempt. f_equal. lia. Qed.

(** The search returns the first accepted attempt, when its fuel covers
    it. *)
Lemma getFreeSpotInPatch_first_accepted (n : nat) :
  forall k fuel : nat,
    (forall m : nat, (m < n)%nat ->
       freeSpot w (attempt rs minX minY maxX maxY k m).1
                  (attempt rs minX minY maxX maxY k m).2 dots = false) ->
    freeSpot w (attempt rs minX minY maxX maxY k n).1
               (attempt rs minX minY maxX maxY k n).2 dots = true ->
    getFreeSpotInPatch rs fuel w minX minY maxX maxY dots k =
      if bool_decide (n < fuel)%nat
      then Some (attempt rs minX minY maxX maxY k n, (k + 2 * S n)%nat)
      else None.
Proof.
  induction n as [|n IH]; intros k fuel Hrej Hacc.
  - destruct fuel as [|fuel]; [reflexivity|].
    rewrite getFreeSpotInPatch_step, <- attempt_first, Hacc.
    rewrite bool_decide_true by lia. cbn [negb]. do 2 f_equal. lia.
  - destruct fuel as [|fuel]; [reflexivity|].
    rewrite getFreeSpotInPatch_step, <- attempt_first.
    rewrite (Hrej 0%nat) by lia. cbn [negb].
    rewrite (IH (S (S k)) fuel).
    + rewrite <- attempt_shift.
      destruct (decide (n < fuel)%nat).
      * rewrite !bool_decide_true by lia. do 2 f_equal. lia.
      * rewrite !bool_decide_false by lia. reflexivity.
    + intros m Hm. rewrite attempt_shift. apply Hrej. lia.
    + rewrite attempt_shift. exact Hacc.
Qed.

(** The search never returns when every attempt is rejected. *)
Lemma getFreeSpotInPatch_all_rejected (fuel : nat) :
  forall k : nat,
    (forall m : nat,
       freeSpot w (attempt rs minX minY maxX maxY k m).1
                  (attempt rs minX minY maxX maxY k m).2 dots = false) ->
    getFreeSpotInPatch rs fuel w minX minY maxX maxY dots k = None.
Proof.
  induction fuel as [|fuel IH]; intros k Hrej; [reflexivity|].
  rewrite getFreeSpotInPatch_step, <- attempt_first, (Hrej 0%nat).
  cbn [negb]. apply IH. intros m. rewrite attempt_shift. apply Hrej.
Qed.

(** A returned point is clear of the dots. *)
Lemma getFreeSpotInPatch_clear (fuel : nat) :
  forall (k k' : nat) (p : Vec),
    getFreeSpotInPatch rs fuel w minX minY maxX maxY dots k = Some (p, k') ->
    clearOf w p dots.
Proof.
  induction fuel as [|fuel IH]; intros k k' p; [discriminate|].
  rewrite getFreeSpotInPatch_step.
  destruct (freeSpot w _ _ dots) eqn:Hfree; cbn [negb].
  - intros [= <- <-]. apply freeSpot_clearOf in Hfree. exact Hfree.
  - apply IH.
Qed.
End FreeSpot.

(** A dot at the center of a 10 x 10 area blocks the whole area. *)
Lemma crowded_patch_rejects (px py : R) :
  0 <= px <= 10 -> 0 <= py <= 10 ->
  freeSpot (sampleWorld [] [] 1) px py [sampleDot 5 5 (0, 0) true] = false.
Proof.
  intros Hx Hy. cbn [freeSpot]. rewrite bool_decide_true; [reflexivity|].
  cbn [x y sampleDot dotSpacing dotRadius sampleWorld].
  unfold euclideanDistance.
  replace (2 + 2 * 5) with (sqrt (12 * 12)) by (rewrite sqrt_square; lra).
  apply sqrt_le_1_alt. nra.
Qed.

(** In that area the search is still running after every number of
    attempts, whatever the random source draws in [0,1). *)
Lemma crowded_patch_never_returns (rs : RandomSource) (fuel k : nat) :
  (forall c : nat, 0 <= rando rs c < 1) ->
  getFreeSpotInPatch rs fuel (sampleWorld [] [] 1) 0 0 10 10
                     [sampleDot 5 5 (0, 0) true] k = None.
Proof.
  intros Hrange. apply getFreeSpotInPatch_all_rejected.
  intros m. apply crowded_patch_rejects; unfold attempt, samplePoint; cbn.
  - pose proof (Hrange (k + (m + (m + 0)))%nat). nra.
  - pose proof (Hrange (S (k + (m + (m + 0))))%nat). nra.
Qed.

(** C7 (as stated, refuted): with one dot of radius 5 at the center of a
    10 x 10 area and spacing 2, no point of the area is free; no number of
    attempts makes the search return, and the function has no error
    outcome. *)
Lemma C7_counterexample :
  ~ exists (fuel : nat) (result : Vec * nat),
      getFreeSpotInPatch (constantSource (1 / 2) true) fuel
                         (sampleWorld [] [] 1) 0 0 10 10
                         [sampleDot 5 5 (0, 0) true] 0 = Some result.
Proof.
  intros (fuel & result & Hrun).
  rewrite crowded_patch_never_returns in Hrun; [discriminate|].
  intros c. cbn. lra.
Qed.

(** C7 (amended): the rejection-sampling respawn (getFreeSpotInPatch,
    which retries random points until freeSpot accepts one farther than
    2*radius + spacing from every dot in the population) has no bound on
    its attempts and no error outcome: it returns the first point of the
    random stream that freeSpot accepts, after exactly as many attempts as
    that takes, and the returned point is clear of every dot; when no point
    of the stream is accepted it does not terminate. *)
Theorem C7_getFreeSpotInPatch_first_accepted {QT : Type} (rs : RandomSource)
    (w : World QT) (minX minY maxX maxY : R) (dots : list Dot) (k : nat) :
  (forall n : nat,
     (forall m : nat, (m < n)%nat ->
        freeSpot w (attempt rs minX minY maxX maxY k m).1
                   (attempt rs minX minY maxX maxY k m).2 dots = false) ->
     freeSpot w (attempt rs minX minY maxX maxY k n).1
                (attempt rs minX minY maxX maxY k n).2 dots = true ->
     clearOf w (attempt rs minX minY maxX maxY k n) dots /\
     forall fuel : nat,
       getFreeSpotInPatch rs fuel w minX minY maxX maxY dots k =
         if bool_decide (n < fuel)%nat
         then Some (attempt rs minX minY maxX maxY k n, (k + 2 * S n)%nat)
         else None) /\
  ((forall m : nat,
      freeSpot w (attempt rs minX minY maxX maxY k m).1
                 (attempt rs minX minY maxX maxY k m).2 dots = false) ->
   forall fuel : nat,
     getFreeSpotInPatch rs fuel w minX minY maxX maxY dots k = None).
Proof.
  split.
  - intros n Hrej Hacc. split.
    + apply freeSpot_clearOf in Hacc. exact Hacc.
    + intros fuel. apply getFreeSpotInPatch_first_accepted; assumption.
  - intros Hrej fuel. apply getFreeSpotInPatch_all_rejected. exact Hrej.
Qed.

Lemma far_point_accepted :
  freeSpot (sampleWorld [] [] 1) 50 50 [sampleDot 5 5 (0, 0) true] = true.
Proof.
  cbn [freeSpot]. rewrite bool_decide_false; [reflexivity|].
  cbn [x y sampleDot dotSpacing dotRadius sampleWorld].
  unfold euclideanDistance. intros Hle.
  assert (Hs := sqrt_sqrt ((50 - 5) ^ 2 + (50 - 5) ^ 2) ltac:(nra)).
  assert (Hp := sqrt_pos ((50 - 5) ^ 2 + (50 - 5) ^ 2)).
  nra.
Qed.

Lemma C7_getFreeSpotInPatch_first_accepted_witness :
  getFreeSpotInPatch (constantSource (1 / 2) true) 1 (sampleWorld [] [] 1)
                     0 0 100 100 [sampleDot 5 5 (0, 0) true] 0
  = Some (attempt (constantSource (1 / 2) true) 0 0 100 100 0 0, 2%nat).
Proof.
  refine (proj2 (proj1 (C7_getFreeSpotInPatch_first_accepted
                          (constantSource (1 / 2) true) (sampleWorld [] [] 1)
                          0 0 100 100 [sampleDot 5 5 (0, 0) true] 0)
                       0%nat _ _) 1%nat).
  - intros m Hm. lia.
  - unfold attempt, samplePoint; cbn [rando constantSource fst snd].
    replace (1 / 2 * (100 - 0) + 0) with 50 by lra.
    exact far_point_accepted.
Defined.

(** ** The spawn lattice *)

Lemma Math_floor_IZR (z : Z) : Math_floor (IZR z) = IZR z.
Proof. unfold Math_floor. rewrite ZfloorZ. reflexivity. Qed.

Lemma Zceil_IZR (z : Z) : Zceil (IZR z) = z.
Proof. unfold Zceil. rewrite ZfloorNZ. lia. Qed.

Lemma Ztrunc_IZR (z : Z) : Ztrunc (IZR z) = z.
Proof.
  unfold Ztrunc. case_bool_decide; [apply ZfloorZ | apply Zceil_IZR].
Qed.

Lemma remainder_unit (z : Z) : remainder (IZR z) 1 = 0.
Proof.
  unfold remainder. replace (IZR z / 1) with (IZR z) by field.
  rewrite Ztrunc_IZR. ring.
Qed.

Lemma sin_5_negative : sin 5 < 0.
Proof.
  pose proof PI_4. pose proof PI2_3_2.
  apply sin_lt_0; lra.
Qed.

(** The guard of the lattice: fewer cells than dots is an error, and the
    constructor passes the error on instead of building the world. *)
Lemma construct_rejects_small_lattice {QT : Type} (rs : RandomSource)
    (DirectionName : nat -> string) (multiplier : R) (w : World QT)
    (e : Exception) :
  MotionTutorialTrialWorld.createGridPoints (numberOfDots w)
    (leftMinX w + dotRadius w) (leftMaxX w - dotRadius w)
    (patchMinY w + dotRadius w) (patchMaxY w - dotRadius w)
    (multiplier * (2 * dotRadius w + dotSpacing w)) = Throw e ->
  MotionTutorialTrialWorld.construct rs DirectionName multiplier w = Throw e.
Proof.
  intros Hthrow. unfold MotionTutorialTrialWorld.construct.
  rewrite Hthrow. reflexivity.
Qed.

(** C8 (the code falls short of it): with numberOfDots = 6,
    createGridPoints(0, 1, 0, 6, 1) counts 1 x 6 = 6 lattice cells, so it
    does not throw, but the jitter sin(5) < 0 puts the point of cell
    (0, 5) left of the area and the bounds filter drops it: the list
    returned has fewer than 6 points. *)
Theorem C8_createGridPoints_returns_too_few_points :
  exists l : list Vec,
    MotionTutorialTrialWorld.createGridPoints 6 0 1 0 6 1 = Ok l /\
    (length l < 6)%nat.
Proof.
  unfold MotionTutorialTrialWorld.createGridPoints.
  replace (1 - 0) with 1 by lra. replace (6 - 0) with 6 by lra.
  rewrite !Math_floor_IZR, !remainder_unit.
  replace ((1 - 0) / 1) with 1 by field.
  replace ((6 - 0) / 1) with 6 by field.
  rewrite !ZfloorZ.
  rewrite bool_decide_false by (cbn; lra).
  change (Z.to_nat 6) with 6%nat. change (Z.to_nat 1) with 1%nat.
  cbn [seq flat_map app].
  eexists. split; [reflexivity|].
  rewrite app_nil_r, !length_app.
  assert (H5 : bool_decide (0 + 0 / 2 + sin (INR 5) + INR 0 * 1 >= 0 + 0 / 2)
               = false).
  { apply bool_decide_false. pose proof sin_5_negative.
    replace (INR 5) with 5 by (cbn; lra). cbn [INR]. lra. }
  rewrite H5, andb_false_r. cbn [andb length].
  repeat match goal with
         | |- context [if ?c then _ else _] => destruct c
         end; cbn [length]; lia.
Qed.

(** ** The frame update *)

(** Below the maximum run time the frame is played: the state stays and
    the run time advances. *)
Lemma updateDots_below_max_run_time {QT : Type} `{!SpatialIndex QT}
    (rs : RandomSource) (w : World QT) (delta : R) :
  runTime w + delta < maxRunTime w ->
  currentState (AbstractMotionWorld.updateDots rs w delta) = currentState w /\
  runTime (AbstractMotionWorld.updateDots rs w delta) = runTime w + delta.
Proof.
  intros Hlt. unfold AbstractMotionWorld.updateDots.
  rewrite bool_decide_false by (cbn; lra).
  destruct (AbstractMotionWorld.updatePatch _ _ _ _ _ _ _ (quadTree _) _ _)
    as [[q1 dl] k1].
  destruct (AbstractMotionWorld.updatePatch _ _ _ _ _ _ _ q1 _ _)
    as [[q2 dr] k2].
  split; reflexivity.
Qed.

(** A frame below the maximum run time does move the dots: a Fixed dot
    away from every wall, alone in its patch, coasts along its velocity. *)
Lemma update_coasting (rs : RandomSource) (d : Dot) (delta : R) (k : nat) :
  isRandom d = false -> directionTimer d + delta < horMaxTime d ->
  update rs d delta k
  = (updatePosition
       (with_aliveTimer (with_directionTimer d (directionTimer d + delta))
                        (aliveTimer d - delta)) delta, k).
Proof.
  intros Hfixed Htimer. unfold update.
  cbn [isRandom directionTimer horMaxTime aliveTimer with_aliveTimer
       with_directionTimer].
  rewrite Hfixed. cbn [negb andb].
  rewrite bool_decide_false by lra. cbn [isRandom with_aliveTimer
       with_directionTimer]. rewrite Hfixed. reflexivity.
Qed.

Lemma updatePatch_single_fixed_dot (rs : RandomSource) (checkWall : Dot -> Dot)
    (delta xMin yMin xMax yMax : R) (q : list nat) (d : Dot) (k : nat) :
  isRandom d = false -> directionTimer d + delta < horMaxTime d ->
  aliveTimer d - delta > 0 ->
  AbstractMotionWorld.updatePatch rs checkWall delta xMin yMin xMax yMax q
    [d] k
  = ([0%nat],
     [updatePosition
        (with_aliveTimer (with_directionTimer d (directionTimer d + delta))
                         (aliveTimer d - delta)) delta], k).
Proof.
  intros Hfixed Htimer Halive.
  unfold AbstractMotionWorld.updatePatch, AbstractMotionWorld.insertDots,
    AbstractMotionWorld.collisionStep.
  cbn [length seq fold_left imap lookup list_lookup qt_clear qt_insert
       qt_retrieve ListIndex app fst snd].
  rewrite Hfixed.
  cbn [insert list_insert collideWithCandidates fold_left app qt_retrieve
       ListIndex].
  rewrite collideWithDot_self.
  cbn [length seq fold_left]. unfold AbstractMotionWorld.updateStep.
  cbn [fst snd lookup list_lookup].
  rewrite (update_coasting rs d delta k Hfixed Htimer).
  rewrite bool_decide_false by (cbn; lra). reflexivity.
Qed.

Lemma updatePatch_empty (rs : RandomSource) (checkWall : Dot -> Dot)
    (delta xMin yMin xMax yMax : R) (q : list nat) (k : nat) :
  AbstractMotionWorld.updatePatch rs checkWall delta xMin yMin xMax yMax q
    [] k
  = ([], [], k).
Proof. reflexivity. Qed.

Lemma updateDots_moves_a_fixed_dot :
  dotsLeft (AbstractMotionWorld.updateDots (constantSource (1 / 2) true)
              (sampleWorld [sampleDot 50 50 (1, 0) false] [] 1) 1)
  = [updatePosition
       (with_aliveTimer
          (with_directionTimer (sampleDot 50 50 (1, 0) false) (0 + 1))
          (1000 - 1)) 1] /\
  50 + 1 * 1 <> 50.
Proof.
  split; [|lra].
  unfold AbstractMotionWorld.updateDots.
  rewrite bool_decide_false by (cbn; lra).
  cbn [dotsLeft dotsRight quadTree draws set_runTime sampleWorld].
  rewrite updatePatch_single_fixed_dot by (cbn; lra || reflexivity).
  rewrite updatePatch_empty. reflexivity.
Qed.

(** C9: for every call updateDots(delta) in which the accumulated run time
    plus delta reaches the configured maximum run time, the world state is
    set to PAUSED and the call returns at once: the dots of both patches
    (positions, velocities, timers), the spatial index and the random
    source are as before; only the run time has advanced.  This holds in
    both revisions of the abstract world, and in the second one whatever
    the bound on the free-spot search. *)
Theorem C9_updateDots_pauses_at_max_run_time {QT : Type} `{!SpatialIndex QT}
    (rs : RandomSource) (w : World QT) (delta : R) (fuel : nat) :
  runTime w + delta >= maxRunTime w ->
  AbstractMotionWorld.updateDots rs w delta
  = set_currentState (set_runTime w (runTime w + delta)) PAUSED /\
  AbstractMotionWorld2.updateDots rs fuel w delta
  = Some (set_currentState (set_runTime w (runTime w + delta)) PAUSED) /\
  currentState (AbstractMotionWorld.updateDots rs w delta) = PAUSED /\
  dotsLeft (AbstractMotionWorld.updateDots rs w delta) = dotsLeft w /\
  dotsRight (AbstractMotionWorld.updateDots rs w delta) = dotsRight w /\
  quadTree (AbstractMotionWorld.updateDots rs w delta) = quadTree w /\
  draws (AbstractMotionWorld.updateDots rs w delta) = draws w.
Proof.
  intros Hmax.
  assert (H1 : AbstractMotionWorld.updateDots rs w delta
               = set_currentState (set_runTime w (runTime w + delta)) PAUSED).
  { unfold AbstractMotionWorld.updateDots.
    rewrite bool_decide_true by exact Hmax. reflexivity. }
  rewrite H1. repeat split.
  unfold AbstractMotionWorld2.updateDots.
  rewrite bool_decide_true by exact Hmax. reflexivity.
Qed.

Lemma C9_updateDots_pauses_at_max_run_time_witness :
  AbstractMotionWorld.updateDots (constantSource (1 / 2) true)
    (sampleWorld (scenarioDots true false) [] 2) 500
  = set_currentState
      (set_runTime (sampleWorld (scenarioDots true false) [] 2) (0 + 500))
      PAUSED.
Proof.
  apply (C9_updateDots_pauses_at_max_run_time (constantSource (1 / 2) true)
           (sampleWorld (scenarioDots true false) [] 2) 500 0).
  cbn. lra.
Defined.

(** ** Dot creation and trial reset *)

Section Trials.
Context {QT : Type}.
Variable rs : RandomSource.
Variable DirectionName : nat -> string.

Lemma initVelocity_RANDOM (d : Dot) (k : nat) :
  direction d = RANDOM -> inRandomMode (initVelocity rs d k).1.
Proof.
  intros Hd. unfold initVelocity. rewrite Hd. cbn. split; [reflexivity|].
  exact Hd.
Qed.

Lemma newDot_RANDOM (px py r t : R) (k : nat) :
  inRandomMode (newDot rs px py r RANDOM t k).1.
Proof. unfold newDot. apply initVelocity_RANDOM. reflexivity. Qed.

Lemma reassignDot_RANDOM (dot : Dot) (p : Vec) (t : R) (k : nat) :
  inRandomMode (MotionTutorialTrialWorld.reassignDot rs dot p RANDOM t k).1.
Proof.
  unfold MotionTutorialTrialWorld.reassignDot, resetVelocity.
  apply initVelocity_RANDOM. reflexivity.
Qed.

Lemma isCoherentSlot_side (w : World QT) (side : string) (c : R) :
  coherentPatchSide w <> side ->
  MotionTutorialTrialWorld.isCoherentSlot w side c = false.
Proof.
  intros Hne. unfold MotionTutorialTrialWorld.isCoherentSlot.
  destruct (String.eqb_spec (coherentPatchSide w) side); [contradiction|].
  reflexivity.
Qed.

Lemma forRange_S {S : Type} (n : nat) (body : S -> nat -> Result S)
    (init : S) :
  MotionTutorialTrialWorld.forRange (Datatypes.S n) body init
  = do st <- MotionTutorialTrialWorld.forRange n body init; body st n.
Proof.
  unfold MotionTutorialTrialWorld.forRange.
  rewrite seq_S, fold_left_app. reflexivity.
Qed.

(** A loop whose body keeps an invariant indexed by the counter, and does
    not throw under it, returns a state satisfying it at the bound. *)
Lemma forRange_invariant {S : Type} (I : nat -> S -> Prop) (n : nat)
    (body : S -> nat -> Result S) (init : S) :
  I 0%nat init ->
  (forall (i : nat) (st : S), (i < n)%nat -> I i st ->
     exists st', body st i = Ok st' /\ I (Datatypes.S i) st') ->
  exists st', MotionTutorialTrialWorld.forRange n body init = Ok st' /\ I n st'.
Proof.
  intros Hinit Hstep. induction n as [|n IH].
  - exists init. split; [reflexivity | exact Hinit].
  - destruct IH as (st & Hrun & Hst).
    { intros i st Hi. apply Hstep. lia. }
    destruct (Hstep n st ltac:(lia) Hst) as (st' & Hbody & Hst').
    exists st'. split; [|exact Hst'].
    rewrite forRange_S, Hrun. exact Hbody.
Qed.

Lemma readIndex_lt {A : Type} (arr : list A) (i : nat) :
  (i < length arr)%nat -> exists a, readIndex arr i = Ok a /\ arr !! i = Some a.
Proof.
  intros Hi. destruct (lookup_lt_is_Some_2 arr i Hi) as [a Ha].
  exists a. unfold readIndex. rewrite Ha. split; reflexivity.
Qed.

(** The two branches of a slot, as one choice between two dots. *)
Lemma slot_append (b : bool) (mk1 mk2 : Dot * nat) (l : list Dot) (n : nat) :
  (if b then let '(dot, k) := mk1 in (l ++ [dot], S n, k)
   else let '(dot, k) := mk2 in (l ++ [dot], n, k))
  = (l ++ [(if b then mk1 else mk2).1], if b then S n else n,
     (if b then mk1 else mk2).2).
Proof. destruct b, mk1, mk2; reflexivity. Qed.

Lemma slot_insert (b : bool) (mk1 mk2 : Dot * nat) (l : list Dot)
    (i n : nat) :
  (if b then let '(dot, k) := mk1 in (<[i := dot]> l, S n, k)
   else let '(dot, k) := mk2 in (<[i := dot]> l, n, k))
  = (<[i := (if b then mk1 else mk2).1]> l, if b then S n else n,
     (if b then mk1 else mk2).2).
Proof. destruct b, mk1, mk2; reflexivity. Qed.

Lemma createDotsStep_invariant (w : World QT) (coherentDirection : Direction)
    (shuffledLeft shuffledRight : list Vec) (st : SpawnState) (i : nat) :
  (i < length shuffledLeft)%nat -> (i < length shuffledRight)%nat ->
  createdSoFar w i st ->
  exists st',
    MotionTutorialTrialWorld.createDotsStep rs w coherentDirection
      shuffledLeft shuffledRight st i = Ok st' /\
    createdSoFar w (S i) st'.
Proof.
  intros Hl Hr (Hlen1 & Hlen2 & Hleft & Hright).
  destruct (readIndex_lt shuffledLeft i Hl) as (pl & Hpl & _).
  destruct (readIndex_lt shuffledRight i Hr) as (pr & Hpr & _).
  unfold MotionTutorialTrialWorld.createDotsStep.
  rewrite Hpl. cbn [bind]. rewrite slot_append.
  rewrite Hpr. cbn [bind]. rewrite slot_append.
  eexists. split; [reflexivity|].
  unfold createdSoFar; cbn [spawnLeft spawnRight].
  rewrite !length_app; cbn [length].
  split; [lia|]. split; [lia|].
  split; intros Hside; (apply Forall_app_2; [auto|]); apply Forall_singleton;
    rewrite (isCoherentSlot_side w _ _ Hside); apply newDot_RANDOM.
Qed.

Lemma createNewTrialStep_invariant (w : World QT)
    (coherentDirection : Direction)
    (shuffledLeft shuffledRight : list Vec) (n : nat) (st : SpawnState)
    (i : nat) :
  (i < length shuffledLeft)%nat -> (i < length shuffledRight)%nat ->
  (i < n)%nat ->
  reassignedSoFar w n i st ->
  exists st',
    MotionTutorialTrialWorld.createNewTrialStep rs w coherentDirection
      shuffledLeft shuffledRight st i = Ok st' /\
    reassignedSoFar w n (S i) st'.
Proof.
  intros Hl Hr Hn (Hlen1 & Hlen2 & Hleft & Hright).
  destruct (readIndex_lt shuffledLeft i Hl) as (pl & Hpl & _).
  destruct (readIndex_lt shuffledRight i Hr) as (pr & Hpr & _).
  destruct (readIndex_lt (spawnLeft st) i ltac:(lia)) as (dl & Hdl & Hdl').
  destruct (readIndex_lt (spawnRight st) i ltac:(lia)) as (dr & Hdr & Hdr').
  unfold MotionTutorialTrialWorld.createNewTrialStep.
  rewrite Hpl. cbn [bind]. rewrite Hdl. cbn [bind]. rewrite slot_insert.
  rewrite Hpr. cbn [bind]. rewrite Hdr. cbn [bind]. rewrite slot_insert.
  eexists. split; [reflexivity|].
  unfold reassignedSoFar; cbn [spawnLeft spawnRight].
  rewrite !length_insert.
  split; [lia|]. split; [lia|].
  split; intros Hside;
    (erewrite take_S_r by (apply list_lookup_insert_eq; lia));
    rewrite take_insert_ge by lia;
    (apply Forall_app_2; [auto|]); apply Forall_singleton;
    rewrite (isCoherentSlot_side w _ _ Hside); apply reassignDot_RANDOM.
Qed.
End Trials.

(** C10: after createDots (run on the empty dot arrays of a new world) and
    after every createNewTrial (run on arrays of numberOfDots dots) in
    MotionTutorialTrialWorld, every dot in the patch on the non-coherent
    side is in Random mode: Fixed-mode dots are assigned only to the patch
    named by coherentPatchSide.  Both calls return when the lattices hold
    at least numberOfDots points, and they keep what the next
    createNewTrial needs: numberOfDots dots in each patch, the same
    lattices. *)
Theorem C10_non_coherent_side_is_random {QT : Type} (rs : RandomSource)
    (DirectionName : nat -> string) (w : World QT) :
  (forall (k : nat) (l : list Vec), length (randoSequence rs k l) = length l) ->
  (numberOfDots w <= length (leftGridPoints w))%nat ->
  (numberOfDots w <= length (rightGridPoints w))%nat ->
  (dotsLeft w = [] -> dotsRight w = [] ->
   exists w',
     MotionTutorialTrialWorld.createDots rs DirectionName w = Ok w' /\
     nonCoherentSideRandom w' /\
     length (dotsLeft w') = numberOfDots w' /\
     length (dotsRight w') = numberOfDots w' /\
     numberOfDots w' = numberOfDots w /\
     leftGridPoints w' = leftGridPoints w /\
     rightGridPoints w' = rightGridPoints w) /\
  (length (dotsLeft w) = numberOfDots w ->
   length (dotsRight w) = numberOfDots w ->
   exists w',
     MotionTutorialTrialWorld.createNewTrial rs DirectionName w = Ok w' /\
     nonCoherentSideRandom w' /\
     length (dotsLeft w') = numberOfDots w' /\
     length (dotsRight w') = numberOfDots w' /\
     numberOfDots w' = numberOfDots w /\
     leftGridPoints w' = leftGridPoints w /\
     rightGridPoints w' = rightGridPoints w).
Proof.
  intros Hshuffle HgridL HgridR. split.
  - intros HemptyL HemptyR.
    unfold MotionTutorialTrialWorld.createDots,
      MotionTutorialTrialWorld.rollTrial.
    cbv zeta iota beta.
    set (side := if rando1 rs (draws w + 2) then DirectionName 0%nat
                 else DirectionName 1%nat).
    set (w1 := set_coherentPatchSide w side).
    edestruct (forRange_invariant (createdSoFar w1) (numberOfDots w1))
      as (st & Hrun & Hlen1 & Hlen2 & Hleft & Hright);
      [| | rewrite Hrun; cbn [bind]; eexists; split; [reflexivity|]].
    + unfold createdSoFar; cbn [spawnLeft spawnRight dotsLeft dotsRight
                                set_coherentPatchSide w1].
      rewrite HemptyL, HemptyR. repeat split; auto.
    + intros i st Hi Hinv. apply createDotsStep_invariant; [| |exact Hinv];
        rewrite Hshuffle; cbn in Hi; lia.
    + unfold nonCoherentSideRandom. cbn. repeat split; assumption.
  - intros HlenL HlenR.
    unfold MotionTutorialTrialWorld.createNewTrial,
      MotionTutorialTrialWorld.rollTrial.
    cbv zeta iota beta.
    set (side := if rando1 rs (draws w + 2) then DirectionName 0%nat
                 else DirectionName 1%nat).
    set (w1 := set_coherentPatchSide w side).
    edestruct (forRange_invariant
                 (reassignedSoFar w1 (numberOfDots w1)) (numberOfDots w1))
      as (st & Hrun & Hlen1 & Hlen2 & Hleft & Hright);
      [| | rewrite Hrun; cbn [bind]; eexists; split; [reflexivity|]].
    + unfold reassignedSoFar; cbn [spawnLeft spawnRight dotsLeft dotsRight
                                   set_coherentPatchSide w1 take].
      repeat split; auto.
    + intros i st Hi Hinv.
      apply createNewTrialStep_invariant; [| |exact Hi|exact Hinv];
        rewrite Hshuffle; cbn in Hi; lia.
    + unfold nonCoherentSideRandom. cbn.
      rewrite take_ge in Hleft by lia. rewrite take_ge in Hright by lia.
      repeat split; assumption.
Qed.

Lemma C10_non_coherent_side_is_random_witness :
  exists w',
    MotionTutorialTrialWorld.createDots (constantSource (1 / 2) true)
      sampleDirectionName (sampleWorld [] [] 2) = Ok w' /\
    nonCoherentSideRandom w' /\
    length (dotsLeft w') = numberOfDots w' /\
    length (dotsRight w') = numberOfDots w' /\
    numberOfDots w' = numberOfDots (sampleWorld [] [] 2) /\
    leftGridPoints w' = leftGridPoints (sampleWorld [] [] 2) /\
    rightGridPoints w' = rightGridPoints (sampleWorld [] [] 2).
Proof.
  apply (proj1 (C10_non_coherent_side_is_random (constantSource (1 / 2) true)
                  sampleDirectionName (sampleWorld [] [] 2)
                  (fun _ _ => eq_refl) ltac:(cbn; lia) ltac:(cbn; lia)));
    reflexivity.
Defined.

(** * Further properties of the code *)

(** ** Staircase: direction of the steps *)

(** X1: in MotionTutorialTrialWorld, for a level in [0,100] and any factor,
    a correct answer never raises the coherence level and an incorrect
    answer never lowers it, as the comment of updateCoherency says. *)
Theorem X1_tutorial_staircase_direction (c f : R) :
  0 <= c <= 100 ->
  MotionTutorialTrialWorld.updateCoherencyLevel c f true <= c /\
  c <= MotionTutorialTrialWorld.updateCoherencyLevel c f false.
Proof.
  intros Hc. unfold MotionTutorialTrialWorld.updateCoherencyLevel.
  split; repeat case_bool_decide; nra.
Qed.

Lemma X1_tutorial_staircase_direction_witness :
  MotionTutorialTrialWorld.updateCoherencyLevel 50 (1 / 2) true <= 50 /\
  50 <= MotionTutorialTrialWorld.updateCoherencyLevel 50 (1 / 2) false.
Proof. apply X1_tutorial_staircase_direction. lra. Defined.

(** X2: in FormWorld, for a level in [0,100], a correct answer never raises
    the level and an incorrect answer with factor at least 1 never lowers
    it; but an incorrect answer with a factor below 1 lowers every positive
    level, against the comment of updateCoherency. *)
Theorem X2_form_staircase_direction (c f : R) :
  0 <= c <= 100 ->
  FormWorld.updateCoherencyLevel c f true <= c /\
  (1 <= f -> c <= FormWorld.updateCoherencyLevel c f false) /\
  (f < 1 -> 0 < c -> FormWorld.updateCoherencyLevel c f false < c).
Proof.
  intros Hc. unfold FormWorld.updateCoherencyLevel.
  repeat split; intros; repeat case_bool_decide; nra.
Qed.

Lemma X2_form_staircase_direction_witness :
  FormWorld.updateCoherencyLevel 50 (1 / 2) false < 50.
Proof.
  apply (proj2 (proj2 (X2_form_staircase_direction 50 (1 / 2) ltac:(lra))));
    lra.
Defined.

Lemma updateCoherency_zero (v : Variant) (f : R) (b : bool) :
  updateCoherencyOf v 0 f b = 0.
Proof.
  destruct v, b; cbn;
    unfold MotionTutorialTrialWorld.updateCoherencyLevel,
           FormWorld.updateCoherencyLevel;
    repeat case_bool_decide; lra.
Qed.

(** X3: the coherence level 0 is absorbing in both variants: from 0, every
    sequence of updateCoherency calls, whatever the factors and answers,
    leaves the level at 0 after each call. *)
Theorem X3_level_zero_is_absorbing (v : Variant) (calls : list Call) :
  levels v 0 calls = repeat 0 (length calls).
Proof.
  induction calls as [|k rest IH]; [reflexivity|].
  cbn [levels length repeat]. rewrite updateCoherency_zero, IH. reflexivity.
Qed.

(** ** Dot kinematics *)

Lemma update_effect (rs : RandomSource) (d : Dot)
    (delta : R) (k : nat) :
  0 < horMaxTime d -> 0 < ranMaxTime d ->
  directionTimer (update rs d delta k).1
    < (if isRandom d then ranMaxTime d else horMaxTime d) /\
  aliveTimer (update rs d delta k).1 = aliveTimer d - delta /\
  x (update rs d delta k).1
    = x d + delta * fst (velocity (update rs d delta k).1) /\
  y (update rs d delta k).1
    = y d + delta * snd (velocity (update rs d delta k).1) /\
  dotIdentity (update rs d delta k).1 = dotIdentity d /\
  (k <= (update rs d delta k).2 <= S k)%nat.
Proof.
  intros Hhor Hran. unfold update.
  destruct d as [px py r dir dt at' mat hm rm sp v rnd].
  cbn [isRandom directionTimer horMaxTime ranMaxTime aliveTimer
       with_aliveTimer with_directionTimer with_velocity velocity] in *.
  destruct rnd; cbn [negb andb]; case_bool_decide; cbn in *; repeat split;
    try lra; try lia; reflexivity.
Qed.

(** X4: Dot.update(delta) lowers the lifetime timer by exactly delta, moves
    the dot by delta times the velocity it has after the heading change,
    keeps radius, direction, mode and periods, draws at most one random
    number, and, the periods being positive, leaves the heading timer
    below the period of the dot's mode. *)
Theorem X4_update_timers_and_position (rs : RandomSource) (d : Dot)
    (delta : R) (k : nat) :
  0 < horMaxTime d -> 0 < ranMaxTime d ->
  directionTimer (update rs d delta k).1
    < (if isRandom d then ranMaxTime d else horMaxTime d) /\
  aliveTimer (update rs d delta k).1 = aliveTimer d - delta /\
  x (update rs d delta k).1
    = x d + delta * fst (velocity (update rs d delta k).1) /\
  y (update rs d delta k).1
    = y d + delta * snd (velocity (update rs d delta k).1) /\
  dotIdentity (update rs d delta k).1 = dotIdentity d /\
  (k <= (update rs d delta k).2 <= S k)%nat.
Proof. exact (update_effect rs d delta k). Qed.

Lemma X4_update_timers_and_position_witness :
  aliveTimer (update (constantSource (1 / 2) true)
                (sampleDot 50 50 (1, 0) false) 40 0).1 = 1000 - 40.
Proof.
  apply (X4_update_timers_and_position (constantSource (1 / 2) true)
           (sampleDot 50 50 (1, 0) false) 40 0); cbn; lra.
Defined.

(** ** Wall collision: speed and clearance *)

Lemma collideWithWall_fields (d : Dot) (wallX wallY : R) :
  speedSquared (velocity (collideWithWall d wallX wallY))
  = speedSquared (velocity d) /\
  dotIdentity (collideWithWall d wallX wallY) = dotIdentity d /\
  dotTimers (collideWithWall d wallX wallY) = dotTimers d.
Proof.
  unfold collideWithWall, speedSquared.
  destruct d as [px py r dir dt at' mat hm rm sp [vx vy] rnd].
  case_bool_decide; cbn; repeat split; ring.
Qed.

(** X5: wall handling never changes the speed of a dot, only the sign of
    one velocity component: collideWithWall, for any wall point, and both
    wall checks of the world keep the squared speed, the timers, the
    radius and the mode of the dot. *)
Theorem X5_wall_collision_keeps_speed {QT : Type} (w : World QT) (d : Dot)
    (wallX wallY : R) :
  (speedSquared (velocity (collideWithWall d wallX wallY))
   = speedSquared (velocity d) /\
   dotIdentity (collideWithWall d wallX wallY) = dotIdentity d /\
   dotTimers (collideWithWall d wallX wallY) = dotTimers d) /\
  (speedSquared (velocity (checkWallCollisionLeftPatch w d))
   = speedSquared (velocity d) /\
   dotIdentity (checkWallCollisionLeftPatch w d) = dotIdentity d /\
   dotTimers (checkWallCollisionLeftPatch w d) = dotTimers d) /\
  (speedSquared (velocity (checkWallCollisionRightPatch w d))
   = speedSquared (velocity d) /\
   dotIdentity (checkWallCollisionRightPatch w d) = dotIdentity d /\
   dotTimers (checkWallCollisionRightPatch w d) = dotTimers d).
Proof.
  split; [apply collideWithWall_fields|].
  unfold checkWallCollisionLeftPatch, checkWallCollisionRightPatch.
  split; repeat case_bool_decide;
    (apply collideWithWall_fields || (repeat split)).
Qed.

Lemma vecLength_scale (a b t : R) :
  vecLength (a * t, b * t) = Rabs t * vecLength (a, b).
Proof.
  unfold vecLength; cbn [fst snd].
  replace ((a * t) ^ 2 + (b * t) ^ 2) with (Rsqr t * (a ^ 2 + b ^ 2))
    by (unfold Rsqr; ring).
  rewrite sqrt_mult_alt by apply Rle_0_sqr.
  rewrite sqrt_Rsqr_abs. reflexivity.
Qed.

Lemma collideWithWall_normal (d : Dot) (wallX wallY : R) :
  vecLength (normalTo d wallX wallY) <> 0 ->
  normalTo (collideWithWall d wallX wallY) wallX wallY
  = (fst (normalTo d wallX wallY)
     * ((radius d + vecLength (normalTo d wallX wallY) / 2)
        / vecLength (normalTo d wallX wallY)),
     snd (normalTo d wallX wallY)
     * ((radius d + vecLength (normalTo d wallX wallY) / 2)
        / vecLength (normalTo d wallX wallY))).
Proof.
  intros Hd. unfold collideWithWall, minimumTranslation.
  set (dist := vecLength (normalTo d wallX wallY)) in *.
  case_bool_decide; unfold normalTo; cbn; f_equal; field; exact Hd.
Qed.

(** X6: after collideWithWall, for any wall point off the center and a
    non-negative radius, the center lies at distance radius + dist/2 from
    the wall point, dist being the distance before: the dot ends clear of
    the wall point by more than its radius. *)
Theorem X6_collideWithWall_clearance (d : Dot) (wallX wallY : R) :
  0 < vecLength (normalTo d wallX wallY) -> 0 <= radius d ->
  vecLength (normalTo (collideWithWall d wallX wallY) wallX wallY)
  = radius d + vecLength (normalTo d wallX wallY) / 2 /\
  radius d < vecLength (normalTo (collideWithWall d wallX wallY) wallX wallY).
Proof.
  intros Hpos Hr.
  assert (Hlen : vecLength (normalTo (collideWithWall d wallX wallY)
                              wallX wallY)
                 = radius d + vecLength (normalTo d wallX wallY) / 2).
  { rewrite collideWithWall_normal by lra. rewrite vecLength_scale.
    replace (fst (normalTo d wallX wallY), snd (normalTo d wallX wallY))
      with (normalTo d wallX wallY) by (unfold normalTo; reflexivity).
    rewrite Rabs_pos_eq.
    - field. lra.
    - apply Rlt_le, Rdiv_lt_0_compat; lra. }
  split; [exact Hlen | rewrite Hlen; lra].
Qed.

Lemma X6_collideWithWall_clearance_witness :
  vecLength (normalTo (collideWithWall (sampleDot 4 50 (-1, 2) true) 0 50)
                      0 50)
  = 5 + vecLength (normalTo (sampleDot 4 50 (-1, 2) true) 0 50) / 2 /\
  5 < vecLength (normalTo (collideWithWall (sampleDot 4 50 (-1, 2) true) 0 50)
                          0 50).
Proof.
  apply (X6_collideWithWall_clearance (sampleDot 4 50 (-1, 2) true) 0 50).
  - unfold normalTo; cbn [x y sampleDot].
    rewrite vecLength_horizontal, Rabs_pos_eq; lra.
  - cbn. lra.
Defined.

(** ** Dot collision: separation, conservation, what is never changed *)

Lemma mixed_this_lookups (dots : list Dot) (i j : nat) (d1 d2 new1 : Dot) :
  i <> j -> dots !! i = Some d1 -> dots !! j = Some d2 ->
  <[i := new1]> dots !! i = Some new1 /\ <[i := new1]> dots !! j = Some d2.
Proof.
  intros Hij Hi Hj. split.
  - apply list_lookup_insert_eq. eapply lookup_lt_Some, Hi.
  - rewrite list_lookup_insert_ne by congruence. exact Hj.
Qed.

Lemma both_lookups (dots : list Dot) (i j : nat) (d1 d2 new1 new2 : Dot) :
  i <> j -> dots !! i = Some d1 -> dots !! j = Some d2 ->
  <[j := new2]> (<[i := new1]> dots) !! i = Some new1 /\
  <[j := new2]> (<[i := new1]> dots) !! j = Some new2.
Proof.
  intros Hij Hi Hj. split.
  - rewrite list_lookup_insert_ne by congruence.
    apply list_lookup_insert_eq. eapply lookup_lt_Some, Hi.
  - apply list_lookup_insert_eq. rewrite length_insert.
    eapply lookup_lt_Some, Hj.
Qed.

(** The centers of two dots whose difference is the old normal stretched
    by the overlap are twice the radius apart. *)
Lemma stretched_normal_length (n : Vec) (r a b : R) :
  0 < vecLength n <= 2 * r ->
  a = fst n + fst n * ((2 * r - vecLength n) / vecLength n) ->
  b = snd n + snd n * ((2 * r - vecLength n) / vecLength n) ->
  vecLength (a, b) = 2 * r.
Proof.
  intros [Hpos Hle] -> ->.
  replace (fst n + fst n * ((2 * r - vecLength n) / vecLength n))
    with (fst n * (2 * r / vecLength n)) by (field; lra).
  replace (snd n + snd n * ((2 * r - vecLength n) / vecLength n))
    with (snd n * (2 * r / vecLength n)) by (field; lra).
  rewrite vecLength_scale, <- surjective_pairing, Rabs_pos_eq.
  - field. lra.
  - apply Rlt_le, Rdiv_lt_0_compat; lra.
Qed.

(** X7: after collideWithDot has resolved a collision of two distinct dots
    (center distance positive and at most twice the caller's radius), the
    two centers are exactly twice that radius apart, whatever the modes of
    the two dots: the overlap is removed in one call. *)
Theorem X7_collideWithDot_removes_overlap (dots : list Dot) (i j : nat)
    (d1 d2 : Dot) :
  i <> j -> dots !! i = Some d1 -> dots !! j = Some d2 ->
  0 < vecLength (normalTo d1 (x d2) (y d2)) <= 2 * radius d1 ->
  exists d1' d2' : Dot,
    collideWithDot i j dots !! i = Some d1' /\
    collideWithDot i j dots !! j = Some d2' /\
    vecLength (normalTo d1' (x d2') (y d2')) = 2 * radius d1.
Proof.
  intros Hij Hi Hj Hdist.
  rewrite (collideWithDot_colliding dots i j d1 d2 Hij Hi Hj (proj2 Hdist)).
  cbv zeta.
  assert (Hne : vecLength (normalTo d1 (x d2) (y d2)) <> 0) by lra.
  destruct (isRandom d1), (isRandom d2); cbn [andb negb];
    [ edestruct (both_lookups dots i j d1 d2) as [-> ->]; try eassumption
    | edestruct (mixed_this_lookups dots i j d1 d2) as [-> ->];
      try eassumption
    | edestruct (mixed_this_lookups dots j i d2 d1) as [-> ->];
      try eassumption; [congruence|]
    | edestruct (both_lookups dots i j d1 d2) as [-> ->]; try eassumption ];
    (eexists _, _; split; [reflexivity|]; split; [reflexivity|]);
    (apply (stretched_normal_length (normalTo d1 (x d2) (y d2)));
     [exact Hdist| |]);
    unfold minimumTranslation;
    cbn [x y with_velocity with_position fst snd];
    set (dist := vecLength (normalTo d1 (x d2) (y d2))) in *;
    unfold normalTo; cbn [fst snd]; field; exact Hne.
Qed.

Lemma X7_collideWithDot_removes_overlap_witness :
  exists d1' d2' : Dot,
    collideWithDot 0 1 (scenarioDots true false) !! 0%nat = Some d1' /\
    collideWithDot 0 1 (scenarioDots true false) !! 1%nat = Some d2' /\
    vecLength (normalTo d1' (x d2') (y d2')) = 2 * 5.
Proof.
  apply (X7_collideWithDot_removes_overlap (scenarioDots true false)
           0%nat 1%nat (sampleDot 0 0 (1, 0) true)
           (sampleDot 8 0 (-1, 0) false)).
  - lia.
  - reflexivity.
  - reflexivity.
  - change (0 < vecLength (0 - 8, 0 - 0) <= 2 * 5).
    rewrite scenario_distance. lra.
Defined.

Lemma orthonormal_sum (a b vx vy : R) :
  a ^ 2 + b ^ 2 = 1 ->
  a * (a * vx + b * vy) + - b * (- b * vx + a * vy) = vx /\
  b * (a * vx + b * vy) + a * (- b * vx + a * vy) = vy.
Proof.
  intros H. split.
  - transitivity ((a ^ 2 + b ^ 2) * vx); [ring | rewrite H; ring].
  - transitivity ((a ^ 2 + b ^ 2) * vy); [ring | rewrite H; ring].
Qed.

Lemma velocities_conserved (d1 d2 : Dot) :
  vecLength (normalTo d1 (x d2) (y d2)) <> 0 ->
  fst (velocityOfThis d1 d2) + fst (velocityOfOther d1 d2)
  = fst (velocity d1) + fst (velocity d2) /\
  snd (velocityOfThis d1 d2) + snd (velocityOfOther d1 d2)
  = snd (velocity d1) + snd (velocity d2) /\
  speedSquared (velocityOfThis d1 d2) + speedSquared (velocityOfOther d1 d2)
  = speedSquared (velocity d1) + speedSquared (velocity d2).
Proof.
  intros Hne.
  pose proof (unitNormal_unit (normalTo d1 (x d2) (y d2)) Hne) as Hunit.
  unfold velocityOfThis, velocityOfOther, speedSquared, recompose, project,
    unitTangent. cbv zeta.
  destruct (unitNormal (normalTo d1 (x d2) (y d2))) as [a b].
  destruct (velocity d1) as [v1x v1y]. destruct (velocity d2) as [v2x v2y].
  cbn [fst snd] in *.
  repeat split.
  - transitivity ((a ^ 2 + b ^ 2) * (v1x + v2x)); [ring | rewrite Hunit; ring].
  - transitivity ((a ^ 2 + b ^ 2) * (v1y + v2y)); [ring | rewrite Hunit; ring].
  - transitivity ((a ^ 2 + b ^ 2) * (a ^ 2 + b ^ 2)
                  * (v1x ^ 2 + v1y ^ 2 + (v2x ^ 2 + v2y ^ 2)));
      [ring | rewrite Hunit; ring].
Qed.

(** X8: when collideWithDot resolves a collision of two distinct dots of
    the same mode at a positive distance, the sum of the two velocities
    (momentum, the masses being equal) and the sum of the squared speeds
    (kinetic energy) are the same after as before: the collision is
    elastic. *)
Theorem X8_collideWithDot_is_elastic (dots : list Dot) (i j : nat)
    (d1 d2 : Dot) :
  i <> j -> dots !! i = Some d1 -> dots !! j = Some d2 ->
  isRandom d1 = isRandom d2 ->
  0 < vecLength (normalTo d1 (x d2) (y d2)) <= 2 * radius d1 ->
  exists d1' d2' : Dot,
    collideWithDot i j dots !! i = Some d1' /\
    collideWithDot i j dots !! j = Some d2' /\
    fst (velocity d1') + fst (velocity d2')
    = fst (velocity d1) + fst (velocity d2) /\
    snd (velocity d1') + snd (velocity d2')
    = snd (velocity d1) + snd (velocity d2) /\
    speedSquared (velocity d1') + speedSquared (velocity d2')
    = speedSquared (velocity d1) + speedSquared (velocity d2).
Proof.
  intros Hij Hi Hj Hmode [Hpos Hle].
  destruct (collideWithDot_same_mode dots i j d1 d2 Hij Hi Hj Hle Hmode)
    as [Hi' Hj'].
  eexists _, _. split; [exact Hi'|]. split; [exact Hj'|].
  cbn [velocity with_velocity]. apply velocities_conserved. lra.
Qed.

Lemma X8_collideWithDot_is_elastic_witness :
  exists d1' d2' : Dot,
    collideWithDot 0 1 (scenarioDots true true) !! 0%nat = Some d1' /\
    collideWithDot 0 1 (scenarioDots true true) !! 1%nat = Some d2' /\
    fst (velocity d1') + fst (velocity d2') = 1 + -1 /\
    snd (velocity d1') + snd (velocity d2') = 0 + 0 /\
    speedSquared (velocity d1') + speedSquared (velocity d2')
    = speedSquared (1, 0) + speedSquared (-1, 0).
Proof.
  apply (X8_collideWithDot_is_elastic (scenarioDots true true)
           0%nat 1%nat (sampleDot 0 0 (1, 0) true)
           (sampleDot 8 0 (-1, 0) true)).
  - lia.
  - reflexivity.
  - reflexivity.
  - reflexivity.
  - change (0 < vecLength (0 - 8, 0 - 0) <= 2 * 5).
    rewrite scenario_distance. lra.
Defined.

(** A store entry rewritten by a dot with the same image under [f] keeps
    the image of the store. *)
Lemma fmap_insert_same {A B : Type} (f : A -> B) (l : list A) (i : nat)
    (old new : A) :
  l !! i = Some old -> f new = f old -> f <$> <[i := new]> l = f <$> l.
Proof.
  intros Hi Hf. rewrite list_fmap_insert, Hf.
  apply list_insert_id. rewrite list_lookup_fmap, Hi. reflexivity.
Qed.

Lemma collideWithDot_keeps (dots : list Dot) (i j : nat) :
  dotIdentity <$> collideWithDot i j dots = dotIdentity <$> dots /\
  dotTimers <$> collideWithDot i j dots = dotTimers <$> dots.
Proof.
  unfold collideWithDot. case_bool_decide; [split; reflexivity|].
  destruct (dots !! i) as [d1|] eqn:Hi; [|split; reflexivity].
  destruct (dots !! j) as [d2|] eqn:Hj; [|split; reflexivity].
  case_bool_decide; [split; reflexivity|].
  destruct (isRandom d1 && negb (isRandom d2));
    [|destruct (negb (isRandom d1) && isRandom d2)];
    split;
    repeat (erewrite fmap_insert_same;
            [ | first [ eassumption
                      | rewrite list_lookup_insert_ne by congruence;
                        eassumption ]
              | reflexivity ]);
    reflexivity.
Qed.

(** X9: collideWithDot, on any store and any two references, changes
    nothing but positions and velocities: the store keeps its length, and
    every dot keeps its radius, direction, mode, periods, speed setting and
    both timers.  Two dots farther apart than twice the caller's radius
    are left as they are. *)
Theorem X9_collideWithDot_changes_only_motion (dots : list Dot) (i j : nat) :
  length (collideWithDot i j dots) = length dots /\
  dotIdentity <$> collideWithDot i j dots = dotIdentity <$> dots /\
  dotTimers <$> collideWithDot i j dots = dotTimers <$> dots /\
  (forall d1 d2 : Dot,
     dots !! i = Some d1 -> dots !! j = Some d2 ->
     vecLength (normalTo d1 (x d2) (y d2)) > 2 * radius d1 ->
     collideWithDot i j dots = dots).
Proof.
  destruct (collideWithDot_keeps dots i j) as [Hid Htm].
  split; [|split; [exact Hid | split; [exact Htm|]]].
  - rewrite <- (length_fmap dotIdentity), Hid. apply length_fmap.
  - intros d1 d2 Hi Hj Hfar. unfold collideWithDot.
    case_bool_decide; [reflexivity|].
    rewrite Hi, Hj, bool_decide_true by exact Hfar. reflexivity.
Qed.

Lemma X9_collideWithDot_changes_only_motion_witness :
  collideWithDot 0 1
    [sampleDot 0 0 (1, 0) true; sampleDot 20 0 (-1, 0) true]
  = [sampleDot 0 0 (1, 0) true; sampleDot 20 0 (-1, 0) true].
Proof.
  refine (proj2 (proj2 (proj2 (X9_collideWithDot_changes_only_motion
            [sampleDot 0 0 (1, 0) true; sampleDot 20 0 (-1, 0) true]
            0%nat 1%nat)))
          (sampleDot 0 0 (1, 0) true) (sampleDot 20 0 (-1, 0) true)
          eq_refl eq_refl _).
  unfold normalTo; cbn [x y radius sampleDot].
  rewrite vecLength_horizontal, Rabs_left; lra.
Defined.

(** ** Frames: what stays, what is refreshed *)

Lemma update_identity (rs : RandomSource) (d : Dot) (delta : R) (k : nat) :
  dotIdentity (update rs d delta k).1 = dotIdentity d.
Proof.
  unfold update.
  destruct d as [px py r dir dt at' mat hm rm sp v rnd].
  destruct rnd; cbn [negb andb isRandom with_aliveTimer with_directionTimer];
    case_bool_decide; reflexivity.
Qed.

Lemma fold_left_keeps {S A B : Type} (P : S -> B) (f : S -> A -> S)
    (l : list A) (s : S) :
  (forall (s' : S) (a : A), P (f s' a) = P s') ->
  P (fold_left f l s) = P s.
Proof.
  intros Hf. revert s. induction l as [|a l IH]; intros s; [reflexivity|].
  cbn [fold_left]. rewrite IH. apply Hf.
Qed.

Lemma collideWithCandidates_keeps (i : nat) (candidates : list nat)
    (dots : list Dot) :
  dotIdentity <$> collideWithCandidates i candidates dots
  = dotIdentity <$> dots /\
  dotTimers <$> collideWithCandidates i candidates dots = dotTimers <$> dots.
Proof.
  unfold collideWithCandidates. split.
  - apply (fold_left_keeps (fmap dotIdentity)). intros ds j.
    apply collideWithDot_keeps.
  - apply (fold_left_keeps (fmap dotTimers)). intros ds j.
    apply collideWithDot_keeps.
Qed.

Section FrameInvariants.
Context {QT : Type} `{!SpatialIndex QT}.
Variable rs : RandomSource.
Variable checkWall : Dot -> Dot.
Hypothesis checkWall_keeps :
  forall d : Dot,
    dotIdentity (checkWall d) = dotIdentity d /\
    dotTimers (checkWall d) = dotTimers d.

Lemma collisionStep_keeps (q : QT) (dots : list Dot) (i : nat) :
  dotIdentity <$> AbstractMotionWorld.collisionStep checkWall q dots i
  = dotIdentity <$> dots /\
  dotTimers <$> AbstractMotionWorld.collisionStep checkWall q dots i
  = dotTimers <$> dots.
Proof.
  unfold AbstractMotionWorld.collisionStep.
  destruct (dots !! i) as [dot|] eqn:Hi; [|split; reflexivity].
  destruct (collideWithCandidates_keeps i
              (qt_retrieve q [] (if isRandom dot then checkWall dot else dot))
              (<[i := if isRandom dot then checkWall dot else dot]> dots))
    as [-> ->].
  split; (eapply fmap_insert_same; [exact Hi|]);
    destruct (isRandom dot); try reflexivity; apply checkWall_keeps.
Qed.

Lemma updateStep_identity (delta xMin yMin xMax yMax : R)
    (st : list Dot * nat) (i : nat) :
  dotIdentity <$> (AbstractMotionWorld.updateStep rs delta xMin yMin xMax yMax
                     st i).1
  = dotIdentity <$> st.1.
Proof.
  unfold AbstractMotionWorld.updateStep.
  destruct (st.1 !! i) as [dot|] eqn:Hi; [|reflexivity].
  pose proof (update_identity rs dot delta st.2) as Hid.
  destruct (update rs dot delta st.2) as [dot1 k1]. cbn [fst] in Hid.
  case_bool_decide; cbn [fst];
    (eapply fmap_insert_same; [exact Hi|]); rewrite <- Hid; reflexivity.
Qed.

Lemma updatePatch_identity (delta xMin yMin xMax yMax : R) (q : QT)
    (dots : list Dot) (k : nat) :
  dotIdentity <$> (AbstractMotionWorld.updatePatch rs checkWall delta
                     xMin yMin xMax yMax q dots k).1.2
  = dotIdentity <$> dots.
Proof.
  unfold AbstractMotionWorld.updatePatch. cbn [fst snd].
  rewrite (fold_left_keeps (fun st : list Dot * nat => dotIdentity <$> st.1))
    by (intros; apply updateStep_identity).
  cbn [fst].
  apply (fold_left_keeps (fmap dotIdentity)).
  intros ds i. apply collisionStep_keeps.
Qed.

Lemma insertStep_keeps (st : QT * list Dot) (i : nat) :
  dotIdentity <$> (AbstractMotionWorld2.insertStep checkWall st i).2
  = dotIdentity <$> st.2.
Proof.
  unfold AbstractMotionWorld2.insertStep.
  destruct (st.2 !! i) as [dot|] eqn:Hi; [|reflexivity].
  destruct (isRandom dot); [|reflexivity]. cbn [snd].
  eapply fmap_insert_same; [exact Hi | apply checkWall_keeps].
Qed.

Lemma collisionStep2_keeps (q : QT) (dots : list Dot) (i : nat) :
  dotIdentity <$> AbstractMotionWorld2.collisionStep q dots i
  = dotIdentity <$> dots.
Proof.
  unfold AbstractMotionWorld2.collisionStep.
  destruct (dots !! i) as [dot|]; [|reflexivity].
  apply collideWithCandidates_keeps.
Qed.

Lemma updateStep2_identity (fuel : nat) (w : World QT)
    (delta minX minY maxX maxY : R) (st : option (list Dot * nat)) (i : nat)
    (ids : list (R * Direction * bool * R * R * R * R)) :
  (forall s, st = Some s -> dotIdentity <$> s.1 = ids) ->
  forall s',
    AbstractMotionWorld2.updateStep rs fuel w delta minX minY maxX maxY st i
    = Some s' ->
    dotIdentity <$> s'.1 = ids.
Proof.
  intros Hst s'. unfold AbstractMotionWorld2.updateStep.
  destruct st as [[dots k]|]; [|discriminate].
  specialize (Hst _ eq_refl). cbn [fst] in Hst.
  destruct (dots !! i) as [dot|] eqn:Hi; [|intros [= <-]; exact Hst].
  pose proof (update_identity rs dot delta k) as Hid.
  destruct (update rs dot delta k) as [dot1 k1]. cbn [fst] in Hid.
  case_bool_decide.
  - destruct (getFreeSpotInPatch _ _ _ _ _ _ _ _ _) as [[p k2]|];
      [|discriminate].
    intros [= <-]. cbn [fst]. rewrite <- Hst.
    rewrite list_insert_insert_eq.
    eapply fmap_insert_same; [exact Hi|]. rewrite <- Hid. reflexivity.
  - intros [= <-]. cbn [fst]. rewrite <- Hst.
    eapply fmap_insert_same; [exact Hi | exact Hid].
Qed.
End FrameInvariants.

Lemma identity_random_mode (l l' : list Dot) :
  dotIdentity <$> l' = dotIdentity <$> l ->
  Forall inRandomMode l -> Forall inRandomMode l'.
Proof.
  intros Hid Hall.
  assert (Hq : forall ds : list Dot,
             Forall inRandomMode ds <->
             Forall (fun t : R * Direction * bool * R * R * R * R =>
                       t.1.1.1.1.2 = true /\ t.1.1.1.1.1.2 = RANDOM)
                    (dotIdentity <$> ds)).
  { intros ds. rewrite Forall_fmap. apply Forall_iff. intros d.
    unfold inRandomMode, dotIdentity. cbn. tauto. }
  apply Hq. rewrite Hid. apply Hq, Hall.
Qed.

Lemma checkWallLeft_keeps {QT : Type} (w : World QT) (d : Dot) :
  dotIdentity (checkWallCollisionLeftPatch w d) = dotIdentity d /\
  dotTimers (checkWallCollisionLeftPatch w d) = dotTimers d.
Proof.
  unfold checkWallCollisionLeftPatch.
  repeat case_bool_decide; (apply collideWithWall_fields || (split; reflexivity)).
Qed.

Lemma checkWallRight_keeps {QT : Type} (w : World QT) (d : Dot) :
  dotIdentity (checkWallCollisionRightPatch w d) = dotIdentity d /\
  dotTimers (checkWallCollisionRightPatch w d) = dotTimers d.
Proof.
  unfold checkWallCollisionRightPatch.
  repeat case_bool_decide; (apply collideWithWall_fields || (split; reflexivity)).
Qed.

Lemma updateDots_keeps {QT : Type} `{!SpatialIndex QT} (rs : RandomSource)
    (w : World QT) (delta : R) :
  dotIdentity <$> dotsLeft (AbstractMotionWorld.updateDots rs w delta)
  = dotIdentity <$> dotsLeft w /\
  dotIdentity <$> dotsRight (AbstractMotionWorld.updateDots rs w delta)
  = dotIdentity <$> dotsRight w /\
  worldSetup (AbstractMotionWorld.updateDots rs w delta) = worldSetup w.
Proof.
  unfold AbstractMotionWorld.updateDots.
  case_bool_decide; [repeat split|].
  set (w1 := set_runTime w (runTime w + delta)).
  pose proof (updatePatch_identity rs (checkWallCollisionLeftPatch w1)
                (checkWallLeft_keeps w1) delta
                (leftMinX w1 + dotRadius w1) (patchMinY w1 + dotRadius w1)
                (leftMaxX w1 - dotRadius w1) (patchMaxY w1 - dotRadius w1)
                (quadTree w1) (dotsLeft w1) (draws w1)) as HL.
  destruct (AbstractMotionWorld.updatePatch rs (checkWallCollisionLeftPatch w1)
              _ _ _ _ _ (quadTree w1) _ _) as [[q1 dl] k1].
  pose proof (updatePatch_identity rs (checkWallCollisionRightPatch w1)
                (checkWallRight_keeps w1) delta
                (rightMinX w1 + dotRadius w1) (patchMinY w1 + dotRadius w1)
                (rightMaxX w1 - dotRadius w1) (patchMaxY w1 - dotRadius w1)
                q1 (dotsRight w1) k1) as HR.
  destruct (AbstractMotionWorld.updatePatch rs
              (checkWallCollisionRightPatch w1) _ _ _ _ _ q1 _ _)
    as [[q2 dr] k2].
  cbn [fst snd] in HL, HR. cbn. repeat split; assumption.
Qed.

(** X10: a frame of updateDots (first revision), with any spatial index
    and any random source, keeps the population of both patches: the same
    number of dots, each with the radius, direction, mode, maximum
    lifetime, periods and speed setting it had; bounds, trial settings and
    lattices of the world are unchanged; so a world whose non-coherent
    side is all Random stays so across frames. *)
Theorem X10_updateDots_keeps_population {QT : Type} `{!SpatialIndex QT}
    (rs : RandomSource) (w : World QT) (delta : R) :
  dotIdentity <$> dotsLeft (AbstractMotionWorld.updateDots rs w delta)
  = dotIdentity <$> dotsLeft w /\
  dotIdentity <$> dotsRight (AbstractMotionWorld.updateDots rs w delta)
  = dotIdentity <$> dotsRight w /\
  length (dotsLeft (AbstractMotionWorld.updateDots rs w delta))
  = length (dotsLeft w) /\
  length (dotsRight (AbstractMotionWorld.updateDots rs w delta))
  = length (dotsRight w) /\
  worldSetup (AbstractMotionWorld.updateDots rs w delta) = worldSetup w /\
  (nonCoherentSideRandom w ->
   nonCoherentSideRandom (AbstractMotionWorld.updateDots rs w delta)).
Proof.
  destruct (updateDots_keeps rs w delta) as (HL & HR & Hsetup).
  split; [exact HL|]. split; [exact HR|].
  split; [rewrite <- (length_fmap dotIdentity), HL; apply length_fmap|].
  split; [rewrite <- (length_fmap dotIdentity), HR; apply length_fmap|].
  split; [exact Hsetup|].
  intros [Hleft Hright].
  assert (Hside : coherentPatchSide (AbstractMotionWorld.updateDots rs w delta)
                  = coherentPatchSide w)
    by (unfold worldSetup in Hsetup; congruence).
  unfold nonCoherentSideRandom. rewrite Hside. split; intros Hne.
  - exact (identity_random_mode _ _ HL (Hleft Hne)).
  - exact (identity_random_mode _ _ HR (Hright Hne)).
Qed.

Lemma fold_updateStep2_identity {QT : Type} (rs : RandomSource) (fuel : nat)
    (w : World QT) (delta minX minY maxX maxY : R) (l : list nat)
    (ids : list (R * Direction * bool * R * R * R * R)) :
  forall st : option (list Dot * nat),
    (forall s, st = Some s -> dotIdentity <$> s.1 = ids) ->
    forall s',
      fold_left (AbstractMotionWorld2.updateStep rs fuel w delta
                   minX minY maxX maxY) l st = Some s' ->
      dotIdentity <$> s'.1 = ids.
Proof.
  induction l as [|i l IH]; intros st Hst s'; cbn [fold_left].
  - apply Hst.
  - apply IH. intros s Hs.
    exact (updateStep2_identity rs fuel w delta minX minY maxX maxY st i ids
             Hst s Hs).
Qed.

Lemma updatePatch2_identity {QT : Type} `{!SpatialIndex QT}
    (rs : RandomSource) (checkWall : Dot -> Dot) (fuel : nat) (w : World QT)
    (delta minX minY maxX maxY : R) (q : QT) (dots : list Dot) (k : nat) :
  (forall d : Dot,
     dotIdentity (checkWall d) = dotIdentity d /\
     dotTimers (checkWall d) = dotTimers d) ->
  forall (q' : QT) (dots' : list Dot) (k' : nat),
    AbstractMotionWorld2.updatePatch rs fuel w checkWall delta
      minX minY maxX maxY q dots k = Some (q', dots', k') ->
    dotIdentity <$> dots' = dotIdentity <$> dots.
Proof.
  intros Hwall q' dots' k'. unfold AbstractMotionWorld2.updatePatch.
  pose proof (fold_left_keeps
                (fun st : QT * list Dot => dotIdentity <$> st.2)
                (AbstractMotionWorld2.insertStep checkWall)
                (seq 0 (length dots)) (qt_clear q, dots)
                (fun st i => insertStep_keeps checkWall Hwall st i)) as H1.
  destruct (fold_left (AbstractMotionWorld2.insertStep checkWall) _ _)
    as [q1 dots1].
  cbn [snd] in H1.
  pose proof (fold_left_keeps (fmap dotIdentity)
                (AbstractMotionWorld2.collisionStep q1)
                (seq 0 (length dots1)) dots1
                (fun ds i => collisionStep2_keeps q1 ds i)) as H2.
  set (dots2 := fold_left (AbstractMotionWorld2.collisionStep q1) _ dots1) in *.
  destruct (fold_left (AbstractMotionWorld2.updateStep rs fuel w delta
                         minX minY maxX maxY) _ (Some (dots2, k)))
    as [[dots3 k3]|] eqn:Hfold; [|discriminate].
  intros [= <- <- <-].
  rewrite <- H1, <- H2.
  exact (fold_updateStep2_identity rs fuel w delta minX minY maxX maxY _
           (dotIdentity <$> dots2) (Some (dots2, k))
           ltac:(intros s [= <-]; reflexivity) (dots3, k3) Hfold).
Qed.

Lemma updateDots2_pauses {QT : Type} `{!SpatialIndex QT} (rs : RandomSource)
    (fuel : nat) (w : World QT) (delta : R) :
  runTime w + delta >= maxRunTime w ->
  AbstractMotionWorld2.updateDots rs fuel w delta
  = Some (set_currentState (set_runTime w (runTime w + delta)) PAUSED).
Proof.
  intros Hmax. unfold AbstractMotionWorld2.updateDots.
  rewrite bool_decide_true by exact Hmax. reflexivity.
Qed.

(** X11: whenever a frame of updateDots (second revision, with the
    rejection-sampling respawn) returns, it has kept the population of
    both patches (number of dots, radius, direction, mode, maximum
    lifetime, periods, speed setting of each) and the bounds, trial
    settings and lattices of the world, whatever the spatial index and the
    random source. *)
Theorem X11_updateDots2_keeps_population {QT : Type} `{!SpatialIndex QT}
    (rs : RandomSource) (fuel : nat) (w w' : World QT) (delta : R) :
  AbstractMotionWorld2.updateDots rs fuel w delta = Some w' ->
  dotIdentity <$> dotsLeft w' = dotIdentity <$> dotsLeft w /\
  dotIdentity <$> dotsRight w' = dotIdentity <$> dotsRight w /\
  length (dotsLeft w') = length (dotsLeft w) /\
  length (dotsRight w') = length (dotsRight w) /\
  worldSetup w' = worldSetup w.
Proof.
  unfold AbstractMotionWorld2.updateDots. intros Hrun.
  assert (Hgoal : dotIdentity <$> dotsLeft w' = dotIdentity <$> dotsLeft w /\
                  dotIdentity <$> dotsRight w' = dotIdentity <$> dotsRight w /\
                  worldSetup w' = worldSetup w).
  { case_bool_decide; [injection Hrun as <-; repeat split|].
    set (w1 := set_runTime w (runTime w + delta)) in *.
    destruct (AbstractMotionWorld2.updatePatch rs fuel w1
                (checkWallCollisionLeftPatch w1) _ _ _ _ _ (quadTree w1) _ _)
      as [[[q1 dl] k1]|] eqn:HL; [|discriminate].
    destruct (AbstractMotionWorld2.updatePatch rs fuel w1
                (checkWallCollisionRightPatch w1) _ _ _ _ _ q1 _ _)
      as [[[q2 dr] k2]|] eqn:HR; [|discriminate].
    injection Hrun as <-.
    apply updatePatch2_identity in HL; [|apply checkWallLeft_keeps].
    apply updatePatch2_identity in HR; [|apply checkWallRight_keeps].
    cbn. repeat split; assumption. }
  destruct Hgoal as (HL & HR & Hsetup).
  split; [exact HL|]. split; [exact HR|].
  split; [rewrite <- (length_fmap dotIdentity), HL; apply length_fmap|].
  split; [rewrite <- (length_fmap dotIdentity), HR; apply length_fmap|].
  exact Hsetup.
Qed.

Lemma updatePatch2_single_fixed_dot (rs : RandomSource) (fuel : nat)
    (w : World (list nat)) (checkWall : Dot -> Dot)
    (delta minX minY maxX maxY : R) (q : list nat) (d : Dot) (k : nat) :
  isRandom d = false -> directionTimer d + delta < horMaxTime d ->
  aliveTimer d - delta > 0 ->
  AbstractMotionWorld2.updatePatch rs fuel w checkWall delta
    minX minY maxX maxY q [d] k
  = Some ([0%nat],
          [updatePosition
             (with_aliveTimer
                (with_directionTimer d (directionTimer d + delta))
                (aliveTimer d - delta)) delta], k).
Proof.
  intros Hfixed Htimer Halive.
  unfold AbstractMotionWorld2.updatePatch, AbstractMotionWorld2.insertStep,
    AbstractMotionWorld2.collisionStep.
  cbn [length seq fold_left lookup list_lookup qt_clear qt_insert
       qt_retrieve ListIndex app fst snd].
  rewrite Hfixed.
  cbn [length seq fold_left lookup list_lookup collideWithCandidates
       qt_retrieve ListIndex app fst snd].
  rewrite collideWithDot_self.
  unfold AbstractMotionWorld2.updateStep.
  cbn [length seq fold_left lookup list_lookup].
  rewrite (update_coasting rs d delta k Hfixed Htimer).
  rewrite bool_decide_false by (cbn; lra). reflexivity.
Qed.

Lemma updateDots2_moves_a_fixed_dot :
  AbstractMotionWorld2.updateDots (constantSource (1 / 2) true) 0
    (sampleWorld [sampleDot 50 50 (1, 0) false] [] 1) 1
  = Some (set_draws
            (set_quadTree
               (set_dotsRight
                  (set_dotsLeft
                     (set_runTime
                        (sampleWorld [sampleDot 50 50 (1, 0) false] [] 1)
                        (0 + 1))
                     [updatePosition
                        (with_aliveTimer
                           (with_directionTimer
                              (sampleDot 50 50 (1, 0) false) (0 + 1))
                           (1000 - 1)) 1])
                  [])
               [])
            0).
Proof.
  unfold AbstractMotionWorld2.updateDots.
  rewrite bool_decide_false by (cbn; lra).
  cbn [dotsLeft dotsRight quadTree draws set_runTime sampleWorld].
  rewrite updatePatch2_single_fixed_dot by (cbn; lra || reflexivity).
  reflexivity.
Qed.

Lemma X11_updateDots2_keeps_population_witness :
  length [updatePosition
            (with_aliveTimer
               (with_directionTimer (sampleDot 50 50 (1, 0) false) (0 + 1))
               (1000 - 1)) 1]
  = length [sampleDot 50 50 (1, 0) false].
Proof.
  exact (proj1 (proj2 (proj2
           (X11_updateDots2_keeps_population (constantSource (1 / 2) true) 0
              (sampleWorld [sampleDot 50 50 (1, 0) false] [] 1) _ 1
              updateDots2_moves_a_fixed_dot)))).
Defined.




Section Refresh.
Variable rs : RandomSource.
Variables delta xMin yMin xMax yMax : R.


End Refresh.



(** ** Respawn positions *)

Lemma samplePoint_in_bounds (rs : RandomSource) (minX minY maxX maxY : R)
    (c : nat) :
  (forall n : nat, 0 <= rando rs n < 1) -> minX <= maxX -> minY <= maxY ->
  minX <= (samplePoint rs minX minY maxX maxY c).1 <= maxX /\
  minY <= (samplePoint rs minX minY maxX maxY c).2 <= maxY.
Proof.
  intros Hrange Hx Hy. unfold samplePoint. cbn [fst snd].
  pose proof (Hrange c). pose proof (Hrange (S c)). split; nra.
Qed.

(** X13: getRandomPosition(xMin, yMin, xMax, yMax) consumes exactly two
    draws and, the draws lying in [0,1) and the rectangle being
    non-empty, returns a point of the rectangle: a dot respawned by the
    first revision of updateDots lands inside the inset bounds of its
    patch. *)
Theorem X13_getRandomPosition_in_bounds (rs : RandomSource)
    (xMin yMin xMax yMax : R) (k : nat) :
  (forall n : nat, 0 <= rando rs n < 1) -> xMin <= xMax -> yMin <= yMax ->
  xMin <= (getRandomPosition rs xMin yMin xMax yMax k).1.1 <= xMax /\
  yMin <= (getRandomPosition rs xMin yMin xMax yMax k).1.2 <= yMax /\
  (getRandomPosition rs xMin yMin xMax yMax k).2 = (k + 2)%nat.
Proof.
  intros Hrange Hx Hy.
  destruct (samplePoint_in_bounds rs xMin yMin xMax yMax k Hrange Hx Hy)
    as [H1 H2].
  unfold getRandomPosition. cbn [fst snd].
  split; [exact H1|]. split; [exact H2 | lia].
Qed.

Lemma X13_getRandomPosition_in_bounds_witness :
  5 <= (getRandomPosition (constantSource (1 / 2) true) 5 5 95 95 0).1.1 <= 95 /\
  5 <= (getRandomPosition (constantSource (1 / 2) true) 5 5 95 95 0).1.2 <= 95 /\
  (getRandomPosition (constantSource (1 / 2) true) 5 5 95 95 0).2 = 2%nat.
Proof.
  apply (X13_getRandomPosition_in_bounds (constantSource (1 / 2) true)
           5 5 95 95 0); [intros n; cbn; lra | lra | lra].
Defined.

Lemma getFreeSpotInPatch_result {QT : Type} (rs : RandomSource) (w : World QT)
    (minX minY maxX maxY : R) (dots : list Dot) (fuel : nat) :
  forall (k k' : nat) (p : Vec),
    getFreeSpotInPatch rs fuel w minX minY maxX maxY dots k = Some (p, k') ->
    exists n : nat,
      p = attempt rs minX minY maxX maxY k n /\ k' = (k + 2 * S n)%nat.
Proof.
  induction fuel as [|fuel IH]; intros k k' p; [discriminate|].
  rewrite getFreeSpotInPatch_step.
  destruct (freeSpot w _ _ dots); cbn [negb].
  - intros [= <- <-]. exists 0%nat. rewrite attempt_first. split; [reflexivity|lia].
  - intros Hrun. destruct (IH _ _ _ Hrun) as (n & -> & ->).
    exists (S n). rewrite attempt_shift. split; [reflexivity|lia].
Qed.

(** X14: whenever getFreeSpotInPatch returns, the draws lying in [0,1) and
    the rectangle being non-empty, the point it returns lies in the
    rectangle and is farther than dotSpacing + 2*dotRadius from every dot
    of the array it was given, and an even, positive number of draws has
    been consumed. *)
Theorem X14_getFreeSpotInPatch_result {QT : Type} (rs : RandomSource)
    (w : World QT) (minX minY maxX maxY : R) (dots : list Dot)
    (fuel k k' : nat) (p : Vec) :
  (forall n : nat, 0 <= rando rs n < 1) -> minX <= maxX -> minY <= maxY ->
  getFreeSpotInPatch rs fuel w minX minY maxX maxY dots k = Some (p, k') ->
  minX <= p.1 <= maxX /\ minY <= p.2 <= maxY /\
  clearOf w p dots /\
  exists n : nat, k' = (k + 2 * S n)%nat.
Proof.
  intros Hrange Hx Hy Hrun.
  destruct (getFreeSpotInPatch_result rs w minX minY maxX maxY dots fuel
              k k' p Hrun) as (n & Hp & Hk).
  pose proof (samplePoint_in_bounds rs minX minY maxX maxY (k + 2 * n)
                Hrange Hx Hy) as [H1 H2].
  unfold attempt in Hp. rewrite <- Hp in H1, H2.
  split; [exact H1|]. split; [exact H2|].
  split; [|exists n; exact Hk].
  exact (getFreeSpotInPatch_clear rs w minX minY maxX maxY dots fuel k k' p
           Hrun).
Qed.

Lemma first_attempt_accepted :
  getFreeSpotInPatch (constantSource (1 / 2) true) 1 (sampleWorld [] [] 1)
                     0 0 100 100 [sampleDot 5 5 (0, 0) true] 0
  = Some ((50, 50), 2%nat).
Proof.
  rewrite getFreeSpotInPatch_step.
  unfold samplePoint; cbn [rando constantSource fst snd].
  replace (1 / 2 * (100 - 0) + 0) with 50 by lra.
  rewrite far_point_accepted. reflexivity.
Qed.

Lemma X14_getFreeSpotInPatch_result_witness :
  0 <= 50 <= 100 /\ 0 <= 50 <= 100 /\
  clearOf (sampleWorld [] [] 1) (50, 50) [sampleDot 5 5 (0, 0) true] /\
  exists n : nat, 2%nat = (0 + 2 * S n)%nat.
Proof.
  apply (X14_getFreeSpotInPatch_result (constantSource (1 / 2) true)
           (sampleWorld [] [] 1) 0 0 100 100 [sampleDot 5 5 (0, 0) true]
           1 0 2 (50, 50));
    [intros n; cbn; lra | lra | lra | exact first_attempt_accepted].
Defined.

(** X15: freeSpot(x, y, dots) is true exactly when the point is farther
    than dotSpacing + 2*dotRadius from the center of every dot of the
    array; so it is true for an empty array, and, that distance being
    non-negative, false at the center of any dot of the array. *)
Theorem X15_freeSpot_characterised {QT : Type} (w : World QT) (px py : R)
    (dots : list Dot) :
  (freeSpot w px py dots = true <-> clearOf w (px, py) dots) /\
  freeSpot w px py [] = true /\
  (forall d : Dot,
     d ∈ dots -> 0 <= dotSpacing w + 2 * dotRadius w ->
     freeSpot w (x d) (y d) dots = false).
Proof.
  split; [apply freeSpot_clearOf|]. split; [reflexivity|].
  intros d Hin Hnonneg.
  destruct (freeSpot w (x d) (y d) dots) eqn:Hfree; [|reflexivity].
  apply freeSpot_clearOf in Hfree. unfold clearOf in Hfree.
  rewrite Forall_forall in Hfree. specialize (Hfree d Hin).
  cbn [fst snd] in Hfree. unfold euclideanDistance in Hfree.
  replace ((x d - x d) ^ 2 + (y d - y d) ^ 2) with 0 in Hfree by ring.
  rewrite sqrt_0 in Hfree. lra.
Qed.

(** ** Pauses and layout *)

(** X16: when a frame reaches the maximum run time, the following paused()
    call puts the run time back to 0 and leaves the state PAUSED; the
    first revision keeps the dots of both patches, the second revision
    empties both arrays; and paused() is idempotent in both revisions. *)
Theorem X16_pause_after_time_out {QT : Type} `{!SpatialIndex QT}
    (rs : RandomSource) (fuel : nat) (w : World QT) (delta : R) :
  runTime w + delta >= maxRunTime w ->
  (let w' := AbstractMotionWorld.paused
               (AbstractMotionWorld.updateDots rs w delta) in
   runTime w' = 0 /\ currentState w' = PAUSED /\
   dotsLeft w' = dotsLeft w /\ dotsRight w' = dotsRight w /\
   AbstractMotionWorld.paused w' = w') /\
  (exists w2 : World QT,
     AbstractMotionWorld2.updateDots rs fuel w delta = Some w2 /\
     let w' := AbstractMotionWorld2.paused w2 in
     runTime w' = 0 /\ currentState w' = PAUSED /\
     dotsLeft w' = [] /\ dotsRight w' = [] /\
     AbstractMotionWorld2.paused w' = w').
Proof.
  intros Hmax. split.
  - unfold AbstractMotionWorld.updateDots.
    rewrite bool_decide_true by exact Hmax.
    unfold AbstractMotionWorld.paused.
    rewrite (bool_decide_true (runTime _ >= _)) by exact Hmax.
    cbn. repeat split. case_bool_decide; reflexivity.
  - eexists. split; [apply updateDots2_pauses, Hmax|].
    unfold AbstractMotionWorld2.paused.
    rewrite (bool_decide_true (runTime _ >= _)) by exact Hmax.
    cbn. repeat split. case_bool_decide; reflexivity.
Qed.

Lemma X16_pause_after_time_out_witness :
  dotsLeft (AbstractMotionWorld.paused
              (AbstractMotionWorld.updateDots (constantSource (1 / 2) true)
                 (sampleWorld (scenarioDots true false) [] 2) 500))
  = scenarioDots true false.
Proof.
  refine (proj1 (proj2 (proj2 (proj1
            (X16_pause_after_time_out (constantSource (1 / 2) true) 0
               (sampleWorld (scenarioDots true false) [] 2) 500 _))))).
  cbn. lra.
Defined.

(** X17: createPatches lays out two patches of the same size and height,
    the right one a gap to the right of the left one, the pair centred on
    the screen center horizontally and vertically; and the rectangle
    handed to the quadtree starts at the left patch and ends exactly at
    the right edge of the right patch. *)
Theorem X17_createPatches_layout (gapPx widthPx heightPx cx cy : R) :
  let '(patchGap, patchLeft, patchRight) :=
    MotionTutorialTrialWorld.createPatches gapPx widthPx heightPx cx cy in
  patchX patchRight = patchX patchLeft + patchWidth patchLeft + patchGap /\
  patchWidth patchRight = patchWidth patchLeft /\
  patchY patchRight = patchY patchLeft /\
  patchHeight patchRight = patchHeight patchLeft /\
  (patchX patchLeft + (patchX patchRight + patchWidth patchRight)) / 2 = cx /\
  patchY patchLeft + patchHeight patchLeft / 2 = cy /\
  patchX (MotionTutorialTrialWorld.quadTreeBounds patchLeft patchGap)
  + patchWidth (MotionTutorialTrialWorld.quadTreeBounds patchLeft patchGap)
  = patchX patchRight + patchWidth patchRight.
Proof.
  unfold MotionTutorialTrialWorld.createPatches,
    MotionTutorialTrialWorld.quadTreeBounds.
  cbn. repeat split; field.
Qed.

(** X18: calculateMaxMin insets the movement bounds inside the patches.
    In the first revision both patches get inner width
    width - 4*thickness; in the second revision the left patch gets
    width - 3*thickness, one thickness more than the right patch, its
    right bound lying thickness further right. *)
Theorem X18_calculateMaxMin_inner_widths {QT : Type} (w : World QT)
    (patchLeft patchRight : Patch) (thickness : R) :
  let w1 := AbstractMotionWorld.calculateMaxMin patchLeft patchRight
              thickness w in
  let w2 := AbstractMotionWorld2.calculateMaxMin patchLeft patchRight
              thickness w in
  leftMaxX w1 - leftMinX w1 = patchWidth patchLeft - 4 * thickness /\
  rightMaxX w1 - rightMinX w1 = patchWidth patchRight - 4 * thickness /\
  leftMaxX w2 - leftMinX w2 = patchWidth patchLeft - 3 * thickness /\
  rightMaxX w2 - rightMinX w2 = patchWidth patchRight - 4 * thickness /\
  leftMaxX w2 = leftMaxX w1 + thickness /\
  patchMaxY w1 - patchMinY w1 = patchHeight patchLeft - 2 * thickness /\
  patchMaxY w2 - patchMinY w2 = patchHeight patchLeft - 2 * thickness.
Proof.
  unfold AbstractMotionWorld.calculateMaxMin,
    AbstractMotionWorld2.calculateMaxMin.
  cbn. repeat split; ring.
Qed.

(** ** Trials: which dots are coherent, where they sit, how long they live *)

Lemma initVelocity_placed (rs : RandomSource) (d : Dot) (k : nat) :
  dotPlaced (initVelocity rs d k).1 (x d, y d) (direction d) (aliveTimer d)
  <-> aliveTimer d = maxAliveTimer d.
Proof.
  unfold initVelocity, dotPlaced.
  destruct d as [px py r dir dt at' mat hm rm sp v rnd].
  destruct dir; cbn; split; intros; intuition congruence.
Qed.

Lemma newDot_placed (rs : RandomSource) (px py r t : R) (dir : Direction)
    (k : nat) :
  dotPlaced (newDot rs px py r dir t k).1 (px, py) dir t /\
  radius (newDot rs px py r dir t k).1 = r.
Proof.
  unfold newDot. split.
  - apply (initVelocity_placed rs (mkDot px py r dir 0 t t 30 30 (2 / 10)
                                     (0, 0) false) k). reflexivity.
  - unfold initVelocity. destruct dir; reflexivity.
Qed.

Lemma reassignDot_placed (rs : RandomSource) (dot : Dot) (p : Vec)
    (dir : Direction) (t : R) (k : nat) :
  dotPlaced (MotionTutorialTrialWorld.reassignDot rs dot p dir t k).1 p dir t /\
  radius (MotionTutorialTrialWorld.reassignDot rs dot p dir t k).1 = radius dot.
Proof.
  unfold MotionTutorialTrialWorld.reassignDot, resetVelocity. split.
  - destruct p as [px py].
    apply (initVelocity_placed rs
             (setTimers (setDirection (setPosition dot px py) dir) t) k).
    reflexivity.
  - unfold initVelocity. destruct dir; reflexivity.
Qed.

(** The test on the running count is the test on the index. *)
Lemma coherent_test_index (N nc i : nat) (cp : R) :
  (i < N)%nat -> (nc <= i)%nat ->
  ((nc < i)%nat -> cp <= INR nc / INR N * 100) ->
  bool_decide (INR nc / INR N * 100 < cp)
  = bool_decide (INR i / INR N * 100 < cp).
Proof.
  intros HiN Hle Hfull.
  destruct (decide (nc = i)) as [->|Hne]; [reflexivity|].
  assert (Hlt : (nc < i)%nat) by lia. specialize (Hfull Hlt).
  assert (HN : 0 < INR N) by (apply lt_0_INR; lia).
  assert (Hmono : INR nc / INR N * 100 <= INR i / INR N * 100).
  { apply Rmult_le_compat_r; [lra|].
    apply Rmult_le_compat_r; [apply Rlt_le, Rinv_0_lt_compat, HN|].
    apply le_INR. lia. }
  rewrite !bool_decide_false by lra. reflexivity.
Qed.

Lemma coherent_cases (N nc i : nat) (cp : R) :
  (i < N)%nat -> (nc <= i)%nat ->
  ((nc < i)%nat -> cp <= INR nc / INR N * 100) ->
  (INR i / INR N * 100 < cp -> nc = i) /\
  (~ INR i / INR N * 100 < cp -> cp <= INR nc / INR N * 100).
Proof.
  intros HiN Hle Hfull.
  assert (HN : 0 < INR N) by (apply lt_0_INR; lia).
  assert (Hmono : INR nc / INR N * 100 <= INR i / INR N * 100).
  { apply Rmult_le_compat_r; [lra|].
    apply Rmult_le_compat_r; [apply Rlt_le, Rinv_0_lt_compat, HN|].
    apply le_INR. lia. }
  split.
  - intros Hlt. destruct (decide (nc = i)); [assumption|].
    assert (Hlt' : (nc < i)%nat) by lia. specialize (Hfull Hlt'). lra.
  - intros Hge. destruct (decide (nc = i)) as [->|Hne]; [lra|].
    apply Hfull. lia.
Qed.

Lemma side_names_differ (s : string) :
  s = "LEFT"%string -> s = "RIGHT"%string -> False.
Proof. intros -> H. discriminate H. Qed.

Lemma if_pair_fst {A : Type} (b : bool) (f : A -> Dot * nat) (u v : A) :
  (if b then f u else f v).1 = (f (if b then u else v)).1.
Proof. destruct b; reflexivity. Qed.

Section TrialSteps.
Context {QT : Type}.
Variable rs : RandomSource.
Variable w : World QT.
Variable coherentDirection : Direction.
Variables sl sr : list Vec.

(** How the coherent count moves in one turn, and what the two slot tests
    of the turn amount to. *)
Lemma counters_step (i nc : nat) :
  (i < numberOfDots w)%nat -> (nc <= i)%nat ->
  ((coherentPatchSide w = "LEFT"%string \/ coherentPatchSide w = "RIGHT"%string) ->
   (nc < i)%nat -> coherencePercent w <= INR nc / INR (numberOfDots w) * 100) ->
  let ccp := INR nc / INR (numberOfDots w) * 100 in
  let bL := MotionTutorialTrialWorld.isCoherentSlot w "LEFT" ccp in
  let bR := MotionTutorialTrialWorld.isCoherentSlot w "RIGHT" ccp in
  let n2 := if bR then S (if bL then S nc else nc)
            else (if bL then S nc else nc) in
  (if bL then coherentDirection else RANDOM)
  = slotDirection w "LEFT" coherentDirection i /\
  (if bR then coherentDirection else RANDOM)
  = slotDirection w "RIGHT" coherentDirection i /\
  (n2 <= S i)%nat /\
  ((coherentPatchSide w = "LEFT"%string \/ coherentPatchSide w = "RIGHT"%string) ->
   (n2 < S i)%nat -> coherencePercent w <= INR n2 / INR (numberOfDots w) * 100).
Proof.
  intros Hi Hle Hfull ccp bL bR n2.
  unfold MotionTutorialTrialWorld.isCoherentSlot in bL, bR.
  unfold slotDirection. subst n2 bL bR ccp.
  destruct (String.eqb_spec (coherentPatchSide w) "LEFT") as [HL|HL];
    destruct (String.eqb_spec (coherentPatchSide w) "RIGHT") as [HR|HR];
    cbn [andb].
  - destruct (side_names_differ _ HL HR).
  - rewrite (coherent_test_index _ nc i _ Hi Hle (Hfull (or_introl HL))).
    split; [reflexivity|]. split; [reflexivity|].
    destruct (coherent_cases _ nc i _ Hi Hle (Hfull (or_introl HL)))
      as [Hyes Hno].
    case_bool_decide as Hc.
    + rewrite (Hyes Hc). split; [lia|]. intros _ Hlt. lia.
    + split; [lia|]. intros _ _. exact (Hno Hc).
  - rewrite (coherent_test_index _ nc i _ Hi Hle (Hfull (or_intror HR))).
    split; [reflexivity|]. split; [reflexivity|].
    destruct (coherent_cases _ nc i _ Hi Hle (Hfull (or_intror HR)))
      as [Hyes Hno].
    case_bool_decide as Hc.
    + rewrite (Hyes Hc). split; [lia|]. intros _ Hlt. lia.
    + split; [lia|]. intros _ _. exact (Hno Hc).
  - split; [reflexivity|]. split; [reflexivity|]. split; [lia|].
    intros [H|H]; contradiction.
Qed.

Lemma createDotsStep_spawned (st : SpawnState) (i : nat) :
  (i < numberOfDots w)%nat -> (i < length sl)%nat -> (i < length sr)%nat ->
  length (spawnLeft st) = i -> length (spawnRight st) = i ->
  Forall (fun d => radius d = dotRadius w) (spawnLeft st) ->
  Forall (fun d => radius d = dotRadius w) (spawnRight st) ->
  spawnedSoFar w coherentDirection sl sr i st ->
  exists st' : SpawnState,
    MotionTutorialTrialWorld.createDotsStep rs w coherentDirection sl sr st i
    = Ok st' /\
    length (spawnLeft st') = S i /\ length (spawnRight st') = S i /\
    Forall (fun d => radius d = dotRadius w) (spawnLeft st') /\
    Forall (fun d => radius d = dotRadius w) (spawnRight st') /\
    spawnedSoFar w coherentDirection sl sr (S i) st'.
Proof.
  intros HiN Hl Hr HlenL HlenR HradL HradR (Hmult & Hle & Hfull & Hdots).
  destruct (readIndex_lt sl i Hl) as (pl & Hpl & Hpl').
  destruct (readIndex_lt sr i Hr) as (pr & Hpr & Hpr').
  destruct (counters_step i (numberOfCoherentDots st)
              HiN Hle Hfull) as (HdirL & HdirR & Hle' & Hfull').
  unfold MotionTutorialTrialWorld.createDotsStep.
  rewrite Hpl. cbn [bind]. rewrite slot_append.
  rewrite Hpr. cbn [bind]. rewrite slot_append.
  eexists. split; [reflexivity|]. cbn [spawnLeft spawnRight].
  rewrite !length_app, HlenL, HlenR. cbn [length].
  rewrite !(if_pair_fst _ (fun dir => newDot rs _ _ _ dir _ _)).
  rewrite HdirL, HdirR, Hmult.
  change (if bool_decide (INR i = dotsToKill w
                                  * INR (multiplierBefore (dotsToKill w) i))
          then S (multiplierBefore (dotsToKill w) i)
          else multiplierBefore (dotsToKill w) i)
    with (multiplierAt (dotsToKill w) i).
  split; [lia|]. split; [lia|].
  split; [apply Forall_app_2; [exact HradL|]; apply Forall_singleton,
                                               newDot_placed|].
  split; [apply Forall_app_2; [exact HradR|]; apply Forall_singleton,
                                               newDot_placed|].
  unfold spawnedSoFar. cbn [maxAliveTimeMultiplier numberOfCoherentDots
                             spawnLeft spawnRight].
  split; [reflexivity|]. split; [exact Hle'|]. split; [exact Hfull'|].
  intros m Hm. destruct (decide (m = i)) as [->|Hne].
  - eexists _, _, pl, pr.
    split; [rewrite lookup_app_r by lia; rewrite HlenL, Nat.sub_diag;
            reflexivity|].
    split; [rewrite lookup_app_r by lia; rewrite HlenR, Nat.sub_diag;
            reflexivity|].
    split; [exact Hpl'|]. split; [exact Hpr'|].
    destruct pl as [plx ply], pr as [prx pry]. split; apply newDot_placed.
  - destruct (Hdots m ltac:(lia)) as (dl & dr & ql & qr & H1 & H2 & H3 & H4
                                      & H5 & H6).
    exists dl, dr, ql, qr.
    split; [rewrite lookup_app_l by lia; exact H1|].
    split; [rewrite lookup_app_l by lia; exact H2|].
    split; [exact H3|]. split; [exact H4|]. split; assumption.
Qed.

Lemma createNewTrialStep_spawned (n : nat) (st : SpawnState) (i : nat) :
  (i < numberOfDots w)%nat -> (i < length sl)%nat -> (i < length sr)%nat ->
  (i < n)%nat ->
  length (spawnLeft st) = n -> length (spawnRight st) = n ->
  spawnedSoFar w coherentDirection sl sr i st ->
  exists st' : SpawnState,
    MotionTutorialTrialWorld.createNewTrialStep rs w coherentDirection sl sr
      st i = Ok st' /\
    length (spawnLeft st') = n /\ length (spawnRight st') = n /\
    radius <$> spawnLeft st' = radius <$> spawnLeft st /\
    radius <$> spawnRight st' = radius <$> spawnRight st /\
    spawnedSoFar w coherentDirection sl sr (S i) st'.
Proof.
  intros HiN Hl Hr Hn HlenL HlenR (Hmult & Hle & Hfull & Hdots).
  destruct (readIndex_lt sl i Hl) as (pl & Hpl & Hpl').
  destruct (readIndex_lt sr i Hr) as (pr & Hpr & Hpr').
  destruct (readIndex_lt (spawnLeft st) i ltac:(lia)) as (dl0 & Hdl & Hdl').
  destruct (readIndex_lt (spawnRight st) i ltac:(lia)) as (dr0 & Hdr & Hdr').
  destruct (counters_step i (numberOfCoherentDots st)
              HiN Hle Hfull) as (HdirL & HdirR & Hle' & Hfull').
  unfold MotionTutorialTrialWorld.createNewTrialStep.
  rewrite Hpl. cbn [bind]. rewrite Hdl. cbn [bind]. rewrite slot_insert.
  rewrite Hpr. cbn [bind]. rewrite Hdr. cbn [bind]. rewrite slot_insert.
  eexists. split; [reflexivity|]. cbn [spawnLeft spawnRight].
  rewrite !length_insert.
  rewrite !(if_pair_fst _ (fun dir =>
              MotionTutorialTrialWorld.reassignDot rs _ _ dir _ _)).
  rewrite HdirL, HdirR, Hmult.
  change (if bool_decide (INR i = dotsToKill w
                                  * INR (multiplierBefore (dotsToKill w) i))
          then S (multiplierBefore (dotsToKill w) i)
          else multiplierBefore (dotsToKill w) i)
    with (multiplierAt (dotsToKill w) i).
  split; [exact HlenL|]. split; [exact HlenR|].
  split; [eapply fmap_insert_same; [exact Hdl'|apply reassignDot_placed]|].
  split; [eapply fmap_insert_same; [exact Hdr'|apply reassignDot_placed]|].
  unfold spawnedSoFar. cbn [maxAliveTimeMultiplier numberOfCoherentDots
                             spawnLeft spawnRight].
  split; [reflexivity|]. split; [exact Hle'|]. split; [exact Hfull'|].
  intros m Hm. destruct (decide (m = i)) as [->|Hne].
  - eexists _, _, pl, pr.
    split; [apply list_lookup_insert_eq; lia|].
    split; [apply list_lookup_insert_eq; lia|].
    split; [exact Hpl'|]. split; [exact Hpr'|].
    split; apply reassignDot_placed.
  - destruct (Hdots m ltac:(lia)) as (dl & dr & ql & qr & H1 & H2 & H3 & H4
                                      & H5 & H6).
    exists dl, dr, ql, qr.
    split; [rewrite list_lookup_insert_ne by lia; exact H1|].
    split; [rewrite list_lookup_insert_ne by lia; exact H2|].
    split; [exact H3|]. split; [exact H4|]. split; assumption.
Qed.
End TrialSteps.

Section TrialRuns.
Context {QT : Type}.
Variable rs : RandomSource.
Variable DirectionName : nat -> string.
Variable w : World QT.
Hypothesis shuffle_length :
  forall (k : nat) (l : list Vec), length (randoSequence rs k l) = length l.
Hypothesis lattice_left : (numberOfDots w <= length (leftGridPoints w))%nat.
Hypothesis lattice_right : (numberOfDots w <= length (rightGridPoints w))%nat.

Let side : string :=
  if rando1 rs (draws w + 2) then DirectionName 0%nat else DirectionName 1%nat.
Let coherentDirection : Direction :=
  if rando1 rs (draws w + 3) then RIGHT else LEFT.
Let w1 : World QT := set_coherentPatchSide w side.
Let sl : list Vec := randoSequence rs (draws w) (leftGridPoints w).
Let sr : list Vec := randoSequence rs (draws w + 1) (rightGridPoints w).

Lemma spawnedSoFar_init (dl dr : list Dot) (k : nat) :
  spawnedSoFar w1 coherentDirection sl sr 0 (mkSpawnState 1 0 dl dr k).
Proof.
  unfold spawnedSoFar. cbn. split; [reflexivity|]. split; [lia|].
  split; intros; lia.
Qed.

Lemma createDots_spawns :
  dotsLeft w = [] -> dotsRight w = [] ->
  exists st : SpawnState,
    MotionTutorialTrialWorld.createDots rs DirectionName w
    = Ok (set_draws (set_dotsRight (set_dotsLeft w1 (spawnLeft st))
                                   (spawnRight st)) (spawnDraws st)) /\
    length (spawnLeft st) = numberOfDots w /\
    length (spawnRight st) = numberOfDots w /\
    Forall (fun d => radius d = dotRadius w) (spawnLeft st) /\
    Forall (fun d => radius d = dotRadius w) (spawnRight st) /\
    spawnedSoFar w1 coherentDirection sl sr (numberOfDots w) st.
Proof.
  intros HemptyL HemptyR.
  unfold MotionTutorialTrialWorld.createDots,
    MotionTutorialTrialWorld.rollTrial.
  cbv zeta iota beta. fold side coherentDirection w1 sl sr.
  edestruct (forRange_invariant
               (fun i st =>
                  length (spawnLeft st) = i /\ length (spawnRight st) = i /\
                  Forall (fun d => radius d = dotRadius w1) (spawnLeft st) /\
                  Forall (fun d => radius d = dotRadius w1) (spawnRight st) /\
                  spawnedSoFar w1 coherentDirection sl sr i st)
               (numberOfDots w1))
    as (st & Hrun & H1 & H2 & H3 & H4 & H5);
    [| | exists st; rewrite Hrun; cbn [bind];
         split; [reflexivity|]; split; [exact H1|]; split; [exact H2|];
         split; [exact H3|]; split; [exact H4|]; exact H5].
  - cbn [spawnLeft spawnRight dotsLeft dotsRight set_coherentPatchSide w1].
    rewrite HemptyL, HemptyR.
    split; [reflexivity|]. split; [reflexivity|].
    split; [constructor|]. split; [constructor|].
    apply spawnedSoFar_init.
  - intros i st Hi (H1 & H2 & H3 & H4 & H5).
    apply createDotsStep_spawned; try assumption;
      unfold sl, sr; rewrite shuffle_length; cbn in Hi; lia.
Qed.

Lemma createNewTrial_spawns :
  length (dotsLeft w) = numberOfDots w ->
  length (dotsRight w) = numberOfDots w ->
  exists st : SpawnState,
    MotionTutorialTrialWorld.createNewTrial rs DirectionName w
    = Ok (set_draws (set_dotsRight (set_dotsLeft w1 (spawnLeft st))
                                   (spawnRight st)) (spawnDraws st)) /\
    length (spawnLeft st) = numberOfDots w /\
    length (spawnRight st) = numberOfDots w /\
    radius <$> spawnLeft st = radius <$> dotsLeft w /\
    radius <$> spawnRight st = radius <$> dotsRight w /\
    spawnedSoFar w1 coherentDirection sl sr (numberOfDots w) st.
Proof.
  intros HlenL HlenR.
  unfold MotionTutorialTrialWorld.createNewTrial,
    MotionTutorialTrialWorld.rollTrial.
  cbv zeta iota beta. fold side coherentDirection w1 sl sr.
  edestruct (forRange_invariant
               (fun i st =>
                  length (spawnLeft st) = numberOfDots w /\
                  length (spawnRight st) = numberOfDots w /\
                  radius <$> spawnLeft st = radius <$> dotsLeft w /\
                  radius <$> spawnRight st = radius <$> dotsRight w /\
                  spawnedSoFar w1 coherentDirection sl sr i st)
               (numberOfDots w1))
    as (st & Hrun & H1 & H2 & H3 & H4 & H5);
    [| | exists st; rewrite Hrun; cbn [bind];
         split; [reflexivity|]; split; [exact H1|]; split; [exact H2|];
         split; [exact H3|]; split; [exact H4|]; exact H5].
  - cbn [spawnLeft spawnRight dotsLeft dotsRight set_coherentPatchSide w1].
    split; [exact HlenL|]. split; [exact HlenR|].
    split; [reflexivity|]. split; [reflexivity|].
    apply spawnedSoFar_init.
  - intros i st Hi (H1 & H2 & H3 & H4 & H5).
    destruct (createNewTrialStep_spawned rs w1 coherentDirection sl sr
                (numberOfDots w) st i) as (st' & Hs & G1 & G2 & G3 & G4 & G5);
      try assumption;
      try (unfold sl, sr; rewrite shuffle_length; cbn in Hi; lia);
      try (cbn in Hi; lia).
    exists st'. split; [exact Hs|].
    split; [exact G1|]. split; [exact G2|].
    split; [rewrite G3; exact H3|]. split; [rewrite G4; exact H4|]. exact G5.
Qed.
End TrialRuns.

Lemma placed_mode {QT : Type} (w : World QT) (side : string)
    (coherentDirection : Direction) (i : nat) (d : Dot) (p : Vec) (t : R) :
  coherentDirection <> RANDOM ->
  dotPlaced d p (slotDirection w side coherentDirection i) t ->
  (isRandom d = false <->
   coherentPatchSide w = side /\
   INR i / INR (numberOfDots w) * 100 < coherencePercent w) /\
  (isRandom d = false -> direction d = coherentDirection) /\
  (isRandom d = true -> direction d = RANDOM).
Proof.
  intros Hcd (_ & _ & Hdir & Hrnd & _ & _). rewrite Hrnd, Hdir.
  unfold slotDirection.
  destruct (String.eqb_spec (coherentPatchSide w) side) as [Hs|Hs];
    cbn [andb]; [case_bool_decide|];
    (destruct coherentDirection; try contradiction; cbn;
     repeat split; intros; try tauto; try discriminate;
     try (destruct H; tauto); try (destruct H0; tauto)).
Qed.

Lemma coherentDirection_not_RANDOM (b : bool) :
  (if b then RIGHT else LEFT) <> RANDOM.
Proof. destruct b; discriminate. Qed.

Lemma multiplierBefore_S (K : R) (i : nat) :
  multiplierBefore K (S i)
  = if bool_decide (INR i = K * INR (multiplierBefore K i))
    then S (multiplierBefore K i) else multiplierBefore K i.
Proof. reflexivity. Qed.

(** With a whole, positive [dotsToKill], the multiplier grows by one every
    [dotsToKill] dots. *)
Lemma multiplierAt_blocks (kk i : nat) :
  (0 < kk)%nat -> multiplierAt (INR kk) i = (1 + i / kk)%nat.
Proof.
  intros Hkk. unfold multiplierAt. induction i as [|i IH].
  - rewrite multiplierBefore_S. cbn [multiplierBefore].
    rewrite bool_decide_false.
    + rewrite Nat.Div0.div_0_l. reflexivity.
    + cbn [INR]. rewrite Rmult_1_r. intros H.
      apply (INR_eq 0 kk) in H. lia.
  - rewrite multiplierBefore_S, IH.
    pose proof (Nat.div_mod i kk ltac:(lia)) as Hdm.
    pose proof (Nat.mod_upper_bound i kk ltac:(lia)) as Hmod.
    set (q := (i / kk)%nat) in *. set (r := (i mod kk)%nat) in *.
    case_bool_decide as Heq.
    + rewrite <- mult_INR in Heq. apply INR_eq in Heq.
      assert (Hdiv : (S i / kk = 1 + q)%nat).
      { rewrite Heq, Nat.mul_comm. apply Nat.div_mul. lia. }
      rewrite Hdiv. reflexivity.
    + assert (Hne : S i <> (kk * (1 + q))%nat).
      { intros H. apply Heq. rewrite H, mult_INR. reflexivity. }
      assert (Hdiv : (S i / kk = q)%nat).
      { symmetry. apply (Nat.div_unique (S i) kk q (S r)); nia. }
      rewrite Hdiv. reflexivity.
Qed.

(** A test on indices that, once failed, stays failed cuts [0, n) at a
    threshold. *)
Lemma threshold_of_test (P : nat -> Prop) (n : nat) :
  (forall i : nat, P i \/ ~ P i) ->
  (forall i j : nat, (i <= j)%nat -> (j < n)%nat -> P j -> P i) ->
  exists c : nat, (c <= n)%nat /\
    forall i : nat, (i < n)%nat -> (P i <-> (i < c)%nat).
Proof.
  intros Hdec. induction n as [|n IH]; intros Hdown.
  - exists 0%nat. split; [lia|]. intros i Hi. lia.
  - destruct IH as (c & Hc & Hcut).
    { intros i j Hij Hj. apply Hdown; lia. }
    destruct (Hdec n) as [Hn|Hn].
    + exists (S n). split; [lia|]. intros i Hi.
      split; [intros _; exact Hi|]. intros _.
      exact (Hdown i n ltac:(lia) ltac:(lia) Hn).
    + exists c. split; [lia|]. intros i Hi.
      destruct (decide (i = n)) as [->|Hne]; [|apply Hcut; lia].
      split; [intros H; contradiction | lia].
Qed.

Lemma percent_monotone (n i j : nat) :
  (0 < n)%nat -> (i <= j)%nat ->
  INR i / INR n * 100 <= INR j / INR n * 100.
Proof.
  intros Hn Hij.
  assert (0 < INR n) by (apply lt_0_INR; exact Hn).
  assert (INR i <= INR j) by (apply le_INR; exact Hij).
  apply Rmult_le_compat_r; [lra|].
  apply Rmult_le_compat_r; [left; apply Rinv_0_lt_compat; assumption|].
  assumption.
Qed.

(** The number of coherent dots of a trial: the coherence test passes
    exactly below a threshold [c], which is 0 when the level is not
    positive, [n] when the level is at least 100, and in between within
    one dot of the level: at least every index that passes the test, at
    most one more than every index that fails it. *)
Lemma coherent_threshold (n : nat) (cp : R) :
  exists c : nat, (c <= n)%nat /\
    (forall i : nat, (i < n)%nat -> (INR i / INR n * 100 < cp <-> (i < c)%nat)) /\
    ((0 < n)%nat -> ((0 < c)%nat <-> 0 < cp)) /\
    (100 <= cp -> c = n) /\
    (forall j : nat, (j <= n)%nat -> INR j / INR n * 100 < cp -> (j <= c)%nat) /\
    (forall j : nat, cp <= INR j / INR n * 100 -> (c <= S j)%nat).
Proof.
  destruct (threshold_of_test (fun i => INR i / INR n * 100 < cp) n)
    as (c & Hc & Hcut).
  { intros i. destruct (Rlt_dec (INR i / INR n * 100) cp); [left|right];
      assumption. }
  { intros i j Hij Hj Hp.
    pose proof (percent_monotone n i j ltac:(lia) Hij). lra. }
  exists c. split; [exact Hc|]. split; [exact Hcut|].
  split; [|split; [|split]].
  - intros Hn. rewrite <- (Hcut 0%nat Hn). cbn [INR].
    replace (0 / INR n * 100) with 0 by (unfold Rdiv; ring). tauto.
  - intros Hfull. destruct (decide (c = n)) as [|Hne]; [assumption|].
    assert (Hlt : (c < n)%nat) by lia.
    assert (Hp : INR c / INR n * 100 < cp).
    { assert (0 < INR n) by (apply lt_0_INR; lia).
      assert (INR c < INR n) by (apply lt_INR; exact Hlt).
      assert (INR c / INR n < 1)
        by (apply (Rmult_lt_reg_r (INR n)); [assumption|];
            unfold Rdiv; rewrite Rmult_assoc, Rinv_l by lra; lra).
      lra. }
    apply (Hcut c Hlt) in Hp. lia.
  - intros j Hj Hp. destruct (le_lt_dec j c) as [|Hlt]; [assumption|].
    assert (Hcn : (c < n)%nat) by lia.
    pose proof (percent_monotone n c j ltac:(lia) ltac:(lia)) as Hmono.
    assert (Hpc : INR c / INR n * 100 < cp) by lra.
    apply (Hcut c Hcn) in Hpc. lia.
  - intros j Hfail. destruct (le_lt_dec c (S j)) as [|Hlt]; [assumption|].
    assert (Hjn : (j < n)%nat) by lia.
    assert (Hp : INR j / INR n * 100 < cp) by (apply (Hcut j Hjn); lia).
    lra.
Qed.

(** X19: createDots, run on empty arrays with lattices of at least
    numberOfDots points, returns with numberOfDots dots per patch; dot i
    of each patch sits on point i of the shuffled lattice of its patch
    and has the radius of the world.  The coherent dots are the first c
    dots of the patch named by coherentPatchSide, Fixed with the coherent
    direction, and every other dot is Random; c is 0 exactly when
    coherencePercent is not positive, numberOfDots when it is at least
    100, and otherwise within one dot of the level: c is at least every
    index j with j / numberOfDots * 100 < coherencePercent and at most
    one more than every index j with
    coherencePercent <= j / numberOfDots * 100.  (The source compares
    rounded values, so for an index whose percentage equals the level up
    to rounding the test can fall either way; the bounds on c hold either
    way.) *)
Theorem X19_createDots_places_coherent_dots_first {QT : Type}
    (rs : RandomSource) (DirectionName : nat -> string) (w : World QT) :
  (forall (k : nat) (l : list Vec), length (randoSequence rs k l) = length l) ->
  (numberOfDots w <= length (leftGridPoints w))%nat ->
  (numberOfDots w <= length (rightGridPoints w))%nat ->
  dotsLeft w = [] -> dotsRight w = [] ->
  exists (w' : World QT) (c : nat),
    MotionTutorialTrialWorld.createDots rs DirectionName w = Ok w' /\
    length (dotsLeft w') = numberOfDots w /\
    length (dotsRight w') = numberOfDots w /\
    (c <= numberOfDots w)%nat /\
    ((0 < numberOfDots w)%nat -> ((0 < c)%nat <-> 0 < coherencePercent w)) /\
    (100 <= coherencePercent w -> c = numberOfDots w) /\
    (forall j : nat, (j <= numberOfDots w)%nat ->
       INR j / INR (numberOfDots w) * 100 < coherencePercent w ->
       (j <= c)%nat) /\
    (forall j : nat,
       coherencePercent w <= INR j / INR (numberOfDots w) * 100 ->
       (c <= S j)%nat) /\
    forall i : nat, (i < numberOfDots w)%nat ->
      exists dl dr : Dot,
        dotsLeft w' !! i = Some dl /\ dotsRight w' !! i = Some dr /\
        randoSequence rs (draws w) (leftGridPoints w) !! i
        = Some (x dl, y dl) /\
        randoSequence rs (draws w + 1) (rightGridPoints w) !! i
        = Some (x dr, y dr) /\
        radius dl = dotRadius w /\ radius dr = dotRadius w /\
        (isRandom dl = false <->
         coherentPatchSide w' = "LEFT"%string /\ (i < c)%nat) /\
        (isRandom dr = false <->
         coherentPatchSide w' = "RIGHT"%string /\ (i < c)%nat) /\
        (isRandom dl = false ->
         direction dl = if rando1 rs (draws w + 3) then RIGHT else LEFT) /\
        (isRandom dr = false ->
         direction dr = if rando1 rs (draws w + 3) then RIGHT else LEFT).
Proof.
  intros Hshuffle HgridL HgridR HemptyL HemptyR.
  destruct (createDots_spawns rs DirectionName w Hshuffle HgridL HgridR
              HemptyL HemptyR)
    as (st & Hrun & HlenL & HlenR & HradL & HradR & _ & _ & _ & Hdots).
  destruct (coherent_threshold (numberOfDots w) (coherencePercent w))
    as (c & Hc & Hcut & Hzero & Hfull & Hlow & Hhigh).
  eexists _, c. split; [exact Hrun|]. cbn [dotsLeft dotsRight set_draws
    set_dotsRight set_dotsLeft].
  split; [exact HlenL|]. split; [exact HlenR|]. split; [exact Hc|].
  split; [exact Hzero|]. split; [exact Hfull|]. split; [exact Hlow|].
  split; [exact Hhigh|].
  intros i Hi.
  destruct (Hdots i Hi) as (dl & dr & pl & pr & H1 & H2 & H3 & H4 & H5 & H6).
  exists dl, dr.
  destruct (placed_mode _ _ _ _ _ _ _
              (coherentDirection_not_RANDOM _) H5) as (M1 & M2 & _).
  destruct (placed_mode _ _ _ _ _ _ _
              (coherentDirection_not_RANDOM _) H6) as (M3 & M4 & _).
  destruct H5 as (X1 & Y1 & _). destruct H6 as (X2 & Y2 & _).
  cbn [numberOfDots coherencePercent set_coherentPatchSide] in M1, M3.
  rewrite (Hcut i Hi) in M1, M3.
  split; [exact H1|]. split; [exact H2|].
  split; [etransitivity; [exact H3|]; rewrite X1, Y1; destruct pl;
          reflexivity|].
  split; [etransitivity; [exact H4|]; rewrite X2, Y2; destruct pr;
          reflexivity|].
  split; [exact (proj1 (Forall_lookup _ _) HradL i dl H1)|].
  split; [exact (proj1 (Forall_lookup _ _) HradR i dr H2)|].
  split; [exact M1|]. split; [exact M3|]. split; [exact M2 | exact M4].
Qed.

Lemma X19_createDots_places_coherent_dots_first_witness :
  exists (w' : World (list nat)) (c : nat),
    MotionTutorialTrialWorld.createDots (constantSource (1 / 2) true)
      sampleDirectionName (sampleWorld [] [] 2) = Ok w' /\
    length (dotsLeft w') = 2%nat /\ length (dotsRight w') = 2%nat /\
    (c <= 2)%nat /\
    ((0 < 2)%nat -> ((0 < c)%nat <-> 0 < 50)) /\
    (100 <= 50 -> c = 2%nat) /\
    (forall j : nat, (j <= 2)%nat -> INR j / INR 2 * 100 < 50 -> (j <= c)%nat) /\
    (forall j : nat, 50 <= INR j / INR 2 * 100 -> (c <= S j)%nat) /\
    forall i : nat, (i < 2)%nat ->
      exists dl dr : Dot,
        dotsLeft w' !! i = Some dl /\ dotsRight w' !! i = Some dr /\
        [(10, 10); (30, 30)] !! i = Some (x dl, y dl) /\
        [(130, 10); (150, 30)] !! i = Some (x dr, y dr) /\
        radius dl = 5 /\ radius dr = 5 /\
        (isRandom dl = false <->
         coherentPatchSide w' = "LEFT"%string /\ (i < c)%nat) /\
        (isRandom dr = false <->
         coherentPatchSide w' = "RIGHT"%string /\ (i < c)%nat) /\
        (isRandom dl = false -> direction dl = RIGHT) /\
        (isRandom dr = false -> direction dr = RIGHT).
Proof.
  apply (X19_createDots_places_coherent_dots_first
           (constantSource (1 / 2) true) sampleDirectionName
           (sampleWorld [] [] 2) (fun _ _ => eq_refl));
    (cbn; lia) || reflexivity.
Defined.

(** X20: createNewTrial, run on a world with numberOfDots dots per patch
    and lattices of at least numberOfDots points, returns with the same
    arrays reassigned: every dot keeps its radius, and dot i of each patch
    moves to point i of the freshly shuffled lattice of its patch.  The
    coherent dots are the first c dots of the patch named by the new
    coherentPatchSide, Fixed with the coherent direction, and every other
    dot is Random; c is 0 exactly when coherencePercent is not positive,
    numberOfDots when it is at least 100, and otherwise within one dot of
    the level, as for createDots. *)
Theorem X20_createNewTrial_reassigns_dots {QT : Type}
    (rs : RandomSource) (DirectionName : nat -> string) (w : World QT) :
  (forall (k : nat) (l : list Vec), length (randoSequence rs k l) = length l) ->
  (numberOfDots w <= length (leftGridPoints w))%nat ->
  (numberOfDots w <= length (rightGridPoints w))%nat ->
  length (dotsLeft w) = numberOfDots w ->
  length (dotsRight w) = numberOfDots w ->
  exists (w' : World QT) (c : nat),
    MotionTutorialTrialWorld.createNewTrial rs DirectionName w = Ok w' /\
    radius <$> dotsLeft w' = radius <$> dotsLeft w /\
    radius <$> dotsRight w' = radius <$> dotsRight w /\
    (c <= numberOfDots w)%nat /\
    ((0 < numberOfDots w)%nat -> ((0 < c)%nat <-> 0 < coherencePercent w)) /\
    (100 <= coherencePercent w -> c = numberOfDots w) /\
    (forall j : nat, (j <= numberOfDots w)%nat ->
       INR j / INR (numberOfDots w) * 100 < coherencePercent w ->
       (j <= c)%nat) /\
    (forall j : nat,
       coherencePercent w <= INR j / INR (numberOfDots w) * 100 ->
       (c <= S j)%nat) /\
    forall i : nat, (i < numberOfDots w)%nat ->
      exists dl dr : Dot,
        dotsLeft w' !! i = Some dl /\ dotsRight w' !! i = Some dr /\
        randoSequence rs (draws w) (leftGridPoints w) !! i
        = Some (x dl, y dl) /\
        randoSequence rs (draws w + 1) (rightGridPoints w) !! i
        = Some (x dr, y dr) /\
        (isRandom dl = false <->
         coherentPatchSide w' = "LEFT"%string /\ (i < c)%nat) /\
        (isRandom dr = false <->
         coherentPatchSide w' = "RIGHT"%string /\ (i < c)%nat) /\
        (isRandom dl = false ->
         direction dl = if rando1 rs (draws w + 3) then RIGHT else LEFT) /\
        (isRandom dr = false ->
         direction dr = if rando1 rs (draws w + 3) then RIGHT else LEFT).
Proof.
  intros Hshuffle HgridL HgridR HlenL HlenR.
  destruct (createNewTrial_spawns rs DirectionName w Hshuffle HgridL HgridR
              HlenL HlenR)
    as (st & Hrun & _ & _ & HradL & HradR & _ & _ & _ & Hdots).
  destruct (coherent_threshold (numberOfDots w) (coherencePercent w))
    as (c & Hc & Hcut & Hzero & Hfull & Hlow & Hhigh).
  eexists _, c. split; [exact Hrun|]. cbn [dotsLeft dotsRight set_draws
    set_dotsRight set_dotsLeft set_coherentPatchSide].
  split; [exact HradL|]. split; [exact HradR|]. split; [exact Hc|].
  split; [exact Hzero|]. split; [exact Hfull|]. split; [exact Hlow|].
  split; [exact Hhigh|].
  intros i Hi.
  destruct (Hdots i Hi) as (dl & dr & pl & pr & H1 & H2 & H3 & H4 & H5 & H6).
  exists dl, dr.
  destruct (placed_mode _ _ _ _ _ _ _
              (coherentDirection_not_RANDOM _) H5) as (M1 & M2 & _).
  destruct (placed_mode _ _ _ _ _ _ _
              (coherentDirection_not_RANDOM _) H6) as (M3 & M4 & _).
  destruct H5 as (X1 & Y1 & _). destruct H6 as (X2 & Y2 & _).
  cbn [numberOfDots coherencePercent set_coherentPatchSide] in M1, M3.
  rewrite (Hcut i Hi) in M1, M3.
  split; [exact H1|]. split; [exact H2|].
  split; [etransitivity; [exact H3|]; rewrite X1, Y1; destruct pl;
          reflexivity|].
  split; [etransitivity; [exact H4|]; rewrite X2, Y2; destruct pr;
          reflexivity|].
  split; [exact M1|]. split; [exact M3|]. split; [exact M2 | exact M4].
Qed.

Lemma X20_createNewTrial_reassigns_dots_witness :
  exists (w' : World (list nat)) (c : nat),
    MotionTutorialTrialWorld.createNewTrial (constantSource (1 / 2) true)
      sampleDirectionName
      (sampleWorld (scenarioDots true false) (scenarioDots false true) 2)
    = Ok w' /\
    radius <$> dotsLeft w' = radius <$> scenarioDots true false /\
    radius <$> dotsRight w' = radius <$> scenarioDots false true /\
    (c <= 2)%nat /\
    ((0 < 2)%nat -> ((0 < c)%nat <-> 0 < 50)) /\
    (100 <= 50 -> c = 2%nat) /\
    (forall j : nat, (j <= 2)%nat -> INR j / INR 2 * 100 < 50 -> (j <= c)%nat) /\
    (forall j : nat, 50 <= INR j / INR 2 * 100 -> (c <= S j)%nat) /\
    forall i : nat, (i < 2)%nat ->
      exists dl dr : Dot,
        dotsLeft w' !! i = Some dl /\ dotsRight w' !! i = Some dr /\
        [(10, 10); (30, 30)] !! i = Some (x dl, y dl) /\
        [(130, 10); (150, 30)] !! i = Some (x dr, y dr) /\
        (isRandom dl = false <->
         coherentPatchSide w' = "LEFT"%string /\ (i < c)%nat) /\
        (isRandom dr = false <->
         coherentPatchSide w' = "RIGHT"%string /\ (i < c)%nat) /\
        (isRandom dl = false -> direction dl = RIGHT) /\
        (isRandom dr = false -> direction dr = RIGHT).
Proof.
  apply (X20_createNewTrial_reassigns_dots
           (constantSource (1 / 2) true) sampleDirectionName
           (sampleWorld (scenarioDots true false) (scenarioDots false true) 2)
           (fun _ _ => eq_refl));
    (cbn; lia) || reflexivity.
Defined.

Lemma spawned_lifetimes {QT : Type} (w : World QT) (cd : Direction)
    (sl sr : list Vec) (n kk : nat) (st : SpawnState) :
  dotsToKill w = INR kk -> (0 < kk)%nat ->
  spawnedSoFar w cd sl sr n st ->
  lifetimesStaggered (dotMaxAliveTime w) kk (spawnLeft st) n /\
  lifetimesStaggered (dotMaxAliveTime w) kk (spawnRight st) n.
Proof.
  intros HK Hkk (_ & _ & _ & Hdots).
  split; intros i Hi;
    destruct (Hdots i Hi) as (dl & dr & pl & pr & H1 & H2 & _ & _ & H5 & H6);
    rewrite HK, multiplierAt_blocks in H5, H6 by exact Hkk;
    destruct H5 as (_ & _ & _ & _ & A1 & M1);
    destruct H6 as (_ & _ & _ & _ & A2 & M2);
    [exists dl | exists dr]; (split; [assumption|]); split; congruence.
Qed.

(** X21: with a whole, positive dotsToKill, createDots and createNewTrial
    stagger the lifetimes in blocks of dotsToKill dots: dot i of each
    patch gets the lifetime dotMaxAliveTime * (1 + i div dotsToKill), both
    as its running timer and as the maximum it is respawned with. *)
Theorem X21_trial_lifetimes_are_staggered {QT : Type} (rs : RandomSource)
    (DirectionName : nat -> string) (w : World QT) (kk : nat) :
  (forall (k : nat) (l : list Vec), length (randoSequence rs k l) = length l) ->
  (numberOfDots w <= length (leftGridPoints w))%nat ->
  (numberOfDots w <= length (rightGridPoints w))%nat ->
  dotsToKill w = INR kk -> (0 < kk)%nat ->
  (dotsLeft w = [] -> dotsRight w = [] ->
   exists w' : World QT,
     MotionTutorialTrialWorld.createDots rs DirectionName w = Ok w' /\
     lifetimesStaggered (dotMaxAliveTime w) kk (dotsLeft w') (numberOfDots w) /\
     lifetimesStaggered (dotMaxAliveTime w) kk (dotsRight w')
                        (numberOfDots w)) /\
  (length (dotsLeft w) = numberOfDots w ->
   length (dotsRight w) = numberOfDots w ->
   exists w' : World QT,
     MotionTutorialTrialWorld.createNewTrial rs DirectionName w = Ok w' /\
     lifetimesStaggered (dotMaxAliveTime w) kk (dotsLeft w') (numberOfDots w) /\
     lifetimesStaggered (dotMaxAliveTime w) kk (dotsRight w')
                        (numberOfDots w)).
Proof.
  intros Hshuffle HgridL HgridR HK Hkk. split.
  - intros HemptyL HemptyR.
    destruct (createDots_spawns rs DirectionName w Hshuffle HgridL HgridR
                HemptyL HemptyR) as (st & Hrun & _ & _ & _ & _ & Hsp).
    eexists. split; [exact Hrun|].
    exact (spawned_lifetimes (set_coherentPatchSide w _) _ _ _ _ kk st HK Hkk
             Hsp).
  - intros HlenL HlenR.
    destruct (createNewTrial_spawns rs DirectionName w Hshuffle HgridL HgridR
                HlenL HlenR) as (st & Hrun & _ & _ & _ & _ & Hsp).
    eexists. split; [exact Hrun|].
    exact (spawned_lifetimes (set_coherentPatchSide w _) _ _ _ _ kk st HK Hkk
             Hsp).
Qed.

Lemma X21_trial_lifetimes_are_staggered_witness :
  exists w' : World (list nat),
    MotionTutorialTrialWorld.createDots (constantSource (1 / 2) true)
      sampleDirectionName (sampleWorld [] [] 2) = Ok w' /\
    lifetimesStaggered 1000 1 (dotsLeft w') 2 /\
    lifetimesStaggered 1000 1 (dotsRight w') 2.
Proof.
  apply (proj1 (X21_trial_lifetimes_are_staggered
                  (constantSource (1 / 2) true) sampleDirectionName
                  (sampleWorld [] [] 2) 1 (fun _ _ => eq_refl)
                  ltac:(cbn; lia) ltac:(cbn; lia) eq_refl ltac:(lia)));
    reflexivity.
Defined.

(** ** The trial state machine *)



Lemma spawned_nonCoherent {QT : Type} (w : World QT) (cd : Direction)
    (sl sr : list Vec) (st : SpawnState) :
  length (spawnLeft st) = numberOfDots w ->
  length (spawnRight st) = numberOfDots w ->
  spawnedSoFar w cd sl sr (numberOfDots w) st ->
  (coherentPatchSide w <> "LEFT"%string ->
   Forall inRandomMode (spawnLeft st)) /\
  (coherentPatchSide w <> "RIGHT"%string ->
   Forall inRandomMode (spawnRight st)).
Proof.
  intros HlenL HlenR (_ & _ & _ & Hdots).
  split; intros Hside; apply Forall_lookup; intros i d Hd;
    pose proof (lookup_lt_Some _ _ _ Hd) as Hi;
    destruct (Hdots i ltac:(lia))
      as (dl & dr & pl & pr & H1 & H2 & _ & _ & H5 & H6).
  - assert (d = dl) by congruence. subst d.
    destruct H5 as (_ & _ & Hdir & Hrnd & _). unfold slotDirection in *.
    destruct (String.eqb_spec (coherentPatchSide w) "LEFT");
      [contradiction|]. cbn [andb] in *.
    split; [rewrite Hrnd; reflexivity | exact Hdir].
  - assert (d = dr) by congruence. subst d.
    destruct H6 as (_ & _ & Hdir & Hrnd & _). unfold slotDirection in *.
    destruct (String.eqb_spec (coherentPatchSide w) "RIGHT");
      [contradiction|]. cbn [andb] in *.
    split; [rewrite Hrnd; reflexivity | exact Hdir].
Qed.



(** ** The spawn lattice *)

Lemma remainder_nonneg (a b : R) : 0 <= a -> 0 < b -> 0 <= remainder a b.
Proof.
  intros Ha Hb. unfold remainder, Ztrunc.
  assert (Hq : 0 <= a / b)
    by (apply Rmult_le_pos; [exact Ha | left; apply Rinv_0_lt_compat; exact Hb]).
  rewrite bool_decide_true by exact Hq.
  destruct (Zfloor_bound (a / b)) as [Hlo _].
  apply (Rmult_le_compat_l b) in Hlo; [|lra].
  replace (b * (a / b)) with a in Hlo by (field; lra). lra.
Qed.

Lemma Math_floor_nonneg (r : R) : 0 <= r -> 0 <= Math_floor r.
Proof.
  intros Hr. unfold Math_floor. apply IZR_le. apply Zfloor_lub. exact Hr.
Qed.

Lemma Math_floor_le (r : R) : Math_floor r <= r.
Proof. unfold Math_floor. apply Zfloor_bound. Qed.

Lemma lattice_lines_le (extent spacing : R) :
  0 <= extent -> 0 < spacing ->
  (Zfloor ((Math_floor extent - remainder (Math_floor extent) spacing)
           / spacing)
   <= Zfloor (extent / spacing))%Z.
Proof.
  intros He Hs. apply Zfloor_le.
  pose proof (Math_floor_le extent).
  pose proof (remainder_nonneg (Math_floor extent) spacing
                (Math_floor_nonneg extent He) Hs).
  apply Rmult_le_compat_r; [left; apply Rinv_0_lt_compat; exact Hs | lra].
Qed.

Lemma length_flat_map_le {A B : Type} (f : A -> list B) (l : list A)
    (c : nat) :
  (forall a, (length (f a) <= c)%nat) ->
  (length (flat_map f l) <= length l * c)%nat.
Proof.
  intros Hf. induction l as [|a l IH]; cbn [flat_map length]; [lia|].
  rewrite length_app. specialize (Hf a). lia.
Qed.

Lemma createGridPoints_bounds (numberOfDots : nat)
    (xMin xMax yMin yMax spacing : R) (gridPoints : list Vec) :
  xMin <= xMax -> yMin <= yMax -> 0 < spacing ->
  MotionTutorialTrialWorld.createGridPoints numberOfDots xMin xMax yMin yMax
    spacing = Ok gridPoints ->
  Forall (fun p : Vec => xMin <= p.1 <= xMax /\ yMin <= p.2 <= yMax)
         gridPoints /\
  (length gridPoints
   <= Z.to_nat (Zfloor ((xMax - xMin) / spacing))
      * Z.to_nat (Zfloor ((yMax - yMin) / spacing)))%nat.
Proof.
  intros Hx Hy Hs. unfold MotionTutorialTrialWorld.createGridPoints.
  cbv zeta. case_bool_decide as Hroom; [discriminate|].
  intros Hok. injection Hok as <-.
  assert (Hxe : 0 <= xMax - xMin) by lra.
  pose proof (remainder_nonneg (Math_floor (xMax - xMin)) spacing
                (Math_floor_nonneg _ Hxe) Hs) as Hxo.
  assert (Hye : 0 <= yMax - yMin) by lra.
  pose proof (remainder_nonneg (Math_floor (yMax - yMin)) spacing
                (Math_floor_nonneg _ Hye) Hs) as Hyo.
  split.
  - apply Forall_forall. intros p Hp. apply list_elem_of_In in Hp.
    apply in_flat_map in Hp. destruct Hp as (i & _ & Hp).
    apply in_flat_map in Hp. destruct Hp as (j & _ & Hp).
    repeat case_bool_decide; cbn [andb] in Hp;
      try (destruct Hp; fail).
    destruct Hp as [<- | []]. cbn [fst snd]. lra.
  - etransitivity.
    { apply length_flat_map_le with
        (c := Z.to_nat (Zfloor ((yMax - yMin) / spacing))).
      intros i. etransitivity.
      - apply length_flat_map_le with (c := 1%nat).
        intros j. destruct (_ && _); cbn; lia.
      - rewrite length_seq, Nat.mul_1_r.
        pose proof (lattice_lines_le (yMax - yMin) spacing Hye Hs).
        lia. }
    rewrite length_seq.
    pose proof (lattice_lines_le (xMax - xMin) spacing Hxe Hs).
    apply Nat.mul_le_mono_r. lia.
Qed.

(** X24: when the area is not empty and the spacing positive, every point
    that createGridPoints returns lies inside the area given, and there
    are at most floor(width / spacing) * floor(height / spacing) of
    them. *)
Theorem X24_createGridPoints_inside_area (numberOfDots : nat)
    (xMin xMax yMin yMax spacing : R) (gridPoints : list Vec) :
  xMin <= xMax -> yMin <= yMax -> 0 < spacing ->
  MotionTutorialTrialWorld.createGridPoints numberOfDots xMin xMax yMin yMax
    spacing = Ok gridPoints ->
  Forall (fun p : Vec => xMin <= p.1 <= xMax /\ yMin <= p.2 <= yMax)
         gridPoints /\
  (length gridPoints
   <= Z.to_nat (Zfloor ((xMax - xMin) / spacing))
      * Z.to_nat (Zfloor ((yMax - yMin) / spacing)))%nat.
Proof. apply createGridPoints_bounds. Qed.

Lemma X24_createGridPoints_inside_area_witness :
  exists gridPoints : list Vec,
    MotionTutorialTrialWorld.createGridPoints 1 0 1 0 1 1 = Ok gridPoints /\
    Forall (fun p : Vec => 0 <= p.1 <= 1 /\ 0 <= p.2 <= 1) gridPoints /\
    (length gridPoints
     <= Z.to_nat (Zfloor ((1 - 0) / 1)) * Z.to_nat (Zfloor ((1 - 0) / 1)))%nat.
Proof.
  assert (Hrun : MotionTutorialTrialWorld.createGridPoints 1 0 1 0 1 1
                 = Ok [(0 + 0 / 2 + sin (INR 0) + INR 0 * 1,
                        0 + 0 / 2 + sin (INR 0) + INR 0 * 1)]).
  { unfold MotionTutorialTrialWorld.createGridPoints.
    replace (1 - 0) with 1 by lra.
    rewrite !Math_floor_IZR, !remainder_unit.
    replace ((1 - 0) / 1) with 1 by field.
    rewrite !ZfloorZ.
    rewrite bool_decide_false by (cbn; lra).
    change (Z.to_nat 1) with 1%nat. cbn [seq flat_map app].
    cbn [INR]. rewrite sin_0.
    rewrite !bool_decide_true by lra. reflexivity. }
  eexists. split; [exact Hrun|].
  apply (X24_createGridPoints_inside_area 1 0 1 0 1 1); [lra | lra | lra |].
  exact Hrun.
Defined.

(** ** Lattices that are too short *)

Lemma forRange_only_throws {S : Type} (e : Exception) (n : nat)
    (body : S -> nat -> Result S) (init : S) :
  (forall st i e', body st i = Throw e' -> e' = e) ->
  forall e', MotionTutorialTrialWorld.forRange n body init = Throw e' -> e' = e.
Proof.
  intros Hbody. induction n as [|n IH]; intros e' Hrun.
  - discriminate Hrun.
  - rewrite forRange_S in Hrun.
    destruct (MotionTutorialTrialWorld.forRange n body init) as [st|e0] eqn:Hn;
      cbn [bind] in Hrun.
    + exact (Hbody _ _ _ Hrun).
    + injection Hrun as <-. apply IH. reflexivity.
Qed.

(** A loop whose body throws only [e], and throws at every turn from [m]
    on, throws [e] when it has more than [m] turns. *)
Lemma forRange_throws {S : Type} (e : Exception) (m n : nat)
    (body : S -> nat -> Result S) (init : S) :
  (m < n)%nat ->
  (forall st i e', body st i = Throw e' -> e' = e) ->
  (forall st i, (m <= i)%nat -> body st i = Throw e) ->
  MotionTutorialTrialWorld.forRange n body init = Throw e.
Proof.
  intros Hm Honly Hlate. destruct n as [|n]; [lia|].
  rewrite forRange_S.
  destruct (MotionTutorialTrialWorld.forRange n body init) as [st|e0] eqn:Hn;
    cbn [bind].
  - apply Hlate. lia.
  - f_equal. exact (forRange_only_throws e n body init Honly e0 Hn).
Qed.

Ltac spawn_step_cases :=
  repeat (match goal with
          | |- context [match ?l !! ?i with _ => _ end] =>
              destruct (l !! i) eqn:?
          | |- context [if ?b then _ else _] => destruct b eqn:?
          | |- context [let '(_, _) := ?p in _] => destruct p eqn:?
          end; cbn [bind]).

Section ShortLattice.
Context {QT : Type}.
Variable rs : RandomSource.
Variable w : World QT.
Variable coherentDirection : Direction.
Variables sl sr : list Vec.

Lemma createDotsStep_only_TypeError (st : SpawnState) (i : nat)
    (e : Exception) :
  MotionTutorialTrialWorld.createDotsStep rs w coherentDirection sl sr st i
  = Throw e -> e = TypeError.
Proof.
  unfold MotionTutorialTrialWorld.createDotsStep, readIndex. cbv zeta.
  spawn_step_cases; intros H; first [discriminate H | injection H as <-];
    reflexivity.
Qed.

Lemma createDotsStep_reads (st st' : SpawnState) (i : nat) :
  MotionTutorialTrialWorld.createDotsStep rs w coherentDirection sl sr st i
  = Ok st' -> (i < length sl)%nat /\ (i < length sr)%nat.
Proof.
  unfold MotionTutorialTrialWorld.createDotsStep, readIndex. cbv zeta.
  spawn_step_cases; intros H; try discriminate H;
    split; eapply lookup_lt_Some; eassumption.
Qed.

Lemma createNewTrialStep_only_TypeError (st : SpawnState) (i : nat)
    (e : Exception) :
  MotionTutorialTrialWorld.createNewTrialStep rs w coherentDirection sl sr st i
  = Throw e -> e = TypeError.
Proof.
  unfold MotionTutorialTrialWorld.createNewTrialStep, readIndex. cbv zeta.
  spawn_step_cases; intros H; first [discriminate H | injection H as <-];
    reflexivity.
Qed.

Lemma createNewTrialStep_reads (st st' : SpawnState) (i : nat) :
  MotionTutorialTrialWorld.createNewTrialStep rs w coherentDirection sl sr st i
  = Ok st' -> (i < length sl)%nat /\ (i < length sr)%nat.
Proof.
  unfold MotionTutorialTrialWorld.createNewTrialStep, readIndex. cbv zeta.
  spawn_step_cases; intros H; try discriminate H;
    split; eapply lookup_lt_Some; eassumption.
Qed.

Lemma createDotsStep_short (st : SpawnState) (i : nat) :
  (length sl <= i \/ length sr <= i)%nat ->
  MotionTutorialTrialWorld.createDotsStep rs w coherentDirection sl sr st i
  = Throw TypeError.
Proof.
  intros Hshort.
  destruct (MotionTutorialTrialWorld.createDotsStep
              rs w coherentDirection sl sr st i) as [st'|e] eqn:Hstep.
  - apply createDotsStep_reads in Hstep. lia.
  - f_equal. exact (createDotsStep_only_TypeError _ _ _ Hstep).
Qed.

Lemma createNewTrialStep_short (st : SpawnState) (i : nat) :
  (length sl <= i \/ length sr <= i)%nat ->
  MotionTutorialTrialWorld.createNewTrialStep rs w coherentDirection sl sr st i
  = Throw TypeError.
Proof.
  intros Hshort.
  destruct (MotionTutorialTrialWorld.createNewTrialStep
              rs w coherentDirection sl sr st i) as [st'|e] eqn:Hstep.
  - apply createNewTrialStep_reads in Hstep. lia.
  - f_equal. exact (createNewTrialStep_only_TypeError _ _ _ Hstep).
Qed.

End ShortLattice.

Lemma createDots_short_lattice {QT : Type} (rs : RandomSource)
    (DirectionName : nat -> string) (w : World QT) :
  (forall (k : nat) (l : list Vec),
     length (randoSequence rs k l) = length l) ->
  (length (leftGridPoints w) < numberOfDots w
   \/ length (rightGridPoints w) < numberOfDots w)%nat ->
  MotionTutorialTrialWorld.createDots rs DirectionName w = Throw TypeError.
Proof.
  intros Hshuffle Hshort.
  unfold MotionTutorialTrialWorld.createDots,
    MotionTutorialTrialWorld.rollTrial. cbv zeta iota beta.
  rewrite (forRange_throws TypeError
             (Nat.min (length (leftGridPoints w))
                      (length (rightGridPoints w)))).
  - reflexivity.
  - cbn. lia.
  - intros st i e. apply createDotsStep_only_TypeError.
  - intros st i Hi. apply createDotsStep_short.
    rewrite !Hshuffle. lia.
Qed.

Lemma createNewTrial_short_lattice {QT : Type} (rs : RandomSource)
    (DirectionName : nat -> string) (w : World QT) :
  (forall (k : nat) (l : list Vec),
     length (randoSequence rs k l) = length l) ->
  (length (leftGridPoints w) < numberOfDots w
   \/ length (rightGridPoints w) < numberOfDots w)%nat ->
  MotionTutorialTrialWorld.createNewTrial rs DirectionName w = Throw TypeError.
Proof.
  intros Hshuffle Hshort.
  unfold MotionTutorialTrialWorld.createNewTrial,
    MotionTutorialTrialWorld.rollTrial. cbv zeta iota beta.
  rewrite (forRange_throws TypeError
             (Nat.min (length (leftGridPoints w))
                      (length (rightGridPoints w)))).
  - reflexivity.
  - cbn. lia.
  - intros st i e. apply createNewTrialStep_only_TypeError.
  - intros st i Hi. apply createNewTrialStep_short.
    rewrite !Hshuffle. lia.
Qed.

(** X25: when a shuffle keeps the length of its list and one of the two
    lattices has fewer points than numberOfDots, createDots and
    createNewTrial both throw a TypeError (a read past the end of the
    shuffled lattice is dereferenced); neither returns. *)
Theorem X25_short_lattice_throws_TypeError {QT : Type} (rs : RandomSource)
    (DirectionName : nat -> string) (w : World QT) :
  (forall (k : nat) (l : list Vec),
     length (randoSequence rs k l) = length l) ->
  (length (leftGridPoints w) < numberOfDots w
   \/ length (rightGridPoints w) < numberOfDots w)%nat ->
  MotionTutorialTrialWorld.createDots rs DirectionName w = Throw TypeError /\
  MotionTutorialTrialWorld.createNewTrial rs DirectionName w = Throw TypeError.
Proof.
  intros Hshuffle Hshort. split.
  - apply createDots_short_lattice; assumption.
  - apply createNewTrial_short_lattice; assumption.
Qed.

Lemma X25_short_lattice_throws_TypeError_witness :
  MotionTutorialTrialWorld.createDots (constantSource (1 / 2) true)
    sampleDirectionName (sampleWorld [] [] 3) = Throw TypeError /\
  MotionTutorialTrialWorld.createNewTrial (constantSource (1 / 2) true)
    sampleDirectionName (sampleWorld [] [] 3) = Throw TypeError.
Proof.
  apply (X25_short_lattice_throws_TypeError (constantSource (1 / 2) true)
           sampleDirectionName (sampleWorld [] [] 3)).
  - reflexivity.
  - left. cbn. lia.
Defined.

(** ** The constructor *)

Lemma createGridPoints_only_Error (numberOfDots : nat)
    (xMin xMax yMin yMax spacing : R) (e : Exception) :
  MotionTutorialTrialWorld.createGridPoints numberOfDots xMin xMax yMin yMax
    spacing = Throw e -> e = Error cannotSpawnMessage.
Proof.
  unfold MotionTutorialTrialWorld.createGridPoints. cbv zeta.
  case_bool_decide; intros Hrun;
    [injection Hrun as <-; reflexivity | discriminate Hrun].
Qed.

Lemma createDots_only_TypeError {QT : Type} (rs : RandomSource)
    (DirectionName : nat -> string) (w : World QT) (e : Exception) :
  MotionTutorialTrialWorld.createDots rs DirectionName w = Throw e ->
  e = TypeError.
Proof.
  unfold MotionTutorialTrialWorld.createDots,
    MotionTutorialTrialWorld.rollTrial. cbv zeta iota beta.
  destruct (MotionTutorialTrialWorld.forRange _ _ _) as [st|e0] eqn:Hrun;
    cbn [bind]; intros H; [discriminate H|].
  injection H as <-.
  eapply forRange_only_throws; [|exact Hrun].
  intros st i e'. apply createDotsStep_only_TypeError.
Qed.

Lemma placed_inside (minX maxX minY maxY : R) (points : list Vec)
    (p : Vec) (d : Dot) (dir : Direction) (t : R) :
  Forall (fun p : Vec => minX <= p.1 <= maxX /\ minY <= p.2 <= maxY) points ->
  p ∈ points -> dotPlaced d p dir t ->
  minX <= x d <= maxX /\ minY <= y d <= maxY.
Proof.
  intros Hall Hp (Hx & Hy & _).
  rewrite Forall_forall in Hall. specialize (Hall p Hp).
  rewrite Hx, Hy. exact Hall.
Qed.

(** X26: the constructor, from the creation of the lattices on, in a world
    without dots whose patches are at least a dot wide and high, with a
    positive lattice spacing and a random library whose shuffle returns a
    permutation: if it returns, each patch holds numberOfDots dots of
    radius dotRadius, every dot lies at least a radius inside the four
    walls of its patch, and the dots of the non-coherent side are Random;
    if it throws, the exception is the "Cannot spawn dots" Error or a
    TypeError. *)
Theorem X26_construct_outcomes {QT : Type} (rs : RandomSource)
    (DirectionName : nat -> string) (multiplier : R) (w : World QT) :
  (forall (k : nat) (l : list Vec), randoSequence rs k l ≡ₚ l) ->
  dotsLeft w = [] -> dotsRight w = [] ->
  leftMinX w + dotRadius w <= leftMaxX w - dotRadius w ->
  rightMinX w + dotRadius w <= rightMaxX w - dotRadius w ->
  patchMinY w + dotRadius w <= patchMaxY w - dotRadius w ->
  0 < multiplier * (2 * dotRadius w + dotSpacing w) ->
  (forall w' : World QT,
     MotionTutorialTrialWorld.construct rs DirectionName multiplier w = Ok w' ->
     length (dotsLeft w') = numberOfDots w /\
     length (dotsRight w') = numberOfDots w /\
     Forall (fun d =>
               radius d = dotRadius w /\
               leftMinX w + dotRadius w <= x d <= leftMaxX w - dotRadius w /\
               patchMinY w + dotRadius w <= y d <= patchMaxY w - dotRadius w)
            (dotsLeft w') /\
     Forall (fun d =>
               radius d = dotRadius w /\
               rightMinX w + dotRadius w <= x d <= rightMaxX w - dotRadius w /\
               patchMinY w + dotRadius w <= y d <= patchMaxY w - dotRadius w)
            (dotsRight w') /\
     nonCoherentSideRandom w') /\
  (forall e : Exception,
     MotionTutorialTrialWorld.construct rs DirectionName multiplier w = Throw e ->
     e = Error cannotSpawnMessage \/ e = TypeError).
Proof.
  intros Hperm HemptyL HemptyR HxL HxR Hy Hs.
  assert (Hshuffle : forall (k : nat) (l : list Vec),
             length (randoSequence rs k l) = length l)
    by (intros k l; apply Permutation_length, Hperm).
  unfold MotionTutorialTrialWorld.construct. cbv zeta.
  destruct (MotionTutorialTrialWorld.createGridPoints (numberOfDots w)
              (leftMinX w + dotRadius w) _ _ _ _) as [gl|e1] eqn:Hgl;
    cbn [bind];
    [| split; [intros w' H; discriminate H|];
       intros e H; injection H as <-; left;
       exact (createGridPoints_only_Error _ _ _ _ _ _ _ Hgl)].
  destruct (MotionTutorialTrialWorld.createGridPoints (numberOfDots w)
              (rightMinX w + dotRadius w) _ _ _ _) as [gr|e2] eqn:Hgr;
    cbn [bind];
    [| split; [intros w' H; discriminate H|];
       intros e H; injection H as <-; left;
       exact (createGridPoints_only_Error _ _ _ _ _ _ _ Hgr)].
  split; [| intros e H; right; exact (createDots_only_TypeError _ _ _ _ H)].
  intros w' Hrun.
  set (w2 := set_gridPoints w gl gr) in *.
  destruct (le_lt_dec (numberOfDots w2) (length (leftGridPoints w2)))
    as [HgridL|HgridL];
    [| rewrite (createDots_short_lattice rs DirectionName w2 Hshuffle
                  (or_introl HgridL)) in Hrun; discriminate Hrun].
  destruct (le_lt_dec (numberOfDots w2) (length (rightGridPoints w2)))
    as [HgridR|HgridR];
    [| rewrite (createDots_short_lattice rs DirectionName w2 Hshuffle
                  (or_intror HgridR)) in Hrun; discriminate Hrun].
  destruct (createDots_spawns rs DirectionName w2 Hshuffle HgridL HgridR
              HemptyL HemptyR)
    as (st & Hspawn & L1 & L2 & R1 & R2 & Hsp).
  rewrite Hspawn in Hrun. injection Hrun as <-.
  destruct (createGridPoints_bounds (numberOfDots w)
              (leftMinX w + dotRadius w) (leftMaxX w - dotRadius w)
              (patchMinY w + dotRadius w) (patchMaxY w - dotRadius w)
              (multiplier * (2 * dotRadius w + dotSpacing w)) gl
              HxL Hy Hs Hgl) as [HinL _].
  destruct (createGridPoints_bounds (numberOfDots w)
              (rightMinX w + dotRadius w) (rightMaxX w - dotRadius w)
              (patchMinY w + dotRadius w) (patchMaxY w - dotRadius w)
              (multiplier * (2 * dotRadius w + dotSpacing w)) gr
              HxR Hy Hs Hgr) as [HinR _].
  set (w1 := set_coherentPatchSide w2 _) in Hsp.
  assert (L1' : length (spawnLeft st) = numberOfDots w1) by exact L1.
  assert (L2' : length (spawnRight st) = numberOfDots w1) by exact L2.
  destruct (spawned_nonCoherent w1 _ _ _ st L1' L2' Hsp) as [NL NR].
  destruct Hsp as (_ & _ & _ & Hdots).
  cbn [dotsLeft dotsRight set_draws set_dotsRight set_dotsLeft].
  split; [exact L1|]. split; [exact L2|].
  split; [|split].
  - apply Forall_lookup. intros i d Hd.
    pose proof (lookup_lt_Some _ _ _ Hd) as Hi.
    destruct (Hdots i ltac:(cbn in *; lia))
      as (dl & dr & pl & pr & H1 & _ & H3 & _ & H5 & _).
    assert (d = dl) by congruence. subst d.
    split; [exact (proj1 (Forall_lookup _ _) R1 i dl Hd)|].
    eapply placed_inside; [exact HinL | | exact H5].
    apply list_elem_of_lookup_2 in H3. rewrite Hperm in H3. exact H3.
  - apply Forall_lookup. intros i d Hd.
    pose proof (lookup_lt_Some _ _ _ Hd) as Hi.
    destruct (Hdots i ltac:(cbn in *; lia))
      as (dl & dr & pl & pr & _ & H2 & _ & H4 & _ & H6).
    assert (d = dr) by congruence. subst d.
    split; [exact (proj1 (Forall_lookup _ _) R2 i dr Hd)|].
    eapply placed_inside; [exact HinR | | exact H6].
    apply list_elem_of_lookup_2 in H4. rewrite Hperm in H4. exact H4.
  - subst w1. split; [exact NL | exact NR].
Qed.

Lemma X26_construct_outcomes_witness :
  (forall w' : World (list nat),
     MotionTutorialTrialWorld.construct (constantSource (1 / 2) true)
       sampleDirectionName 1 (sampleWorld [] [] 2) = Ok w' ->
     length (dotsLeft w') = 2%nat /\
     length (dotsRight w') = 2%nat /\
     Forall (fun d =>
               radius d = 5 /\
               0 + 5 <= x d <= 100 - 5 /\ 0 + 5 <= y d <= 100 - 5)
            (dotsLeft w') /\
     Forall (fun d =>
               radius d = 5 /\
               120 + 5 <= x d <= 220 - 5 /\ 0 + 5 <= y d <= 100 - 5)
            (dotsRight w') /\
     nonCoherentSideRandom w') /\
  (forall e : Exception,
     MotionTutorialTrialWorld.construct (constantSource (1 / 2) true)
       sampleDirectionName 1 (sampleWorld [] [] 2) = Throw e ->
     e = Error cannotSpawnMessage \/ e = TypeError).
Proof.
  apply (X26_construct_outcomes (constantSource (1 / 2) true)
           sampleDirectionName 1 (sampleWorld [] [] 2));
    try reflexivity; cbn; lra.
Defined.

(** ** The text button *)

Lemma listeners_fold_invariant (I : TextButton.Fields -> Prop)
    (ls : list (TextButton.EventName * TextButton.Listener))
    (name : TextButton.EventName) (e : TextButton.Event) :
  Forall (fun l : TextButton.EventName * TextButton.Listener =>
            forall e s, I s -> exists s', l.2 e s = Ok s' /\ I s') ls ->
  forall s, I s ->
    exists s',
      fold_left
        (fun acc (l : TextButton.EventName * TextButton.Listener) =>
           do s <- acc;
           if bool_decide (l.1 = name) then l.2 e s else Ok s)
        ls (Ok s) = Ok s' /\ I s'.
Proof.
  induction 1 as [|l ls' Hl _ IH]; intros s Hs.
  - exists s. split; [reflexivity | exact Hs].
  - cbn [fold_left bind]. case_bool_decide.
    + destruct (Hl e s Hs) as (s1 & -> & Hs1). apply IH. exact Hs1.
    + apply IH. exact Hs.
Qed.

Section Emit.
Variable I : TextButton.Fields -> Prop.
Variable ls : list (TextButton.EventName * TextButton.Listener).
Hypothesis listeners_keep :
  Forall (fun l : TextButton.EventName * TextButton.Listener =>
            forall e s, I s -> exists s', l.2 e s = Ok s' /\ I s') ls.

Lemma emit_invariant (o : TextButton.Object) (name : TextButton.EventName)
    (e : TextButton.Event) :
  TextButton.listeners o = ls -> I (TextButton.fields o) ->
  exists o', TextButton.emit o name e = Ok o' /\
             TextButton.listeners o' = ls /\ I (TextButton.fields o').
Proof.
  intros Hls Hi. unfold TextButton.emit. rewrite Hls.
  destruct (listeners_fold_invariant I ls name e listeners_keep _ Hi)
    as (s' & -> & Hs'). cbn [bind].
  eexists. split; [reflexivity|]. split; [reflexivity | exact Hs'].
Qed.

Lemma emitAll_invariant (events : list (TextButton.EventName * TextButton.Event))
    (o : TextButton.Object) :
  TextButton.listeners o = ls -> I (TextButton.fields o) ->
  exists o', TextButton.emitAll o events = Ok o' /\
             TextButton.listeners o' = ls /\ I (TextButton.fields o').
Proof.
  unfold TextButton.emitAll. revert o.
  induction events as [|ev events IH]; intros o Hls Hi.
  - exists o. split; [reflexivity|]. split; assumption.
  - cbn [fold_left bind].
    destruct (emit_invariant o ev.1 ev.2 Hls Hi) as (o1 & -> & Hls1 & Hi1).
    apply IH; assumption.
Qed.

End Emit.

Lemma textListeners_keep (buttonText : option string) (hoverColor : option R)
    (s0 : TextButton.Fields) :
  TextButton.truthyString buttonText = true ->
  Forall (fun l : TextButton.EventName * TextButton.Listener =>
            forall e s, asBuilt buttonText hoverColor s0 s ->
              exists s', l.2 e s = Ok s' /\ asBuilt buttonText hoverColor s0 s')
         TextButton.textListeners.
Proof.
  intros Htruthy. unfold TextButton.textListeners, asBuilt.
  rewrite Htruthy.
  repeat apply Forall_cons_2; [..| apply Forall_nil_2];
    intros e s (Hset & [t Ht] & Hbtn); cbn [snd];
    unfold TextButton.press, TextButton.release, TextButton.shiftText;
    destruct (TextButton.isMouseDown s); destruct (TextButton.targetIsNull e);
    cbn [negb bind]; rewrite ?Ht; cbn [bind];
    (eexists; split; [reflexivity|]);
    (split; [exact Hset|]; split; [cbn; eauto | exact Hbtn]).
Qed.

Lemma hoverListeners_keep (radius : R) (buttonText : option string)
    (hoverColor strokeColor : option R) (strokeWidth color c width height : R)
    (s0 : TextButton.Fields) :
  TextButton.truthyNumber hoverColor = true ->
  Forall (fun l : TextButton.EventName * TextButton.Listener =>
            forall e s, asBuilt buttonText hoverColor s0 s ->
              exists s', l.2 e s = Ok s' /\ asBuilt buttonText hoverColor s0 s')
         (TextButton.hoverListeners radius strokeColor strokeWidth color c
            width height).
Proof.
  intros Htruthy. unfold TextButton.hoverListeners, asBuilt.
  rewrite Htruthy.
  repeat apply Forall_cons_2; [..| apply Forall_nil_2];
    intros e s (Hset & Htext & Hbtn); cbn [snd];
    destruct (TextButton.targetIsNull e);
    (eexists; split; [reflexivity|]);
    (split; [exact Hset|]; split; [exact Htext | discriminate]).
Qed.

(** Whatever events a constructed button receives, no listener throws, and
    the fields stay as built. *)
Lemma constructed_stays_as_built (radius x y width height color : R)
    (strokeColor : option R) (buttonText : option string)
    (buttonTextColor : R) (hoverColor : option R) (disabled : bool)
    (strokeWidth : R)
    (events : list (TextButton.EventName * TextButton.Event)) :
  exists o' : TextButton.Object,
    TextButton.emitAll
      (TextButton.construct radius x y width height color strokeColor
         buttonText buttonTextColor hoverColor disabled strokeWidth) events
    = Ok o' /\
    TextButton.listeners o'
    = TextButton.listeners
        (TextButton.construct radius x y width height color strokeColor
           buttonText buttonTextColor hoverColor disabled strokeWidth) /\
    asBuilt buttonText hoverColor
      (TextButton.fields
         (TextButton.construct radius x y width height color strokeColor
            buttonText buttonTextColor hoverColor disabled strokeWidth))
      (TextButton.fields o').
Proof.
  apply emitAll_invariant; [| reflexivity |].
  - cbn [TextButton.construct TextButton.listeners]. apply Forall_app_2.
    + destruct (TextButton.truthyString buttonText) eqn:Htext;
        [apply textListeners_keep; exact Htext | apply Forall_nil_2].
    + destruct hoverColor as [c|]; [|apply Forall_nil_2].
      destruct (TextButton.truthyNumber (Some c)) eqn:Hhover;
        [apply hoverListeners_keep; exact Hhover | apply Forall_nil_2].
  - unfold asBuilt. split; [reflexivity|]. split; [|reflexivity].
    cbn [TextButton.construct TextButton.fields TextButton.text
         TextButton.isMouseDown].
    destruct buttonText as [str|]; [|split; reflexivity].
    destruct (TextButton.truthyString (Some str));
      [eexists; reflexivity | split; reflexivity].
Qed.

(** X27: whatever events are emitted on a button after its construction,
    no listener throws; the listeners, and the size, colours, filters,
    position and the disabled, interactive and buttonMode flags stay as the
    constructor set them; and the button has a text exactly when the
    buttonText given was truthy (present and not the empty string). *)
Theorem X27_listeners_never_throw (radius x y width height color : R)
    (strokeColor : option R) (buttonText : option string)
    (buttonTextColor : R) (hoverColor : option R) (disabled : bool)
    (strokeWidth : R)
    (events : list (TextButton.EventName * TextButton.Event)) :
  exists o' : TextButton.Object,
    TextButton.emitAll
      (TextButton.construct radius x y width height color strokeColor
         buttonText buttonTextColor hoverColor disabled strokeWidth) events
    = Ok o' /\
    TextButton.listeners o'
    = TextButton.listeners
        (TextButton.construct radius x y width height color strokeColor
           buttonText buttonTextColor hoverColor disabled strokeWidth) /\
    TextButton.settings (TextButton.fields o')
    = ([TextButton.DropShadowFilter], width, height, color, buttonTextColor,
       (if TextButton.truthyNumber hoverColor then hoverColor else None),
       disabled, negb disabled, negb disabled,
       (x - width / 2, y - height / 2)) /\
    (is_Some (TextButton.text (TextButton.fields o'))
     <-> TextButton.truthyString buttonText = true).
Proof.
  destruct (constructed_stays_as_built radius x y width height color
              strokeColor buttonText buttonTextColor hoverColor disabled
              strokeWidth events) as (o' & Hrun & Hls & Hset & Htext & _).
  exists o'. split; [exact Hrun|]. split; [exact Hls|].
  split; [exact Hset|].
  destruct (TextButton.truthyString buttonText).
  - split; [reflexivity | intros _; exact Htext].
  - destruct Htext as [-> _]. split; [intros [t Ht]|]; discriminate.
Qed.

(** X28: disable(), called on a button after any events: it throws a
    TypeError when the button was built without a truthy buttonText (it
    starts by writing the alpha of the text); otherwise it returns, the
    button is no longer interactive nor in button mode, has no filters,
    its text has alpha 0.5 and has not moved, and the listeners, the
    pressed flag and the disabled field are what they were. *)
Theorem X28_disable_outcomes (radius disabledColor disabledStrokeColor
    x y width height color : R)
    (strokeColor : option R) (buttonText : option string)
    (buttonTextColor : R) (hoverColor : option R) (disabled : bool)
    (strokeWidth : R)
    (events : list (TextButton.EventName * TextButton.Event))
    (withStroke : bool) (disableStrokeWidth : R) (o' : TextButton.Object) :
  TextButton.emitAll
    (TextButton.construct radius x y width height color strokeColor
       buttonText buttonTextColor hoverColor disabled strokeWidth) events
  = Ok o' ->
  (TextButton.truthyString buttonText = false ->
   TextButton.disable radius disabledColor disabledStrokeColor withStroke
     disableStrokeWidth o' = Throw TypeError) /\
  (TextButton.truthyString buttonText = true ->
   exists (o'' : TextButton.Object) (t t' : TextButton.Text),
     TextButton.disable radius disabledColor disabledStrokeColor withStroke
       disableStrokeWidth o' = Ok o'' /\
     TextButton.interactive (TextButton.fields o'') = false /\
     TextButton.buttonMode (TextButton.fields o'') = false /\
     TextButton.filters (TextButton.fields o'') = [] /\
     TextButton.text (TextButton.fields o') = Some t /\
     TextButton.text (TextButton.fields o'') = Some t' /\
     TextButton.alpha t' = Some (1 / 2) /\
     TextButton.textY t' = TextButton.textY t /\
     TextButton.isMouseDown (TextButton.fields o'')
     = TextButton.isMouseDown (TextButton.fields o') /\
     TextButton.disabled (TextButton.fields o'') = disabled /\
     TextButton.listeners o'' = TextButton.listeners o').
Proof.
  intros Hrun.
  destruct (constructed_stays_as_built radius x y width height color
              strokeColor buttonText buttonTextColor hoverColor disabled
              strokeWidth events) as (o1 & Hrun1 & _ & Hset & Htext & _).
  rewrite Hrun in Hrun1. injection Hrun1 as <-.
  unfold TextButton.disable. split; intros Htruthy; rewrite Htruthy in Htext.
  - destruct Htext as [-> _]. reflexivity.
  - destruct Htext as [t Ht]. rewrite Ht.
    eexists _, t, _. split; [reflexivity|].
    cbn. repeat split; try reflexivity.
    unfold TextButton.settings in Hset. cbn in Hset. congruence.
Qed.

Lemma X28_disable_outcomes_witness :
  TextButton.emitAll
    (TextButton.construct 4 50 50 20 10 1 None (Some "OK"%string) 0 None
       false 3) [] =
  Ok (TextButton.construct 4 50 50 20 10 1 None (Some "OK"%string) 0 None
        false 3) /\
  (TextButton.truthyString (Some "OK"%string) = false ->
   TextButton.disable 4 2 3 false 3
     (TextButton.construct 4 50 50 20 10 1 None (Some "OK"%string) 0 None
        false 3) = Throw TypeError) /\
  (TextButton.truthyString (Some "OK"%string) = true ->
   exists (o'' : TextButton.Object) (t t' : TextButton.Text),
     TextButton.disable 4 2 3 false 3
       (TextButton.construct 4 50 50 20 10 1 None (Some "OK"%string) 0 None
          false 3) = Ok o'' /\
     TextButton.interactive (TextButton.fields o'') = false /\
     TextButton.buttonMode (TextButton.fields o'') = false /\
     TextButton.filters (TextButton.fields o'') = [] /\
     TextButton.text
       (TextButton.fields
          (TextButton.construct 4 50 50 20 10 1 None (Some "OK"%string) 0
             None false 3)) = Some t /\
     TextButton.text (TextButton.fields o'') = Some t' /\
     TextButton.alpha t' = Some (1 / 2) /\
     TextButton.textY t' = TextButton.textY t /\
     TextButton.isMouseDown (TextButton.fields o'')
     = TextButton.isMouseDown
         (TextButton.fields
            (TextButton.construct 4 50 50 20 10 1 None (Some "OK"%string) 0
               None false 3)) /\
     TextButton.disabled (TextButton.fields o'') = false /\
     TextButton.listeners o''
     = TextButton.listeners
         (TextButton.construct 4 50 50 20 10 1 None (Some "OK"%string) 0
            None false 3)).
Proof.
  split; [reflexivity|].
  apply (X28_disable_outcomes 4 2 3 50 50 20 10 1 None (Some "OK"%string) 0
           None false 3 [] false 3).
  reflexivity.
Defined.

Lemma hoverListeners_keep_text (radius : R) (strokeColor : option R)
    (strokeWidth color c width height : R) (txt : option TextButton.Text)
    (down : bool) :
  Forall (fun l : TextButton.EventName * TextButton.Listener =>
            forall e s,
              TextButton.text s = txt /\ TextButton.isMouseDown s = down ->
              exists s', l.2 e s = Ok s' /\
                         (TextButton.text s' = txt
                          /\ TextButton.isMouseDown s' = down))
         (TextButton.hoverListeners radius strokeColor strokeWidth color c
            width height).
Proof.
  unfold TextButton.hoverListeners.
  repeat apply Forall_cons_2; [..| apply Forall_nil_2];
    intros e s Hs; cbn [snd]; destruct (TextButton.targetIsNull e);
    (eexists; split; [reflexivity | exact Hs]).
Qed.

(** One event on a button with text: the text listener of the event runs,
    then the hover listeners, which leave the text and the pressed flag
    alone. *)
Lemma emit_pointerStep (radius : R) (strokeColor : option R)
    (strokeWidth color c width height : R) (hover : bool)
    (o : TextButton.Object) (t : TextButton.Text)
    (name : TextButton.EventName) (e : TextButton.Event) :
  TextButton.listeners o
  = TextButton.textListeners
    ++ (if hover
        then TextButton.hoverListeners radius strokeColor strokeWidth color c
               width height
        else []) ->
  TextButton.text (TextButton.fields o) = Some t ->
  exists (o' : TextButton.Object) (t' : TextButton.Text),
    TextButton.emit o name e = Ok o' /\
    TextButton.listeners o' = TextButton.listeners o /\
    TextButton.text (TextButton.fields o') = Some t' /\
    (TextButton.isMouseDown (TextButton.fields o'), TextButton.textY t')
    = pointerStep name e
        (TextButton.isMouseDown (TextButton.fields o), TextButton.textY t).
Proof.
  intros Hls Ht. unfold TextButton.emit. rewrite Hls, fold_left_app.
  assert (Htext : exists s1 t1,
             fold_left
               (fun acc (l : TextButton.EventName * TextButton.Listener) =>
                  do s <- acc;
                  if bool_decide (l.1 = name) then l.2 e s else Ok s)
               TextButton.textListeners (Ok (TextButton.fields o)) = Ok s1 /\
             TextButton.text s1 = Some t1 /\
             (TextButton.isMouseDown s1, TextButton.textY t1)
             = pointerStep name e
                 (TextButton.isMouseDown (TextButton.fields o),
                  TextButton.textY t)).
  { unfold TextButton.textListeners, pointerStep,
      TextButton.press, TextButton.release, TextButton.shiftText.
    destruct name; cbn [fold_left bind fst snd];
      destruct (TextButton.isMouseDown (TextButton.fields o)) eqn:Hdown;
      destruct (TextButton.targetIsNull e);
      repeat (first [rewrite bool_decide_true by reflexivity
                    | rewrite bool_decide_false by discriminate];
              cbn [bind negb]; rewrite ?Hdown, ?Ht; cbn [bind negb]);
      (eexists _, _; split; [reflexivity|];
       split; [first [exact Ht | reflexivity]|]);
      cbn; rewrite ?Hdown; f_equal; unfold TextButton.onClickTextOffset;
      lra. }
  destruct Htext as (s1 & t1 & -> & Ht1 & Hstep).
  destruct (listeners_fold_invariant
              (fun s => TextButton.text s = Some t1
                        /\ TextButton.isMouseDown s
                           = TextButton.isMouseDown s1)
              (if hover
               then TextButton.hoverListeners radius strokeColor strokeWidth
                      color c width height
               else []) name e) with (s := s1)
    as (s2 & -> & Ht2 & Hdown2).
  - destruct hover; [apply hoverListeners_keep_text | apply Forall_nil_2].
  - split; [exact Ht1 | reflexivity].
  - cbn [bind]. eexists _, t1.
    split; [reflexivity|]. split; [reflexivity|]. split; [exact Ht2|].
    cbn [TextButton.fields]. rewrite Hdown2. exact Hstep.
Qed.

Lemma emitAll_pointerSteps (radius : R) (strokeColor : option R)
    (strokeWidth color c width height : R) (hover : bool)
    (events : list (TextButton.EventName * TextButton.Event))
    (o : TextButton.Object) (t : TextButton.Text) :
  TextButton.listeners o
  = TextButton.textListeners
    ++ (if hover
        then TextButton.hoverListeners radius strokeColor strokeWidth color c
               width height
        else []) ->
  TextButton.text (TextButton.fields o) = Some t ->
  exists (o' : TextButton.Object) (t' : TextButton.Text),
    TextButton.emitAll o events = Ok o' /\
    TextButton.text (TextButton.fields o') = Some t' /\
    (TextButton.isMouseDown (TextButton.fields o'), TextButton.textY t')
    = fold_left (fun p ev => pointerStep ev.1 ev.2 p) events
        (TextButton.isMouseDown (TextButton.fields o), TextButton.textY t).
Proof.
  unfold TextButton.emitAll. revert o t.
  induction events as [|ev events IH]; intros o t Hls Ht.
  - exists o, t. split; [reflexivity|]. split; [exact Ht | reflexivity].
  - cbn [fold_left bind].
    destruct (emit_pointerStep radius strokeColor strokeWidth color c width
                height hover o t ev.1 ev.2 Hls Ht)
      as (o1 & t1 & -> & Hls1 & Ht1 & Hstep).
    rewrite <- Hstep. apply IH; [rewrite Hls1; exact Hls | exact Ht1].
Qed.

(** X29: on a button built with a truthy buttonText, after any events
    that leave it released, each complete pointer gesture (a click, a
    press dragged out and released outside, a press dragged out and back,
    a tap, a touch sliding off, a touch moving on the button) runs without
    exception and leaves the button released with its text where it
    was. *)
Theorem X29_complete_gestures_restore_text (radius x y width height color : R)
    (strokeColor : option R) (buttonText : option string)
    (buttonTextColor : R) (hoverColor : option R) (disabled : bool)
    (strokeWidth : R)
    (events gesture : list (TextButton.EventName * TextButton.Event))
    (o' : TextButton.Object) :
  TextButton.truthyString buttonText = true ->
  TextButton.emitAll
    (TextButton.construct radius x y width height color strokeColor
       buttonText buttonTextColor hoverColor disabled strokeWidth) events
  = Ok o' ->
  TextButton.isMouseDown (TextButton.fields o') = false ->
  gesture ∈ TextButton.completeGestures ->
  exists o'' : TextButton.Object,
    TextButton.emitAll o' gesture = Ok o'' /\
    TextButton.isMouseDown (TextButton.fields o'') = false /\
    TextButton.textY <$> TextButton.text (TextButton.fields o'')
    = TextButton.textY <$> TextButton.text (TextButton.fields o').
Proof.
  intros Htruthy Hrun Hup Hg.
  destruct (constructed_stays_as_built radius x y width height color
              strokeColor buttonText buttonTextColor hoverColor disabled
              strokeWidth events) as (o1 & Hrun1 & Hls & _ & Htext & _).
  rewrite Hrun in Hrun1. injection Hrun1 as <-.
  rewrite Htruthy in Htext. destruct Htext as [t Ht].
  cbn [TextButton.construct TextButton.listeners] in Hls.
  rewrite Htruthy in Hls.
  assert (Hshape : exists (hover : bool) (c : R),
             TextButton.listeners o'
             = TextButton.textListeners
               ++ (if hover
                   then TextButton.hoverListeners radius strokeColor
                          strokeWidth color c width height
                   else [])).
  { destruct hoverColor as [c|]; [|exists false, 0; exact Hls].
    destruct (TextButton.truthyNumber (Some c));
      [exists true, c | exists false, 0]; exact Hls. }
  destruct Hshape as (hover & c & Hshape).
  destruct (emitAll_pointerSteps radius strokeColor strokeWidth color c width
              height hover gesture o' t Hshape Ht)
    as (o'' & t'' & Hrun' & Ht'' & Hsteps).
  exists o''. split; [exact Hrun'|].
  rewrite Ht, Ht'', Hup in *. cbn [fmap option_fmap option_map].
  assert (Hpair : fold_left (fun p ev => pointerStep ev.1 ev.2 p) gesture
                    (false, TextButton.textY t)
                  = (false, TextButton.textY t)).
  { unfold TextButton.completeGestures in Hg.
    repeat (apply elem_of_cons in Hg as [-> | Hg]);
      [.. | apply elem_of_nil in Hg; destruct Hg];
      cbn; f_equal; unfold TextButton.onClickTextOffset; lra. }
  rewrite Hpair in Hsteps. injection Hsteps as -> ->.
  split; reflexivity.
Qed.

Lemma X29_complete_gestures_restore_text_witness :
  exists o'' : TextButton.Object,
    TextButton.emitAll
      (TextButton.construct 4 50 50 20 10 1 None (Some "OK"%string) 0 None
         false 3)
      [(TextButton.mousedown, TextButton.mkEvent false);
       (TextButton.mouseup, TextButton.mkEvent false)] = Ok o'' /\
    TextButton.isMouseDown (TextButton.fields o'') = false /\
    TextButton.textY <$> TextButton.text (TextButton.fields o'')
    = TextButton.textY
      <$> TextButton.text
            (TextButton.fields
               (TextButton.construct 4 50 50 20 10 1 None
                  (Some "OK"%string) 0 None false 3)).
Proof.
  apply (X29_complete_gestures_restore_text 4 50 50 20 10 1 None
           (Some "OK"%string) 0 None false 3 []).
  - reflexivity.
  - reflexivity.
  - reflexivity.
  - unfold TextButton.completeGestures. apply elem_of_cons. left. reflexivity.
Defined.

(** X30: options that are not truthy register nothing.  On a button built
    without a truthy hoverColor (absent, or 0, which is black), no event
    ever redraws the button: the calls made on its graphics remain those
    of the constructor.  On a button built without a truthy buttonText
    (absent or empty) no event ever presses it. *)
Theorem X30_falsy_options_register_nothing (radius x y width height color : R)
    (strokeColor : option R) (buttonText : option string)
    (buttonTextColor : R) (hoverColor : option R) (disabled : bool)
    (strokeWidth : R)
    (events : list (TextButton.EventName * TextButton.Event))
    (o' : TextButton.Object) :
  TextButton.emitAll
    (TextButton.construct radius x y width height color strokeColor
       buttonText buttonTextColor hoverColor disabled strokeWidth) events
  = Ok o' ->
  (TextButton.truthyNumber hoverColor = false ->
   TextButton.button (TextButton.fields o')
   = TextButton.outline strokeColor strokeWidth
     ++ [TextButton.beginFill color;
         TextButton.drawRoundedRect 0 0 width height radius;
         TextButton.endFill]) /\
  (TextButton.truthyString buttonText = false ->
   TextButton.isMouseDown (TextButton.fields o') = false /\
   TextButton.text (TextButton.fields o') = None).
Proof.
  intros Hrun.
  destruct (constructed_stays_as_built radius x y width height color
              strokeColor buttonText buttonTextColor hoverColor disabled
              strokeWidth events) as (o1 & Hrun1 & _ & _ & Htext & Hbtn).
  rewrite Hrun in Hrun1. injection Hrun1 as <-.
  split.
  - intros Hhover. rewrite (Hbtn Hhover). reflexivity.
  - intros Htruthy. rewrite Htruthy in Htext.
    destruct Htext as [Ht Hdown]. split; [exact Hdown | exact Ht].
Qed.

Lemma X30_falsy_options_register_nothing_witness :
  TextButton.emitAll
    (TextButton.construct 4 50 50 20 10 1 None None 0 (Some 0) false 3)
    [(TextButton.mouseover, TextButton.mkEvent false)]
  = Ok (TextButton.construct 4 50 50 20 10 1 None None 0 (Some 0) false 3) /\
  (TextButton.truthyNumber (Some 0) = false ->
   TextButton.button
     (TextButton.fields
        (TextButton.construct 4 50 50 20 10 1 None None 0 (Some 0) false 3))
   = TextButton.outline None 3
     ++ [TextButton.beginFill 1;
         TextButton.drawRoundedRect 0 0 20 10 4;
         TextButton.endFill]) /\
  (TextButton.truthyString None = false ->
   TextButton.isMouseDown
     (TextButton.fields
        (TextButton.construct 4 50 50 20 10 1 None None 0 (Some 0) false 3))
   = false /\
   TextButton.text
     (TextButton.fields
        (TextButton.construct 4 50 50 20 10 1 None None 0 (Some 0) false 3))
   = None).
Proof.
  assert (Hrun : TextButton.emitAll
                   (TextButton.construct 4 50 50 20 10 1 None None 0 (Some 0)
                      false 3)
                   [(TextButton.mouseover, TextButton.mkEvent false)]
                 = Ok (TextButton.construct 4 50 50 20 10 1 None None 0
                         (Some 0) false 3)).
  { unfold TextButton.construct, TextButton.truthyNumber.
    rewrite bool_decide_false by (intros H; apply H; reflexivity).
    reflexivity. }
  split; [exact Hrun|].
  apply (X30_falsy_options_register_nothing 4 50 50 20 10 1 None None 0
           (Some 0) false 3
           [(TextButton.mouseover, TextButton.mkEvent false)]).
  exact Hrun.
Defined.
